(** * distortos: SD/MMC-over-SPI block device and the kernel contracts it relies on

    A shallow embedding of [source/devices/memory/SpiSdMmcCard.cpp] and of
    [source/threads/Thread.cpp], with the properties the specification
    states about them.

    Conventions.
    - Fixed-width unsigned integers are [Z] values with the wrap-around
      written out ([uint8], [uint32], [uint64], [size_t]).
    - Byte ranges and buffers are [list Z]; a null pointer is [None].
    - Everything outside the driver (tick clock, SPI master, SPI device) is
      an explicit environment: the driver threads a [World] through its
      calls and asks an [Env] oracle for the answer of every external call.
    - Loops bounded only by the tick clock take a fuel argument and return
      [None] when it runs out. *)

From Stdlib Require Import ZArith List Bool Lia Arith.
Import ListNotations.
Local Open Scope Z_scope.

(* ===================================================================== *)
(** * Part I: definitions *)
(* ===================================================================== *)

(** ** Fixed-width integers *)

Definition CHAR_BIT : Z := 8.

Definition uint8 (z : Z) : Z := z mod 2 ^ 8.
Definition uint16 (z : Z) : Z := z mod 2 ^ 16.
Definition uint32 (z : Z) : Z := z mod 2 ^ 32.
Definition uint64 (z : Z) : Z := z mod 2 ^ 64.

(** [size_t] of the 32-bit targets the driver is built for. *)
Definition SIZE_WIDTH : Z := 32.
Definition size_t (z : Z) : Z := z mod 2 ^ SIZE_WIDTH.

Definition is_uint8 (z : Z) : Prop := 0 <= z < 2 ^ 8.

(** ** errno values used by the driver (newlib numbering) *)

Definition EPERM : Z := 1.
Definition EIO : Z := 5.
Definition EBADF : Z := 9.
Definition EAGAIN : Z := 11.
Definition EINVAL : Z := 22.
Definition EMFILE : Z := 24.
Definition ENOSPC : Z := 28.
Definition ETIMEDOUT : Z := 116.

(** ** extractBits *)

(** [range.rbegin()[i]]: element [i] counted from the end of the range. *)
Definition rbegin_at (range : list Z) (i : Z) : Z :=
  nth (Z.to_nat i) (rev range) 0.

(** One iteration of the [for] loop of [extractBits]. *)
Definition extractBits_step (range : list Z) (begin offset : Z) (i value : Z) : Z :=
  let divider := CHAR_BIT in
  let byte := rbegin_at range i in
  let shift := (i - begin) * divider - offset in
  if 0 <=? shift
  then Z.lor value (uint32 (Z.shiftl byte shift))
  else Z.lor value (Z.shiftr byte (- shift)).

(** [for (size_t i {begin}; i < end; ++i)], with [n] iterations left. *)
Fixpoint extractBits_loop (range : list Z) (begin offset : Z)
    (n : nat) (i value : Z) : Z :=
  match n with
  | O => value
  | S n' =>
      extractBits_loop range begin offset n' (i + 1)
        (extractBits_step range begin offset i value)
  end.

(** [extractBits(range, index, size)]; [None] when an [assert] fails. *)
Definition extractBits (range : list Z) (index size : Z) : option Z :=
  if negb (size <=? 4 * CHAR_BIT) then None else
  let divider := CHAR_BIT in
  let begin := index / divider in
  let end_ := size_t (index + size + divider - 1) / divider in
  if negb (end_ <=? Z.of_nat (length range)) then None else
  let offset := index mod divider in
  let value := extractBits_loop range begin offset (Z.to_nat (end_ - begin)) begin 0 in
  Some (Z.land value (uint32 (uint32 (Z.shiftl 1 size) - 1))).

(** The range read as one number: "bits are numbered just like in the CSD",
    bit 0 is the least significant bit of the last element. *)
Fixpoint littleEndianValue (bytes : list Z) : Z :=
  match bytes with
  | [] => 0
  | b :: rest => b + 2 ^ 8 * littleEndianValue rest
  end.

Definition rangeValue (range : list Z) : Z := littleEndianValue (rev range).

(** The [size]-bit field of the range that starts at bit [index]. *)
Definition bitField (range : list Z) (index size : Z) : Z :=
  (rangeValue range / 2 ^ index) mod 2 ^ size.


(** ** The environment of the driver

    [SpiSdMmcCard.cpp] talks to three collaborators that live elsewhere in
    the repository: [TickClock], [SpiMasterProxy] (bus configuration and
    transactions, device selection) and [SpiDevice] (open count and device
    lock).  They are parameters of the model: an [Env] gives the answer of
    every external call, a [World] records what the driver did. *)

(** Only [SpiMode::_0] is named by the driver. *)
Inductive SpiMode : Type := SpiMode_0.

(** [SpiMasterTransfer {writeBuffer, readBuffer, size}]: the bytes behind a
    non-null write buffer, whether a read buffer is given, and the size. *)
Record SpiMasterTransfer : Type := mkTransfer {
  writeBuffer : option (list Z);
  readBuffer : bool;
  transferSize : Z
}.

(** What one transfer of a transaction did: [getBytesTransfered()] and the
    bytes delivered to its read buffer. *)
Record TransferResult : Type := mkTransferResult {
  bytesTransfered : Z;
  received : list Z
}.

(** What the driver did on the bus, with the return code it got. *)
Inductive BusEvent : Type :=
| EvConfigure (mode : SpiMode) (clockFrequency wordLength : Z)
    (lsbFirst : bool) (dummyData : Z) (ret : Z)
| EvSelect
| EvDeselect
| EvTransaction (operations : list SpiMasterTransfer) (ret : Z)
    (results : list TransferResult).

Record Env (Device : Type) : Type := mkEnv {
  (** value returned by the k-th call of [TickClock::now()], in ticks *)
  tickAt : nat -> Z;
  (** ticks per millisecond of [TickClock::duration] *)
  ticksPerMs : Z;
  (** return code of [SpiMasterProxy::configure()], given the history *)
  configureAnswer : list BusEvent -> Z;
  (** outcome of [SpiMasterProxy::executeTransaction()], given the history *)
  transactionAnswer : list BusEvent -> list SpiMasterTransfer -> Z * list TransferResult;
  (** [SpiDeviceProxy::isOpened()] *)
  deviceIsOpened : Device -> bool;
  (** [SpiDevice::open()] and [SpiDevice::close()] *)
  deviceOpen : Device -> Z * Device;
  deviceClose : Device -> Z * Device;
  (** [SpiDevice::lock()]; [None] when the caller stays blocked *)
  deviceLock : Device -> option (Z * Device);
  (** [SpiDevice::unlock()] *)
  deviceUnlock : Device -> Z * Device
}.

Arguments mkEnv {Device}.
Arguments tickAt {Device}.
Arguments ticksPerMs {Device}.
Arguments configureAnswer {Device}.
Arguments transactionAnswer {Device}.
Arguments deviceIsOpened {Device}.
Arguments deviceOpen {Device}.
Arguments deviceClose {Device}.
Arguments deviceLock {Device}.
Arguments deviceUnlock {Device}.

(** [busEvents] holds the newest event first. *)
Record World (Device : Type) : Type := mkWorld {
  ticksRead : nat;
  busEvents : list BusEvent;
  spiDevice_ : Device
}.

Arguments mkWorld {Device}.
Arguments ticksRead {Device}.
Arguments busEvents {Device}.
Arguments spiDevice_ {Device}.

(** ** The card object *)

Inductive CardType : Type := unknown | mmc | sdVersion1 | sdVersion2.

Definition CardType_eqb (a b : CardType) : bool :=
  match a, b with
  | unknown, unknown | mmc, mmc | sdVersion1, sdVersion1 | sdVersion2, sdVersion2 => true
  | _, _ => false
  end.

Record SpiSdMmcCard : Type := mkCard {
  clockFrequency_ : Z;
  blocksCount_ : Z;
  readTimeoutMs_ : Z;
  writeTimeoutMs_ : Z;
  blockAddressing_ : bool;
  type_ : CardType
}.

(** Modelled from the spec: the constant [SpiSdMmcCard::blockSize] is
    declared in the class header; the specification gives 512 bytes. *)
Definition blockSize : Z := 512.

Definition UINT32_MAX : Z := 2 ^ 32 - 1.

(** ** Local objects of SpiSdMmcCard.cpp *)

Definition dataResponseTokenMask : Z := 0x1f.
Definition dataResponseTokenDataAccepted : Z := Z.lor (Z.shiftl 2 1) 1.
Definition startBlockToken : Z := 0xfe.
Definition startBlockWriteToken : Z := 0xfc.
Definition stopTranToken : Z := 0xfd.
Definition r1InIdleStateMask : Z := Z.shiftl 1 0.
Definition ocrCcsMask : Z := Z.shiftl 1 30.
Definition acmd41HcsPosition : Z := 30.

(** CSD version 2.0 *)
Record CsdV2 : Type := mkCsdV2 {
  cSize : Z;
  ccc : Z;
  taac : Z;
  nsac : Z;
  tranSpeed : Z;
  readBlLen : Z;
  readBlPartial : Z;
  writeBlkMisalign : Z;
  readBlkMisalign : Z;
  dsrImp : Z;
  eraseBlkEn : Z;
  sectorSize : Z;
  wpGrpSize : Z;
  wpGrpEnable : Z;
  r2wFactor : Z;
  writeBlLen : Z;
  writeBlPartial : Z;
  fileFormatGrp : Z;
  copy : Z;
  permWriteProtect : Z;
  tmpWriteProtect : Z;
  fileFormat : Z
}.

Record Csd : Type := mkCsd {
  csdV2 : CsdV2;
  csdStructure : Z
}.

(** [extractBits] on the 16-byte CSD buffer, where both assertions hold. *)
Definition csdBits (buffer : list Z) (index size : Z) : Z :=
  match extractBits buffer index size with
  | Some value => value
  | None => 0
  end.

Definition decodeCsd (buffer : list Z) : Csd :=
  {| csdStructure := uint8 (csdBits buffer 126 2);
     csdV2 :=
       {| taac := uint8 (csdBits buffer 112 8);
          nsac := uint8 (csdBits buffer 104 8);
          tranSpeed := uint8 (csdBits buffer 96 8);
          ccc := uint16 (csdBits buffer 84 12);
          readBlLen := uint8 (csdBits buffer 80 4);
          readBlPartial := uint8 (csdBits buffer 79 1);
          writeBlkMisalign := uint8 (csdBits buffer 78 1);
          readBlkMisalign := uint8 (csdBits buffer 77 1);
          dsrImp := uint8 (csdBits buffer 76 1);
          cSize := csdBits buffer 48 22;
          eraseBlkEn := uint8 (csdBits buffer 46 1);
          sectorSize := uint8 (csdBits buffer 39 7);
          wpGrpSize := uint8 (csdBits buffer 32 7);
          wpGrpEnable := uint8 (csdBits buffer 31 1);
          r2wFactor := uint8 (csdBits buffer 26 3);
          writeBlLen := uint8 (csdBits buffer 22 4);
          writeBlPartial := uint8 (csdBits buffer 21 1);
          fileFormatGrp := uint8 (csdBits buffer 15 1);
          copy := uint8 (csdBits buffer 14 1);
          permWriteProtect := uint8 (csdBits buffer 13 1);
          tmpWriteProtect := uint8 (csdBits buffer 12 1);
          fileFormat := uint8 (csdBits buffer 10 2) |} |}.

(** ** Buffers *)

(** Writes [data] into [buffer] from position [offset] on; the buffer keeps
    its length. *)
Definition store (buffer : list Z) (offset : nat) (data : list Z) : list Z :=
  firstn offset buffer
  ++ firstn (length buffer - offset) data
  ++ skipn (offset + length data) buffer.

(** The bytes a read transfer of [size] bytes delivers. *)
Definition delivered (results : list TransferResult) (operation : nat) (size : Z) : list Z :=
  map uint8 (firstn (Z.to_nat size)
    (received (nth operation results (mkTransferResult 0 [])))).

Definition transfered (results : list TransferResult) (operation : nat) : Z :=
  size_t (bytesTransfered (nth operation results (mkTransferResult 0 []))).

(** ** The driver monad: fuel, world in, result and world out *)

Definition Driver (Device A : Type) : Type :=
  nat -> World Device -> option (A * World Device).

Definition ret {Device A : Type} (a : A) : Driver Device A :=
  fun _ w => Some (a, w).

Definition bind {Device A B : Type} (m : Driver Device A)
    (k : A -> Driver Device B) : Driver Device B :=
  fun fuel w =>
    match m fuel w with
    | Some (a, w') => k a fuel w'
    | None => None
    end.

(** A computation that has not returned: the loop ran out of fuel. *)
Definition outOfFuel {Device A : Type} : Driver Device A :=
  fun _ _ => None.

(** Runs a loop that recurses on the fuel. *)
Definition withFuel {Device A : Type} (loop : nat -> Driver Device A)
    : Driver Device A :=
  fun fuel w => loop fuel fuel w.

(** Runs a computation with the given fuel from the given world. *)
Definition run {Device A : Type} (m : Driver Device A) (fuel : nat)
    (w : World Device) : option (A * World Device) :=
  m fuel w.

Declare Scope driver_scope.
Delimit Scope driver_scope with driver.
Notation "x <- m ;; k" := (bind m (fun x => k))
  (at level 100, m at next level, right associativity) : driver_scope.
Notation "' pat <- m ;; k" := (bind m (fun x => match x with pat => k end))
  (at level 100, pat pattern, m at next level, right associativity) : driver_scope.
Notation "m ;;; k" := (bind m (fun _ => k))
  (at level 100, right associativity) : driver_scope.
Local Open Scope driver_scope.

Section Driver.

Context {Device : Type}.
Variable env : Env Device.

(** *** External calls *)

(** [TickClock::now()] *)
Definition now : Driver Device Z :=
  fun _ w =>
    Some (tickAt env (ticksRead w),
          mkWorld (S (ticksRead w)) (busEvents w) (spiDevice_ w)).

Definition logEvent (e : BusEvent) (w : World Device) : World Device :=
  mkWorld (ticksRead w) (e :: busEvents w) (spiDevice_ w).

(** [spiMasterProxy.configure(mode, clockFrequency, wordLength, lsbFirst,
    dummyData).first] *)
Definition configure (mode : SpiMode) (clockFrequency wordLength : Z)
    (lsbFirst : bool) (dummyData : Z) : Driver Device Z :=
  fun _ w =>
    let code := configureAnswer env (busEvents w) in
    Some (code, logEvent (EvConfigure mode clockFrequency wordLength lsbFirst dummyData code) w).

(** [spiMasterProxy.executeTransaction(operations)]: the return code and
    what each transfer did. *)
Definition executeTransaction (operations : list SpiMasterTransfer)
    : Driver Device (Z * list TransferResult) :=
  fun _ w =>
    let '(code, results) := transactionAnswer env (busEvents w) operations in
    Some ((code, results), logEvent (EvTransaction operations code results) w).

(** Constructor and destructor of [SpiDeviceSelectGuard]. *)
Definition selectDevice : Driver Device unit :=
  fun _ w => Some (tt, logEvent EvSelect w).

Definition deselectDevice : Driver Device unit :=
  fun _ w => Some (tt, logEvent EvDeselect w).

(** [ThisThread::sleepFor({})]: gives the processor away; the time that
    passes shows in the next answer of the clock. *)
Definition sleepFor (duration : Z) : Driver Device unit := ret tt.

Definition milliseconds (ms : Z) : Z := ms * ticksPerMs env.
Definition seconds (s : Z) : Z := milliseconds (1000 * s).

(** *** waitWhile, waitWhileBusy *)

Fixpoint waitWhile_loop (functor : Z -> bool) (deadline : Z) (n : nat)
    : Driver Device (Z * Z) :=
  match n with
  | O => outOfFuel
  | S n' =>
      t <- now ;;
      if t <? deadline then
        '(code, results) <- executeTransaction [mkTransfer None true 1] ;;
        if negb (code =? 0) then ret (code, 0)
        else
          let byte := nth 0 (delivered results 0 1) 0 in
          if negb (functor byte) then ret (0, byte)
          else waitWhile_loop functor deadline n'
      else ret (ETIMEDOUT, 0)
  end.

Definition waitWhile (duration : Z) (functor : Z -> bool) : Driver Device (Z * Z) :=
  start <- now ;;
  let deadline := start + duration in
  withFuel (waitWhile_loop functor deadline).

Definition waitWhileBusy (duration : Z) : Driver Device Z :=
  r <- waitWhile duration (fun byte => negb (byte =? 0xff)) ;;
  ret (fst r).

(** *** readDataBlock, writeDataBlock *)

(** [buffer] is the content of the destination before the call; the result
    carries the return code, the number of read bytes and the content of
    the destination afterwards. *)
Definition readDataBlock (buffer : list Z) (size : Z) (duration : Z)
    : Driver Device (Z * Z * list Z) :=
  r <- waitWhile duration (fun byte => byte =? 0xff) ;;
  if negb (fst r =? 0) then ret (fst r, 0, buffer)
  else if negb (snd r =? startBlockToken) then ret (EIO, 0, buffer)
  else
    '(code, results) <- executeTransaction
        [mkTransfer None true size; mkTransfer None false 2] ;;
    let bytesRead := transfered results 0 in
    ret (code, bytesRead, store buffer 0 (delivered results 0 size)).

Definition writeDataBlock (token : Z) (buffer : list Z) (size : Z) (duration : Z)
    : Driver Device (Z * Z) :=
  let header := [0xff; token] in
  '(code, results) <- executeTransaction
      [mkTransfer (Some header) false 2;
       mkTransfer (Some buffer) false size;
       mkTransfer None true 3] ;;
  let footer := store [0; 0; 0] 0 (delivered results 2 3) in
  let bytesWritten := transfered results 1 in
  if negb (code =? 0) then ret (code, bytesWritten)
  else
    code <- waitWhileBusy duration ;;
    if negb (code =? 0) then ret (code, bytesWritten)
    else
      let dataResponseToken := nth 2 footer 0 in
      if negb (Z.land dataResponseToken dataResponseTokenMask =? dataResponseTokenDataAccepted)
      then ret (EIO, bytesWritten)
      else ret (0, bytesWritten).

(** *** readResponse, readR1, readR3 *)

(** [std::find_if(buffer.begin(), buffer.end(), value != 0xff) - buffer.begin()] *)
Fixpoint invalidBytesOf (buffer : list Z) : Z :=
  match buffer with
  | [] => 0
  | value :: rest => if negb (value =? 0xff) then 0 else 1 + invalidBytesOf rest
  end.

(** [memmove(buffer.begin(), buffer.begin() + invalidBytes, validBytes)] *)
Definition memmoveToFront (buffer : list Z) (invalidBytes validBytes : Z) : list Z :=
  store buffer 0 (firstn (Z.to_nat validBytes) (skipn (Z.to_nat invalidBytes) buffer)).

(** The [while (bytesRead < maxBytesRead)] loop; [n] bounds the iterations
    that are left. *)
Fixpoint readResponse_loop (n : nat) (buffer : list Z) (bytesRead validBytesRead : Z)
    : Driver Device (Z * list Z) :=
  let size := Z.of_nat (length buffer) in
  let maxBytesRead := size_t (size + 8) in
  if negb (bytesRead <? maxBytesRead) then ret (ETIMEDOUT, buffer)
  else
    match n with
    | O => outOfFuel
    | S n' =>
        let readSize := size_t (size - validBytesRead) in
        '(code, results) <- executeTransaction [mkTransfer None true readSize] ;;
        if negb (code =? 0) then ret (code, buffer)
        else
          let buffer1 := store buffer (Z.to_nat validBytesRead) (delivered results 0 readSize) in
          let '(buffer2, validBytesRead') :=
            if validBytesRead =? 0 then
              let invalidBytes := invalidBytesOf buffer1 in
              let validBytes := size - invalidBytes in
              (if negb (validBytes =? 0) && negb (invalidBytes =? 0)
               then memmoveToFront buffer1 invalidBytes validBytes
               else buffer1,
               validBytes)
            else (buffer1, size_t (validBytesRead + readSize)) in
          if validBytesRead' =? size then ret (0, buffer2)
          else readResponse_loop n' buffer2 (size_t (bytesRead + readSize)) validBytesRead'
    end.

(** [buffer] is the content of the response buffer before the call. *)
Definition readResponse (buffer : list Z) : Driver Device (Z * list Z) :=
  readResponse_loop (length buffer + 8) buffer 0 0.

Definition readR1 : Driver Device (Z * Z) :=
  '(code, response) <- readResponse [0] ;;
  ret (code, nth 0 response 0).

Definition readR3 : Driver Device (Z * Z * Z) :=
  '(code, r3) <- readResponse [0; 0; 0; 0; 0] ;;
  ret (code, nth 0 r3 0,
       uint32 (Z.lor (Z.lor (Z.lor (Z.shiftl (nth 1 r3 0) 24) (Z.shiftl (nth 2 r3 0) 16))
                             (Z.shiftl (nth 3 r3 0) 8))
                     (nth 4 r3 0))).

(** *** Commands *)

Definition writeCmd (command argument crc7 : Z) (stuffByte : bool) : Driver Device Z :=
  let buffer :=
    [uint8 (Z.lor 0x40 command);
     uint8 (Z.shiftr argument 24);
     uint8 (Z.shiftr argument 16);
     uint8 (Z.shiftr argument 8);
     uint8 argument;
     uint8 (Z.lor (Z.shiftl crc7 1) 1);
     0xff] in
  let size := 7 - (if negb stuffByte then 1 else 0) in
  '(code, _) <- executeTransaction
      [mkTransfer (Some (firstn (Z.to_nat size) buffer)) false size] ;;
  ret code.

Definition writeCmdReadR1 (command argument crc7 : Z) (stuffByte : bool)
    : Driver Device (Z * Z) :=
  code <- writeCmd command argument crc7 stuffByte ;;
  if negb (code =? 0) then ret (code, 0)
  else readR1.

Definition writeCmdReadR3 (command argument crc7 : Z) (stuffByte : bool)
    : Driver Device (Z * Z * Z) :=
  code <- writeCmd command argument crc7 stuffByte ;;
  if negb (code =? 0) then ret (code, 0, 0)
  else readR3.

Definition executeCmd0 : Driver Device (Z * Z) := writeCmdReadR1 0 0 0x4a false.

Definition executeCmd1 : Driver Device (Z * Z) := writeCmdReadR1 1 0 0 false.

Definition executeCmd8 : Driver Device (Z * Z * bool) :=
  let pattern := 0x1aa in
  '(code, r1, ocr) <- writeCmdReadR3 8 pattern 0x43 false ;;
  ret (code, r1, ocr =? pattern).

Definition executeCmd9 : Driver Device (Z * Z * list Z) :=
  '(code, r1) <- writeCmdReadR1 9 0 0 false ;;
  if negb (code =? 0) || negb (r1 =? 0) then ret (code, r1, repeat 0 16)
  else
    '(code, _, csdBuffer) <- readDataBlock (repeat 0 16) 16 (milliseconds 100) ;;
    ret (code, 0, csdBuffer).

Definition executeCmd12 (duration : Z) : Driver Device (Z * Z) :=
  '(code, r1) <- writeCmdReadR1 12 0 0 true ;;
  if negb (code =? 0) then ret (code, r1)
  else
    code <- waitWhileBusy duration ;;
    ret (code, r1).

Definition executeCmd16 (blockLength : Z) : Driver Device (Z * Z) :=
  writeCmdReadR1 16 blockLength 0 false.

Definition executeCmd17 (address : Z) : Driver Device (Z * Z) :=
  writeCmdReadR1 17 address 0 false.

Definition executeCmd18 (address : Z) : Driver Device (Z * Z) :=
  writeCmdReadR1 18 address 0 false.

Definition executeCmd24 (address : Z) : Driver Device (Z * Z) :=
  writeCmdReadR1 24 address 0 false.

Definition executeCmd25 (address : Z) : Driver Device (Z * Z) :=
  writeCmdReadR1 25 address 0 false.

Definition executeCmd32 (address : Z) : Driver Device (Z * Z) :=
  writeCmdReadR1 32 address 0 false.

Definition executeCmd33 (address : Z) : Driver Device (Z * Z) :=
  writeCmdReadR1 33 address 0 false.

Definition executeCmd38 (duration : Z) : Driver Device (Z * Z) :=
  '(code, r1) <- writeCmdReadR1 38 0 0 false ;;
  if negb (code =? 0) then ret (code, r1)
  else
    code <- waitWhileBusy duration ;;
    ret (code, r1).

Definition executeCmd55 : Driver Device (Z * Z) := writeCmdReadR1 55 0 0 false.

Definition executeCmd58 : Driver Device (Z * Z * Z) := writeCmdReadR3 58 0 0 false.

Definition writeAcmd (command argument crc7 : Z) (stuffByte : bool) : Driver Device Z :=
  '(code, r1) <- executeCmd55 ;;
  if negb (code =? 0) then ret code
  else if negb (r1 =? 0) && negb (r1 =? r1InIdleStateMask) then ret EIO
  else writeCmd command argument crc7 stuffByte.

Definition writeAcmdReadR1 (command argument crc7 : Z) (stuffByte : bool)
    : Driver Device (Z * Z) :=
  code <- writeAcmd command argument crc7 stuffByte ;;
  if negb (code =? 0) then ret (code, 0)
  else readR1.

Definition executeAcmd41 (hcs : bool) : Driver Device (Z * Z) :=
  writeAcmdReadR1 41 (Z.shiftl (if hcs then 1 else 0) acmd41HcsPosition) 0 false.

(** *** SpiDevice calls *)

Definition setDevice (d : Device) (w : World Device) : World Device :=
  mkWorld (ticksRead w) (busEvents w) d.

(** [spiDeviceProxy.isOpened()] *)
Definition isOpened : Driver Device bool :=
  fun _ w => Some (deviceIsOpened env (spiDevice_ w), w).

(** [spiDevice_.open()] *)
Definition spiDeviceOpen : Driver Device Z :=
  fun _ w =>
    let '(code, d) := deviceOpen env (spiDevice_ w) in
    Some (code, setDevice d w).

(** [spiDevice_.close()] *)
Definition spiDeviceClose : Driver Device Z :=
  fun _ w =>
    let '(code, d) := deviceClose env (spiDevice_ w) in
    Some (code, setDevice d w).

(** [spiDevice_.lock()] *)
Definition spiDeviceLock : Driver Device Z :=
  fun _ w =>
    match deviceLock env (spiDevice_ w) with
    | Some (code, d) => Some (code, setDevice d w)
    | None => None
    end.


(** ** Public functions of SpiSdMmcCard

    The constructor and destructor of [SpiDeviceProxy] and of
    [SpiMasterProxy] take and release the locks of the device and of the
    bus; they are balanced and stay implicit.  [SpiDeviceSelectGuard]
    brackets the part of a function that follows its declaration. *)

Definition isUnknown (card : SpiSdMmcCard) : bool :=
  CardType_eqb (type_ card) unknown.

Definition deinitialize (card : SpiSdMmcCard) : SpiSdMmcCard :=
  mkCard (clockFrequency_ card) 0 0 0 false unknown.

Definition close (card : SpiSdMmcCard) : Driver Device (Z * SpiSdMmcCard) :=
  code <- spiDeviceClose ;;
  opened <- isOpened ;;
  ret (code, if negb opened then deinitialize card else card).

(** The part of [erase] guarded by [spiDeviceSelectGuard]. *)
Definition erase_selected (card : SpiSdMmcCard) (address size firstBlock blocks : Z)
    : Driver Device Z :=
  let commandAddress := if blockAddressing_ card then firstBlock else address in
  '(code, r1) <- executeCmd32 (uint32 commandAddress) ;;
  if negb (code =? 0) then ret code
  else if negb (r1 =? 0) then ret EIO
  else
    let commandAddress :=
      if blockAddressing_ card then uint64 (firstBlock + blocks - 1)
      else uint64 (address + size - blockSize) in
    '(code, r1) <- executeCmd33 (uint32 commandAddress) ;;
    if negb (code =? 0) then ret code
    else if negb (r1 =? 0) then ret EIO
    else
      '(code, r1) <- executeCmd38 (seconds 1) ;;
      if negb (code =? 0) then ret code
      else if negb (r1 =? 0) then ret EIO
      else ret 0.

Definition erase (card : SpiSdMmcCard) (address size : Z) : Driver Device Z :=
  if isUnknown card then ret EBADF
  else if size =? 0 then ret 0
  else if negb (address mod blockSize =? 0) || negb (size mod blockSize =? 0)
  then ret EINVAL
  else
    let firstBlock := address / blockSize in
    let blocks := size / blockSize in
    if uint64 (firstBlock + blocks) >? blocksCount_ card then ret ENOSPC
    else
      code <- configure SpiMode_0 (clockFrequency_ card) 8 false UINT32_MAX ;;
      if negb (code =? 0) then ret code
      else
        selectDevice ;;;
        code <- erase_selected card address size firstBlock blocks ;;
        deselectDevice ;;;
        ret code.

Definition getEraseBlockSize : Z := blockSize.
Definition getProgramBlockSize : Z := blockSize.
Definition getReadBlockSize : Z := blockSize.

Definition getSize (card : SpiSdMmcCard) : Z :=
  uint64 (blockSize * blocksCount_ card).

Definition lock : Driver Device Z := spiDeviceLock.



Definition trim (address size : Z) : Driver Device Z := ret 0.

(** The bytes of block [block] of a buffer. *)
Definition blockOf (buffer : list Z) (block : Z) : list Z :=
  firstn (Z.to_nat blockSize) (skipn (Z.to_nat (block * blockSize)) buffer).

(** The [for] loop of [program], with [n] blocks left; a non-zero code
    leaves the function. *)
Fixpoint program_blocks (card : SpiSdMmcCard) (buffer : list Z) (blocks : Z)
    (n : nat) (block bytesWritten : Z) : Driver Device (Z * Z) :=
  match n with
  | O => ret (0, bytesWritten)
  | S n' =>
      '(code, written) <- writeDataBlock
          (if blocks =? 1 then startBlockToken else startBlockWriteToken)
          (blockOf buffer block) blockSize (milliseconds (writeTimeoutMs_ card)) ;;
      let bytesWritten := size_t (bytesWritten + written) in
      if negb (code =? 0) then ret (code, bytesWritten)
      else program_blocks card buffer blocks n' (block + 1) bytesWritten
  end.

(** The part of [program] guarded by [spiDeviceSelectGuard]. *)
Definition program_selected (card : SpiSdMmcCard) (address : Z) (buffer : list Z)
    (firstBlock blocks : Z) : Driver Device (Z * Z) :=
  let commandAddress := if blockAddressing_ card then firstBlock else address in
  '(code, r1) <-
      (if blocks =? 1 then executeCmd24 (uint32 commandAddress)
       else executeCmd25 (uint32 commandAddress)) ;;
  if negb (code =? 0) then ret (code, 0)
  else if negb (r1 =? 0) then ret (EIO, 0)
  else
    '(code, bytesWritten) <-
        program_blocks card buffer blocks (Z.to_nat blocks) 0 0 ;;
    if negb (code =? 0) then ret (code, bytesWritten)
    else if negb (blocks =? 1) then
      '(code, _) <- executeTransaction
          [mkTransfer (Some [stopTranToken; 0xff]) false 2] ;;
      if negb (code =? 0) then ret (code, bytesWritten)
      else
        code <- waitWhileBusy (milliseconds (writeTimeoutMs_ card)) ;;
        if negb (code =? 0) then ret (code, bytesWritten)
        else ret (0, bytesWritten)
    else ret (0, bytesWritten).

(** [buffer] is [None] for a null pointer, else the bytes it points to. *)
Definition program (card : SpiSdMmcCard) (address : Z) (buffer : option (list Z))
    (size : Z) : Driver Device (Z * Z) :=
  if isUnknown card then ret (EBADF, 0)
  else if size =? 0 then ret (0, 0)
  else
    match buffer with
    | None => ret (EINVAL, 0)
    | Some data =>
        if negb (address mod blockSize =? 0) || negb (size mod blockSize =? 0)
        then ret (EINVAL, 0)
        else
          let firstBlock := address / blockSize in
          let blocks := size / blockSize in
          if uint64 (firstBlock + blocks) >? blocksCount_ card then ret (ENOSPC, 0)
          else
            code <- configure SpiMode_0 (clockFrequency_ card) 8 false UINT32_MAX ;;
            if negb (code =? 0) then ret (code, 0)
            else
              selectDevice ;;;
              result <- program_selected card address data firstBlock blocks ;;
              deselectDevice ;;;
              ret result
    end.

(** The [for] loop of [read], with [n] blocks left; a non-zero code leaves
    the function. *)
Fixpoint read_blocks (card : SpiSdMmcCard) (n : nat) (block : Z)
    (buffer : list Z) (bytesRead : Z) : Driver Device (Z * Z * list Z) :=
  match n with
  | O => ret (0, bytesRead, buffer)
  | S n' =>
      '(code, count, destination) <- readDataBlock
          (blockOf buffer block) blockSize (milliseconds (readTimeoutMs_ card)) ;;
      let buffer := store buffer (Z.to_nat (block * blockSize)) destination in
      let bytesRead := size_t (bytesRead + count) in
      if negb (code =? 0) then ret (code, bytesRead, buffer)
      else read_blocks card n' (block + 1) buffer bytesRead
  end.

(** The part of [read] guarded by [spiDeviceSelectGuard]. *)
Definition read_selected (card : SpiSdMmcCard) (address : Z) (buffer : list Z)
    (firstBlock blocks : Z) : Driver Device (Z * Z * list Z) :=
  let commandAddress := if blockAddressing_ card then firstBlock else address in
  '(code, r1) <-
      (if blocks =? 1 then executeCmd17 (uint32 commandAddress)
       else executeCmd18 (uint32 commandAddress)) ;;
  if negb (code =? 0) then ret (code, 0, buffer)
  else if negb (r1 =? 0) then ret (EIO, 0, buffer)
  else
    '(code, bytesRead, buffer) <-
        read_blocks card (Z.to_nat blocks) 0 buffer 0 ;;
    if negb (code =? 0) then ret (code, bytesRead, buffer)
    else if negb (blocks =? 1) then
      '(code, r1) <- executeCmd12 (milliseconds (readTimeoutMs_ card)) ;;
      if negb (code =? 0) then ret (code, bytesRead, buffer)
      else if negb (r1 =? 0) then ret (EIO, bytesRead, buffer)
      else ret (0, bytesRead, buffer)
    else ret (0, bytesRead, buffer).

(** [buffer] is [None] for a null pointer, else the bytes it points to; the
    result carries the return code, the number of read bytes and the
    buffer afterwards. *)
Definition read (card : SpiSdMmcCard) (address : Z) (buffer : option (list Z))
    (size : Z) : Driver Device (Z * Z * option (list Z)) :=
  if isUnknown card then ret (EBADF, 0, buffer)
  else if size =? 0 then ret (0, 0, buffer)
  else
    match buffer with
    | None => ret (EINVAL, 0, buffer)
    | Some data =>
        if negb (address mod blockSize =? 0) || negb (size mod blockSize =? 0)
        then ret (EINVAL, 0, buffer)
        else
          let firstBlock := address / blockSize in
          let blocks := size / blockSize in
          if uint64 (firstBlock + blocks) >? blocksCount_ card
          then ret (ENOSPC, 0, buffer)
          else
            code <- configure SpiMode_0 (clockFrequency_ card) 8 false UINT32_MAX ;;
            if negb (code =? 0) then ret (code, 0, buffer)
            else
              selectDevice ;;;
              '(code, bytesRead, data) <-
                  read_selected card address data firstBlock blocks ;;
              deselectDevice ;;;
              ret (code, bytesRead, Some data)
    end.

(** *** initialize, open *)

Definition withType (card : SpiSdMmcCard) (type : CardType) : SpiSdMmcCard :=
  mkCard (clockFrequency_ card) (blocksCount_ card) (readTimeoutMs_ card)
    (writeTimeoutMs_ card) (blockAddressing_ card) type.

Definition withBlockAddressing (card : SpiSdMmcCard) (blockAddressing : bool)
    : SpiSdMmcCard :=
  mkCard (clockFrequency_ card) (blocksCount_ card) (readTimeoutMs_ card)
    (writeTimeoutMs_ card) blockAddressing (type_ card).

Definition withBlocksCount (card : SpiSdMmcCard) (blocksCount : Z) : SpiSdMmcCard :=
  mkCard (clockFrequency_ card) blocksCount (readTimeoutMs_ card)
    (writeTimeoutMs_ card) (blockAddressing_ card) (type_ card).

Definition withTimeouts (card : SpiSdMmcCard) (readTimeoutMs writeTimeoutMs : Z)
    : SpiSdMmcCard :=
  mkCard (clockFrequency_ card) (blocksCount_ card) readTimeoutMs
    writeTimeoutMs (blockAddressing_ card) (type_ card).

(** The first [while (1)] loop of [initialize] (ACMD41): [inl code] when
    the function returns [code], [inr type] when the loop is left by
    [break] with [type_ == type]. *)
Fixpoint initialize_acmd41 (type : CardType) (deadline : Z) (n : nat)
    : Driver Device (Z + CardType) :=
  match n with
  | O => outOfFuel
  | S n' =>
      '(code, r1) <- executeAcmd41 (CardType_eqb type sdVersion2) ;;
      if negb (code =? 0) then ret (inl code)
      else if r1 =? 0
      then ret (inr (if CardType_eqb type unknown then sdVersion1 else type))
      else
        stop <- (if negb (r1 =? r1InIdleStateMask) then ret true
                 else t <- now ;; ret (t >=? deadline)) ;;
        if stop then
          if CardType_eqb type sdVersion2
          then ret (inl (if negb (r1 =? r1InIdleStateMask) then EIO else ETIMEDOUT))
          else ret (inr type)
        else
          sleepFor 0 ;;;
          initialize_acmd41 type deadline n'
  end.

(** The second [while (1)] loop of [initialize] (CMD1): [inl code] when the
    function returns [code], [inr tt] when the loop is left by [break]. *)
Fixpoint initialize_cmd1 (deadline : Z) (n : nat) : Driver Device (Z + unit) :=
  match n with
  | O => outOfFuel
  | S n' =>
      '(code, r1) <- executeCmd1 ;;
      if negb (code =? 0) then ret (inl code)
      else if r1 =? 0 then ret (inr tt)
      else
        stop <- (if negb (r1 =? r1InIdleStateMask) then ret true
                 else t <- now ;; ret (t >=? deadline)) ;;
        if stop
        then ret (inl (if negb (r1 =? r1InIdleStateMask) then EIO else ETIMEDOUT))
        else
          sleepFor 0 ;;;
          initialize_cmd1 deadline n'
  end.

(** [initialize] from the CMD9 block to the end. *)
Definition initialize_csd (card : SpiSdMmcCard) : Driver Device (Z * SpiSdMmcCard) :=
  '(code, r1, csdBuffer) <- executeCmd9 ;;
  if negb (code =? 0) then ret (code, card)
  else if negb (r1 =? 0) then ret (EIO, card)
  else
    let csd := decodeCsd csdBuffer in
    if negb (csdStructure csd =? 1) then ret (EIO, card)
    else
      let card := withBlocksCount card
        (size_t (uint64 ((cSize (csdV2 csd) + 1) * 512 * 1024) / blockSize)) in
      let card := withTimeouts card 100
        (if getSize card <=? 32 * 1024 * 1024 * 1024 then 250 else 500) in
      ret (0, card).

(** [initialize] from the second [configure] on. *)
Definition initialize_configured (card : SpiSdMmcCard)
    : Driver Device (Z * SpiSdMmcCard) :=
  code <- configure SpiMode_0 (clockFrequency_ card) 8 false UINT32_MAX ;;
  if negb (code =? 0) then ret (code, card)
  else
    r <- (if CardType_eqb (type_ card) sdVersion2 then
            '(code, r1, ocr) <- executeCmd58 ;;
            if negb (code =? 0) then ret (inl code)
            else if negb (r1 =? 0) then ret (inl EIO)
            else ret (inr (withBlockAddressing card
                             (negb (Z.land ocr ocrCcsMask =? 0))))
          else ret (inr card)) ;;
    match r with
    | inl code => ret (code, card)
    | inr card =>
        r <- (if negb (blockAddressing_ card) then
                '(code, r1) <- executeCmd16 blockSize ;;
                if negb (code =? 0) then ret (inl code)
                else if negb (r1 =? 0) then ret (inl EIO)
                else ret (inr tt)
              else ret (inr tt)) ;;
        match r with
        | inl code => ret (code, card)
        | inr _ => initialize_csd card
        end
    end.

(** The part of [initialize] guarded by [spiDeviceSelectGuard]. *)
Definition initialize_selected (card : SpiSdMmcCard)
    : Driver Device (Z * SpiSdMmcCard) :=
  '(code, r1) <- executeCmd0 ;;
  if negb (code =? 0) then ret (code, card)
  else if negb (r1 =? r1InIdleStateMask) then ret (EIO, card)
  else
    '(code, r1, matched) <- executeCmd8 ;;
    if negb (code =? 0) then ret (code, card)
    else if (r1 =? r1InIdleStateMask) && negb matched then ret (EIO, card)
    else
      let card := if r1 =? r1InIdleStateMask then withType card sdVersion2 else card in
      start <- now ;;
      r <- withFuel (initialize_acmd41 (type_ card) (start + seconds 1)) ;;
      match r with
      | inl code => ret (code, card)
      | inr type =>
          let card := withType card type in
          r <- (if CardType_eqb (type_ card) unknown then
                  start <- now ;;
                  withFuel (initialize_cmd1 (start + seconds 1))
                else ret (inr tt)) ;;
          match r with
          | inl code => ret (code, card)
          | inr _ =>
              let card :=
                if CardType_eqb (type_ card) unknown then withType card mmc else card in
              initialize_configured card
          end
      end.

Definition initialize (card : SpiSdMmcCard) : Driver Device (Z * SpiSdMmcCard) :=
  code <- configure SpiMode_0 400000 8 false UINT32_MAX ;;
  if negb (code =? 0) then ret (code, card)
  else
    '(code, _) <- executeTransaction
        [mkTransfer None false ((74 + CHAR_BIT - 1) / CHAR_BIT)] ;;
    if negb (code =? 0) then ret (code, card)
    else
      selectDevice ;;;
      result <- initialize_selected card ;;
      (* ~SelectGuard(), then ~SpiDeviceSelectGuard() *)
      executeTransaction [mkTransfer None false 1] ;;;
      deselectDevice ;;;
      ret result.

Definition open (card : SpiSdMmcCard) : Driver Device (Z * SpiSdMmcCard) :=
  opened <- isOpened ;;
  code <- spiDeviceOpen ;;
  if negb (code =? 0) then ret (code, card)
  else if opened then ret (0, card)
  else
    '(code, card) <- initialize card ;;
    if negb (code =? 0) then
      (* closeScopeGuard *)
      '(_, card) <- close card ;;
      ret (code, card)
    else ret (0, card).

End Driver.

(** ** The kernel: threads, mutexes and the scheduler

    [Thread.cpp] and the block device rely on the mutex and on the
    scheduler of the kernel, which are defined in other files.  This part
    models them from the specification (sections 3, 4.1, 4.2 and 7). *)

Local Open Scope nat_scope.

Definition ThreadId : Type := nat.
Definition MutexId : Type := nat.

(** Modelled from the spec: the thread state machine of section 4.1,
    [created -> runnable <-> running -> blocked -> runnable -> ... ->
    terminated]. *)
Inductive ThreadState : Type :=
  Created | Runnable | Running | Blocked | Terminated.

(** Modelled from the spec: the protocol of a mutex (section 3). *)
Inductive Protocol : Type :=
  ProtocolNone | PriorityInheritance | PriorityProtect.

(** Modelled from the spec: the error taxonomy of section 7. *)
Inductive Error : Type :=
  InvalidArgument | InvalidState | Busy | TimedOut | NotOwner | Overflow.

(** Modelled from the spec: how a kernel call ends for its caller: it
    returns success, it returns an error of section 7, or the caller is
    suspended inside the call (a suspension point of section 5). *)
Inductive Outcome : Type :=
| Success
| Failure (e : Error)
| Suspended.

(** Modelled from the spec: the attributes of a thread (section 3) that
    scheduling and locking depend on; [waitingFor] is the mutex whose
    waiter list holds the thread. *)
Record Thread : Type := mkThread {
  basePriority : nat;
  effectivePriority : nat;
  state : ThreadState;
  waitingFor : option MutexId
}.

(** Modelled from the spec: the attributes of a mutex (section 3). *)
Record Mutex : Type := mkMutex {
  protocol : Protocol;
  ceiling : nat;
  owner : option ThreadId;
  recursiveLocksCount : nat;
  waiters : list ThreadId
}.

(** Modelled from the spec: the fixed capacities of the kernel ("capacity
    is fixed/static by design"), the width of the recursive lock counter
    and the length of a round-robin quantum, none of which the
    specification fixes to a number. *)
Record Config : Type := mkConfig {
  threadCount : nat;
  mutexCount : nat;
  counterWidth : nat;
  quantumTicks : nat
}.

(** Modelled from the spec: the scheduler owns the ready queue, the
    running slot, the tick clock and the timed-wait queue (section 3); the
    control blocks of threads and mutexes are arenas indexed by
    identifier (section 9). *)
Record Kernel : Type := mkKernel {
  threads : ThreadId -> Thread;
  mutexes : MutexId -> Mutex;
  readyQueue : list ThreadId;
  running : option ThreadId;
  tickCount : nat;
  timedWaitQueue : list (nat * ThreadId);
  quantum : nat
}.

(** *** The recursive lock counter of a mutex *)

(** Modelled from the spec: "recursive lock count is bounded by a
    fixed-width counter"; the largest value a counter of [width] bits
    holds. *)
Definition maxRecursiveLocks (width : nat) : nat := 2 ^ width - 1.

(** Modelled from the spec: what [lock()] and [unlock()] of section 4.2
    decide from the mutex alone, before the scheduler acts on it. *)
Inductive LockOutcome : Type :=
| LockAcquired (mutex : Mutex)
| LockBlocks
| LockFails (e : Error).

Inductive UnlockOutcome : Type :=
| StillOwned (mutex : Mutex)
| Released (mutex : Mutex)
| HandedOver (mutex : Mutex) (newOwner : ThreadId)
| UnlockFails (e : Error).

Definition withOwnership (mutex : Mutex) (newOwner : option ThreadId)
    (count : nat) (newWaiters : list ThreadId) : Mutex :=
  mkMutex (protocol mutex) (ceiling mutex) newOwner count newWaiters.

(** Modelled from the spec: [lock()] "succeeds immediately if unowned
    (owner := caller, count := 1)", is "recursive if already owned by the
    calling thread (increments count, returns immediately)", where
    "exceeding [the counter] fails with Overflow rather than wrapping", and
    otherwise blocks the caller. *)
Definition Mutex_lock (width : nat) (caller : ThreadId) (mutex : Mutex)
    : LockOutcome :=
  match owner mutex with
  | None => LockAcquired (withOwnership mutex (Some caller) 1 (waiters mutex))
  | Some current =>
      if Nat.eqb current caller then
        if recursiveLocksCount mutex <? maxRecursiveLocks width
        then LockAcquired (withOwnership mutex (Some caller)
                             (S (recursiveLocksCount mutex)) (waiters mutex))
        else LockFails Overflow
      else LockBlocks
  end.

(** Modelled from the spec: [unlock()] "decrements recursive count; at
    zero, if the waiter list is non-empty, transfers ownership to the head
    of the list"; it "fails with NotOwner if called by a non-owning
    thread". *)
Definition Mutex_unlock (caller : ThreadId) (mutex : Mutex) : UnlockOutcome :=
  match owner mutex with
  | None => UnlockFails NotOwner
  | Some current =>
      if Nat.eqb current caller then
        if 1 <? recursiveLocksCount mutex
        then StillOwned (withOwnership mutex (Some caller)
                           (pred (recursiveLocksCount mutex)) (waiters mutex))
        else
          match waiters mutex with
          | [] => Released (withOwnership mutex None 0 [])
          | head :: rest =>
              HandedOver (withOwnership mutex (Some head) 1
                            (remove Nat.eq_dec head rest)) head
          end
      else UnlockFails NotOwner
  end.

(** The mutex after a call of [lock()] or [unlock()] by [caller]. *)
Definition afterLock (width : nat) (caller : ThreadId) (mutex : Mutex) : Mutex :=
  match Mutex_lock width caller mutex with
  | LockAcquired mutex' => mutex'
  | LockBlocks | LockFails _ => mutex
  end.

Definition afterUnlock (caller : ThreadId) (mutex : Mutex) : Mutex :=
  match Mutex_unlock caller mutex with
  | StillOwned mutex' | Released mutex' | HandedOver mutex' _ => mutex'
  | UnlockFails _ => mutex
  end.

(** *** Updates of the control blocks *)

Definition update {A : Type} (f : nat -> A) (i : nat) (a : A) : nat -> A :=
  fun j => if Nat.eqb j i then a else f j.

Definition withThreads (k : Kernel) (newThreads : ThreadId -> Thread) : Kernel :=
  mkKernel newThreads (mutexes k) (readyQueue k) (running k) (tickCount k)
    (timedWaitQueue k) (quantum k).

Definition withScheduling (k : Kernel) (queue : list ThreadId)
    (current : option ThreadId) (newQuantum : nat) : Kernel :=
  mkKernel (threads k) (mutexes k) queue current (tickCount k)
    (timedWaitQueue k) newQuantum.

Definition setState (t : ThreadId) (s : ThreadState) (k : Kernel) : Kernel :=
  let thread := threads k t in
  withThreads k (update (threads k) t
    (mkThread (basePriority thread) (effectivePriority thread) s (waitingFor thread))).

Definition setEffective (t : ThreadId) (priority : nat) (k : Kernel) : Kernel :=
  let thread := threads k t in
  withThreads k (update (threads k) t
    (mkThread (basePriority thread) priority (state thread) (waitingFor thread))).

Definition setWaitingFor (t : ThreadId) (m : option MutexId) (k : Kernel) : Kernel :=
  let thread := threads k t in
  withThreads k (update (threads k) t
    (mkThread (basePriority thread) (effectivePriority thread) (state thread) m)).

Definition setMutex (m : MutexId) (mutex : Mutex) (k : Kernel) : Kernel :=
  mkKernel (threads k) (update (mutexes k) m mutex) (readyQueue k) (running k)
    (tickCount k) (timedWaitQueue k) (quantum k).

Definition stateOf (k : Kernel) (t : ThreadId) : ThreadState := state (threads k t).
Definition effective (k : Kernel) (t : ThreadId) : nat := effectivePriority (threads k t).
Definition base (k : Kernel) (t : ThreadId) : nat := basePriority (threads k t).

(** *** The scheduler *)

Section Scheduler.

Variable cfg : Config.

(** Modelled from the spec: "selection picks the head of the highest
    non-empty level"; with the ready threads kept in one queue in arrival
    order, that is the first thread of the highest effective priority. *)
Fixpoint highest (k : Kernel) (queue : list ThreadId) : option ThreadId :=
  match queue with
  | [] => None
  | t :: rest =>
      match highest k rest with
      | None => Some t
      | Some u => if effective k u <=? effective k t then Some t else Some u
      end
  end.

(** Modelled from the spec: the context switch to the selected thread;
    the thread [h] of the ready queue gets the processor, with a fresh
    quantum. *)
Definition dispatch (h : ThreadId) (k : Kernel) : Kernel :=
  setState h Running
    (withScheduling k (remove Nat.eq_dec h (readyQueue k)) (Some h) (quantumTicks cfg)).

(** Modelled from the spec: preemption; the running thread [r] loses the
    processor to a thread that outranks it and stays at the head of the
    ready queue. *)
Definition preempt (r : ThreadId) (k : Kernel) : Kernel :=
  setState r Runnable (withScheduling k (r :: readyQueue k) None (quantum k)).

(** Modelled from the spec: "Scheduler picks the highest-priority ready
    thread and triggers [a] context switch"; a running thread is preempted
    only by a thread that strictly outranks it (section 5). *)
Definition reschedule (k : Kernel) : Kernel :=
  match highest k (readyQueue k) with
  | None => k
  | Some h =>
      match running k with
      | None => dispatch h k
      | Some r =>
          if effective k r <? effective k h then dispatch h (preempt r k) else k
      end
  end.

(** Modelled from the spec: a thread is inserted "at the tail of its
    priority level"; the thread [t] becomes runnable at the tail of the
    ready queue. *)
Definition makeReady (t : ThreadId) (k : Kernel) : Kernel :=
  setState t Runnable
    (withScheduling k (readyQueue k ++ [t]) (running k) (quantum k)).

(** The running slot is emptied. *)
Definition release (k : Kernel) : Kernel :=
  withScheduling k (readyQueue k) None (quantum k).

(** Modelled from the spec: [block] and the termination path; the running
    thread leaves the processor in state [s]. *)
Definition vacate (s : ThreadState) (k : Kernel) : Kernel :=
  match running k with
  | Some r => setState r s (release k)
  | None => k
  end.

(** Modelled from the spec: [add(thread)] "inserts a runnable thread at
    the tail of its priority level; fails with InvalidState if the thread
    is not in created"; a thread outside the fixed capacity is an invalid
    argument. *)
Definition Scheduler_add (t : ThreadId) (k : Kernel) : Kernel * Outcome :=
  if negb (t <? threadCount cfg) then (k, Failure InvalidArgument)
  else
    match stateOf k t with
    | Created => (reschedule (makeReady t k), Success)
    | _ => (k, Failure InvalidState)
    end.

(** Modelled from the spec: [yield()] "rotates the running thread to the
    tail of its level if another ready thread exists at the same or higher
    level; triggers a context switch if the head of the highest level
    differs from the running thread". *)
Definition Scheduler_yield (k : Kernel) : Kernel :=
  match running k with
  | Some r => reschedule (makeReady r (release k))
  | None => k
  end.

(** Modelled from the spec: [unblockAndReady(thread)], the "reverse of
    block". *)
Definition Scheduler_unblockAndReady (t : ThreadId) (k : Kernel) : Kernel :=
  reschedule (makeReady t k).

(** Modelled from the spec: [TimedWaitQueue], "entries keyed by absolute
    deadline, ordered ascending", "stable for equal deadlines, FIFO by
    insertion". *)
Fixpoint insertTimed (deadline : nat) (t : ThreadId) (queue : list (nat * ThreadId))
    : list (nat * ThreadId) :=
  match queue with
  | [] => [(deadline, t)]
  | (d, u) :: rest =>
      if deadline <? d then (deadline, t) :: queue
      else (d, u) :: insertTimed deadline t rest
  end.

Definition withTimed (k : Kernel) (now : nat) (queue : list (nat * ThreadId)) : Kernel :=
  mkKernel (threads k) (mutexes k) (readyQueue k) (running k) now queue (quantum k).

(** Modelled from the spec: a sleep operation is a suspension point; the
    running thread is blocked on the timed-wait queue ([block(thread,
    queue)]) until its deadline. *)
Definition Scheduler_sleep (duration : nat) (k : Kernel) : Kernel :=
  match running k with
  | Some r =>
      let k1 := vacate Blocked k in
      reschedule (withTimed k1 (tickCount k1)
                    (insertTimed (tickCount k + duration) r (timedWaitQueue k1)))
  | None => k
  end.

(** Modelled from the spec: [tick()] "advances TickClock by one unit, pops
    all expired entries from TimedWaitQueue and calls unblockAndReady for
    each, and decrements the running thread's round-robin quantum, rotating
    if it reaches zero". *)
Definition Scheduler_tick (k : Kernel) : Kernel :=
  let now := S (tickCount k) in
  let expired := map snd (filter (fun e => fst e <=? now) (timedWaitQueue k)) in
  let remaining := filter (fun e => now <? fst e) (timedWaitQueue k) in
  let k1 := withTimed k now remaining in
  let k2 := fold_left (fun k' t => makeReady t k') expired k1 in
  let k3 :=
    match running k2 with
    | Some r =>
        if quantum k2 <=? 1 then makeReady r (release k2)
        else withScheduling k2 (readyQueue k2) (running k2) (pred (quantum k2))
    | None => k2
    end in
  reschedule k3.

(** Modelled from the spec: the termination path; [Scheduler::remove()]
    takes the running thread out of scheduling for good and switches to the
    next ready thread. *)
Definition Scheduler_remove (k : Kernel) : Kernel :=
  match running k with
  | Some r => reschedule (vacate Terminated k)
  | None => k
  end.

(** *** Mutexes with their protocols *)

Fixpoint maxEffective (k : Kernel) (queue : list ThreadId) : nat :=
  match queue with
  | [] => 0
  | t :: rest => Nat.max (effective k t) (maxEffective k rest)
  end.

(** Modelled from the spec: "the priorities required by any mutexes it
    still holds"; a held mutex requires of its owner the priorities of its
    waiters under priority inheritance, its ceiling under priority
    protect. *)
Definition required (k : Kernel) (mutex : Mutex) : nat :=
  match protocol mutex with
  | ProtocolNone => 0
  | PriorityInheritance => maxEffective k (waiters mutex)
  | PriorityProtect => ceiling mutex
  end.

Definition owns (k : Kernel) (t : ThreadId) (m : MutexId) : bool :=
  match owner (mutexes k m) with
  | Some o => Nat.eqb o t
  | None => false
  end.

Definition heldRequirement (k : Kernel) (t : ThreadId) : nat :=
  fold_right
    (fun m acc => if owns k t m then Nat.max (required k (mutexes k m)) acc else acc)
    0 (seq 0 (mutexCount cfg)).

(** Modelled from the spec: "the former owner's effective priority is
    recomputed as the maximum of its base priority and the priorities
    required by any mutexes it still holds". *)
Definition recompute (t : ThreadId) (k : Kernel) : Kernel :=
  setEffective t (Nat.max (base k t) (heldRequirement k t)) k.

(** Modelled from the spec: "the waiting thread's priority is compared
    against the owner's effective priority; if higher, the owner's
    effective priority is raised to match, and this boost propagates
    transitively if the owner is itself blocked on another mutex"; "an
    explicit bounded-depth walk over owner of mutex I'm waiting on"
    (section 9), bounded here by [fuel]. *)
Fixpoint inherit (fuel : nat) (m : MutexId) (priority : nat) (k : Kernel) : Kernel :=
  match fuel with
  | O => k
  | S fuel' =>
      match protocol (mutexes k m), owner (mutexes k m) with
      | PriorityInheritance, Some o =>
          if effective k o <? priority then
            let k' := setEffective o priority k in
            match waitingFor (threads k o) with
            | Some m' => inherit fuel' m' priority k'
            | None => k'
            end
          else k
      | _, _ => k
      end
  end.

(** Modelled from the spec: the waiter list is "ordered (by thread
    priority, FIFO within equal priority)". *)
Fixpoint insertWaiter (k : Kernel) (t : ThreadId) (queue : list ThreadId)
    : list ThreadId :=
  match queue with
  | [] => [t]
  | u :: rest =>
      if effective k u <? effective k t then t :: queue
      else u :: insertWaiter k t rest
  end.

Definition isProtect (mutex : Mutex) : bool :=
  match protocol mutex with
  | PriorityProtect => true
  | _ => false
  end.

(** Modelled from the spec: [lock()] of section 4.2 called by the running
    thread, with the scheduler ([block]) and the protocols: under priority
    protect "the owner's effective priority is immediately raised to the
    mutex's configured ceiling" and "a configuration error (ceiling lower
    than the acquiring thread's base priority) fails with InvalidArgument
    at lock time". *)
Definition Kernel_lock (m : MutexId) (k : Kernel) : Kernel * Outcome :=
  match running k with
  | None => (k, Failure InvalidState)
  | Some c =>
      let mutex := mutexes k m in
      if negb (m <? mutexCount cfg) then (k, Failure InvalidArgument)
      else if isProtect mutex && (ceiling mutex <? base k c)
      then (k, Failure InvalidArgument)
      else
        match Mutex_lock (counterWidth cfg) c mutex with
        | LockAcquired mutex' =>
            let k1 := setMutex m mutex' k in
            (if isProtect mutex
             then setEffective c (Nat.max (effective k c) (ceiling mutex)) k1
             else k1,
             Success)
        | LockFails e => (k, Failure e)
        | LockBlocks =>
            let k1 := vacate Blocked k in
            let k2 := setWaitingFor c (Some m)
                        (setMutex m
                           (withOwnership mutex (owner mutex) (recursiveLocksCount mutex)
                              (insertWaiter k c (waiters mutex)))
                           k1) in
            let k3 := inherit (threadCount cfg) m (effective k c) k2 in
            (reschedule k3, Suspended)
        end
  end.

(** Modelled from the spec: [unlock()] of section 4.2 called by the
    running thread; a new owner takes the mutex under its protocol, the
    former owner's priority is recomputed, the new owner is unblocked. *)
Definition Kernel_unlock (m : MutexId) (k : Kernel) : Kernel * Outcome :=
  match running k with
  | None => (k, Failure InvalidState)
  | Some c =>
      match Mutex_unlock c (mutexes k m) with
      | UnlockFails e => (k, Failure e)
      | StillOwned mutex' => (setMutex m mutex' k, Success)
      | Released mutex' => (reschedule (recompute c (setMutex m mutex' k)), Success)
      | HandedOver mutex' h =>
          let k1 := setWaitingFor h None (setMutex m mutex' k) in
          let k2 := setEffective h (Nat.max (effective k1 h) (required k1 mutex')) k1 in
          let k3 := recompute c k2 in
          (Scheduler_unblockAndReady h k3, Success)
      end
  end.

(** *** Runs of the kernel *)

(** Modelled from the spec: what the threads ask of the kernel; each
    operation is issued by the thread that is running, [OpTick] by the tick
    interrupt.  [OpExit] is the termination path of
    [Thread::threadRunner]. *)
Inductive Op : Type :=
| OpAdd (t : ThreadId)
| OpYield
| OpSleep (duration : nat)
| OpTick
| OpLock (m : MutexId)
| OpUnlock (m : MutexId)
| OpExit.

Definition step (op : Op) (k : Kernel) : Kernel :=
  match op with
  | OpAdd t => fst (Scheduler_add t k)
  | OpYield => Scheduler_yield k
  | OpSleep duration => Scheduler_sleep duration k
  | OpTick => Scheduler_tick k
  | OpLock m => fst (Kernel_lock m k)
  | OpUnlock m => fst (Kernel_unlock m k)
  | OpExit => Scheduler_remove k
  end.

Definition steps (ops : list Op) (k : Kernel) : Kernel :=
  fold_left (fun k' op => step op k') ops k.

(** [Thread::threadRunner(thread)]: [thread.run()], seen by the kernel as
    the operations [body] that are issued until it returns, then
    [getScheduler().remove(&Thread::terminationHook)].  The final
    [while (1);] touches nothing and is reached only if the thread runs
    again. *)
Definition threadRunner (body : list Op) (k : Kernel) : Kernel :=
  Scheduler_remove (steps body k).

End Scheduler.

(** Modelled from the spec: the kernel before the first thread is started:
    every thread is created with its priority, every mutex is constructed
    unlocked with its protocol and ceiling. *)
Definition boot (priorities : ThreadId -> nat) (protocols : MutexId -> Protocol * nat)
    : Kernel :=
  mkKernel
    (fun t => mkThread (priorities t) (priorities t) Created None)
    (fun m => mkMutex (fst (protocols m)) (snd (protocols m)) None 0 [])
    [] None 0 [] 0.

(** *** The device lock of the block device *)

(** Modelled from the spec: the error codes [BlockDevice.hpp] documents
    for [lock()] ([EAGAIN], "the maximum number of recursive locks for
    device has been exceeded") and [unlock()] ([EPERM], "current thread did
    not lock the device"). *)
Definition errnoOf (e : Error) : Z :=
  match e with
  | InvalidArgument => EINVAL
  | InvalidState => EBADF
  | Busy => 16%Z
  | TimedOut => ETIMEDOUT
  | NotOwner => EPERM
  | Overflow => EAGAIN
  end.

(** An SPI device guarded by a recursive mutex, used by the thread
    [deviceCaller]. *)
Record LockedDevice : Type := mkLockedDevice {
  deviceMutex : Mutex;
  deviceCaller : ThreadId;
  deviceOpenCount : nat
}.

(** Modelled from the spec: [SpiDevice::lock()] and [SpiDevice::unlock()]
    lock and unlock the recursive mutex of the device. *)
Definition SpiDevice_lock (width : nat) (device : LockedDevice)
    : option (Z * LockedDevice) :=
  match Mutex_lock width (deviceCaller device) (deviceMutex device) with
  | LockAcquired mutex' =>
      Some (0%Z, mkLockedDevice mutex' (deviceCaller device) (deviceOpenCount device))
  | LockBlocks => None
  | LockFails e => Some (errnoOf e, device)
  end.

Definition SpiDevice_unlock (device : LockedDevice) : Z * LockedDevice :=
  match Mutex_unlock (deviceCaller device) (deviceMutex device) with
  | StillOwned mutex' | Released mutex' | HandedOver mutex' _ =>
      (0%Z, mkLockedDevice mutex' (deviceCaller device) (deviceOpenCount device))
  | UnlockFails e => (errnoOf e, device)
  end.

Local Close Scope nat_scope.

(** ** Invariants of the kernel *)

Local Open Scope nat_scope.










Local Close Scope nat_scope.


(** ** Test environments

    Concrete collaborators on which the model runs. *)

(** A device that only counts how often it is open. *)
Definition countingOpen (openCount : nat) : Z * nat := (0, S openCount).

Definition countingClose (openCount : nat) : Z * nat :=
  match openCount with
  | O => (EBADF, O)
  | S n => (0, n)
  end.

Definition isTransaction (e : BusEvent) : bool :=
  match e with
  | EvTransaction _ _ _ => true
  | _ => false
  end.

(** Every transfer of a transaction completes and reads [filler] bytes. *)
Definition completeWith (filler : Z) (operations : list SpiMasterTransfer)
    : list TransferResult :=
  map (fun operation =>
         mkTransferResult (transferSize operation)
           (if readBuffer operation
            then repeat filler (Z.to_nat (transferSize operation))
            else []))
      operations.

(** A bus whose k-th transaction (counted from 0) answers with the k-th
    entry of [script]; past the script every transaction succeeds and reads
    [filler].  The clock advances by one tick per reading. *)
Definition scriptedBus (script : list (Z * list TransferResult)) (filler : Z)
    : Env nat :=
  {| tickAt := fun k => Z.of_nat k;
     ticksPerMs := 1;
     configureAnswer := fun _ => 0;
     transactionAnswer := fun history operations =>
       nth (length (filter isTransaction history)) script
           (0, completeWith filler operations);
     deviceIsOpened := fun openCount => negb (Nat.eqb openCount 0);
     deviceOpen := countingOpen;
     deviceClose := countingClose;
     deviceLock := fun openCount => Some (0, openCount);
     deviceUnlock := fun openCount => (0, openCount) |}.

(** A card that stays busy: every byte read is 0x00. *)
Definition busyBus : Env nat := scriptedBus [] 0x00.


Definition world0 : World nat := mkWorld 0 [] 1%nat.

(** An opened SDHC card of 1024 blocks and a card that is not opened. *)
Definition openedCard : SpiSdMmcCard := mkCard 25000000 1024 100 250 true sdVersion2.
Definition closedCard : SpiSdMmcCard := mkCard 25000000 0 0 0 false unknown.

(** One read transfer that delivered [bytes]. *)
Definition reads (bytes : list Z) : Z * list TransferResult :=
  (0, [mkTransferResult (Z.of_nat (length bytes)) bytes]).

(** One write-only transfer of [size] bytes that completed. *)
Definition wrote (size : Z) : Z * list TransferResult :=
  (0, [mkTransferResult size []]).

(** The answers of an SDHC card to the initialization sequence: 80 idle
    clocks, CMD0, CMD8, CMD55 + ACMD41, CMD58, CMD9 and the CSD block. *)
Definition sdhcCsd : list Z :=
  [0x40; 0x0e; 0x00; 0x32; 0x5b; 0x59; 0x00; 0x00;
   0x1d; 0x8a; 0x7f; 0x80; 0x0a; 0x40; 0x00; 0x8d].

Definition sdhcInitialization : list (Z * list TransferResult) :=
  [wrote 10;
   wrote 6; reads [0x01];
   wrote 6; reads [0x01; 0x00; 0x00; 0x01; 0xaa];
   wrote 6; reads [0x01]; wrote 6; reads [0x00];
   wrote 6; reads [0x00; 0xc0; 0xff; 0x80; 0x00];
   wrote 6; reads [0x00]; reads [0xfe];
   (0, [mkTransferResult 16 sdhcCsd; mkTransferResult 2 []])].

Definition sdhcBus : Env nat := scriptedBus sdhcInitialization 0xff.

(** A bus that always answers, with a device guarded by the recursive
    mutex of the kernel. *)
Definition lockedBus (width : nat) : Env LockedDevice :=
  {| tickAt := fun k => Z.of_nat k;
     ticksPerMs := 1;
     configureAnswer := fun _ => 0;
     transactionAnswer := fun _ operations => (0, completeWith 0xff operations);
     deviceIsOpened := fun device => negb (Nat.eqb (deviceOpenCount device) 0);
     deviceOpen := fun device =>
       (0, mkLockedDevice (deviceMutex device) (deviceCaller device)
             (S (deviceOpenCount device)));
     deviceClose := fun device =>
       (0, mkLockedDevice (deviceMutex device) (deviceCaller device)
             (pred (deviceOpenCount device)));
     deviceLock := SpiDevice_lock width;
     deviceUnlock := SpiDevice_unlock |}.

(** A recursive mutex without protocol, unlocked, and the same mutex locked
    [count] times by thread [t]. *)
Definition freeMutex : Mutex := mkMutex ProtocolNone 0 None 0 [].

Definition heldMutex (t : ThreadId) (count : nat) : Mutex :=
  mkMutex ProtocolNone 0 (Some t) count [].

(** The scenario of the specification: thread 0 (A, priority 5), thread 1
    (B, priority 10), thread 2 (priority 3) and the mutexes 0 and 1 with
    the priority-inheritance protocol. *)
Definition benchConfig : Config := mkConfig 4 2 16 3.

Definition benchPriorities (t : ThreadId) : nat :=
  match t with
  | O => 5
  | S O => 10
  | S (S O) => 3
  | _ => 1
  end%nat.

Definition benchProtocols (m : MutexId) : Protocol * nat :=
  (PriorityInheritance, O).

Definition benchBoot : Kernel := boot benchPriorities benchProtocols.

(** A starts and locks mutex 0; B starts, preempts A and blocks on mutex
    0. *)
Definition contention : list Op := [OpAdd 0; OpLock 0; OpAdd 1; OpLock 0]%nat.

(** ** Vocabulary of the properties of the driver *)







(** The clock never runs backwards and passes every time. *)
Definition clockAdvances {Device : Type} (env : Env Device) : Prop :=
  (forall i j, (i <= j)%nat -> tickAt env i <= tickAt env j)
  /\ (forall t, exists n, t <= tickAt env n).

(** The error codes the driver produces itself. *)
Definition driverCodes : list Z := [EBADF; EINVAL; ENOSPC; EIO; ETIMEDOUT].

(** The return code of a call of the SPI master. *)
Definition returnCode (e : BusEvent) : option Z :=
  match e with
  | EvConfigure _ _ _ _ _ code => Some code
  | EvTransaction _ code _ => Some code
  | EvSelect | EvDeselect => None
  end.

(** The return codes of the calls of the SPI master among [events], newest
    first. *)
Fixpoint returnCodes (events : list BusEvent) : list Z :=
  match events with
  | [] => []
  | e :: rest =>
      match returnCode e with
      | Some code => code :: returnCodes rest
      | None => returnCodes rest
      end
  end.

(** Every call of the SPI master among [events] succeeded. *)
Definition allSucceeded (events : list BusEvent) : Prop :=
  Forall (fun code => code = 0) (returnCodes events).

(** The newest call of the SPI master among [events] failed with [code];
    every call before it succeeded. *)
Definition failedLast (code : Z) (events : list BusEvent) : Prop :=
  code <> 0
  /\ exists earlier,
       returnCodes events = code :: earlier
       /\ Forall (fun code => code = 0) earlier.

(** An operation that took the world from [w] to [w'] reports [code]
    faithfully: either every call it made on the bus succeeded and [code]
    is 0 or one of the driver's own error codes, or [code] is the error
    code of the last call it made, the only one that failed. *)
Definition reported {Device : Type} (code : Z) (w w' : World Device) : Prop :=
  (ticksRead w <= ticksRead w')%nat
  /\ exists new,
       busEvents w' = new ++ busEvents w
       /\ ((allSucceeded new /\ (code = 0 \/ In code driverCodes))
           \/ failedLast code new).

(** The weaker form kept by a function that makes an unchecked call on its
    way out: [code] is 0, one of the driver's own error codes, or the error
    code of a call made on the bus. *)
Definition classified {Device : Type} (code : Z) (w w' : World Device) : Prop :=
  (ticksRead w <= ticksRead w')%nat
  /\ exists new,
       busEvents w' = new ++ busEvents w
       /\ (code = 0 \/ In code driverCodes
           \/ (code <> 0 /\ In code (returnCodes new))).

(** The computation [m], started in [w], returns when given enough fuel,
    and its result and final world satisfy [post]. *)
Definition returns {Device A : Type} (m : Driver Device A) (w : World Device)
    (post : A -> World Device -> Prop) : Prop :=
  exists fuel0 a w',
    (forall fuel, (fuel0 <= fuel)%nat -> run m fuel w = Some (a, w'))
    /\ post a w'.

(** The same for a loop [loop n] that takes its iteration bound [n] beside
    the fuel. *)
Definition loopReturns {Device A : Type} (loop : nat -> Driver Device A)
    (w : World Device) (post : A -> World Device -> Prop) : Prop :=
  exists n0 fuel0 a w',
    (forall n fuel, (n0 <= n)%nat -> (fuel0 <= fuel)%nat ->
       run (loop n) fuel w = Some (a, w'))
    /\ post a w'.

(** The return code carried by the result of a loop of [initialize]:
    [inl code] leaves the function with [code], [inr _] goes on. *)
Definition leftCode {A : Type} (r : Z + A) : Z :=
  match r with
  | inl code => code
  | inr _ => 0
  end.

(** ** Further vocabulary and test environments *)

(** A bus whose configuration is refused with [code]. *)
Definition refusingBus (code : Z) : Env nat :=
  {| tickAt := fun k => Z.of_nat k;
     ticksPerMs := 1;
     configureAnswer := fun _ => code;
     transactionAnswer := fun _ operations => (0, completeWith 0xff operations);
     deviceIsOpened := fun openCount => negb (Nat.eqb openCount 0);
     deviceOpen := countingOpen;
     deviceClose := countingClose;
     deviceLock := fun openCount => Some (0, openCount);
     deviceUnlock := fun openCount => (0, openCount) |}.

(** Whatever way the computation [m] returns, the world it leaves is
    related by [P] to the world it started in. *)
Definition keeps {Device A : Type} (P : World Device -> World Device -> Prop)
    (m : Driver Device A) : Prop :=
  forall fuel w a w', run m fuel w = Some (a, w') -> P w w'.

(** A call of the SPI master, as opposed to a selection or deselection. *)
Definition isCall (e : BusEvent) : bool :=
  match e with
  | EvConfigure _ _ _ _ _ _ | EvTransaction _ _ _ => true
  | EvSelect | EvDeselect => false
  end.

(** From [w] to [w'] the SPI device (its open count and its lock) is as it
    was. *)
Definition sameDevice {Device : Type} (w w' : World Device) : Prop :=
  spiDevice_ w' = spiDevice_ w.

(** From [w] to [w'] the events added to the log were all [allowed]. *)
Definition added {Device : Type} (allowed : BusEvent -> bool)
    (w w' : World Device) : Prop :=
  exists events,
    busEvents w' = events ++ busEvents w
    /\ Forall (fun e => allowed e = true) events.

(** The course of read, program and erase on the bus: nothing at all (a
    refused request), or a refused configuration to the clock frequency of
    the card, or the configuration, the selection of the device,
    transactions only, and the deselection. *)
Definition guardedCourse {Device : Type} (frequency code : Z)
    (w w' : World Device) : Prop :=
  let configured code := EvConfigure SpiMode_0 frequency 8 false UINT32_MAX code in
  busEvents w' = busEvents w
  \/ (code <> 0 /\ busEvents w' = configured code :: busEvents w)
  \/ (exists transactions,
        busEvents w'
        = EvDeselect :: transactions ++ EvSelect :: configured 0 :: busEvents w
        /\ Forall (fun e => isTransaction e = true) transactions).

(** The transaction by which the driver reads one byte, the world after
    such a transaction, after [n] of them in a row, and the answer the
    bus gives to the next one. *)
Definition poll : list SpiMasterTransfer := [mkTransfer None true 1].

Definition polled {Device : Type} (env : Env Device) (w : World Device)
    : World Device :=
  logEvent
    (EvTransaction poll (fst (transactionAnswer env (busEvents w) poll))
       (snd (transactionAnswer env (busEvents w) poll)))
    w.

Fixpoint afterPolls {Device : Type} (env : Env Device) (n : nat)
    (w : World Device) : World Device :=
  match n with
  | O => w
  | S n' => afterPolls env n' (polled env w)
  end.

Definition answerAt {Device : Type} (env : Env Device) (n : nat)
    (w : World Device) : Z * list TransferResult :=
  transactionAnswer env (busEvents (afterPolls env n w)) poll.

(** The answer [answer] of the bus is a success that delivers the one byte
    [byte]. *)
Definition delivers (answer : Z * list TransferResult) (byte : Z) : Prop :=
  fst answer = 0 /\ delivered (snd answer) 0 1 = [byte].

(** Whatever way the computation [m] returns, its result satisfies [Q]. *)
Definition ensures {Device A : Type} (m : Driver Device A) (Q : A -> Prop) : Prop :=
  forall fuel w a w', run m fuel w = Some (a, w') -> Q a.

(** Every transaction that succeeds has transferred all the bytes of each
    of its transfers. *)
Definition transfersComplete {Device : Type} (env : Env Device) : Prop :=
  forall history operations,
    fst (transactionAnswer env history operations) = 0 ->
    map bytesTransfered (snd (transactionAnswer env history operations))
    = map transferSize operations.

(** A bus on which every transaction succeeds and completes; the read
    transfers of the k-th transaction (counted from 0) are filled with the
    k-th byte of [fills], past it with [filler]. *)
Definition fillBus (fills : list Z) (filler : Z) : Env nat :=
  {| tickAt := fun k => Z.of_nat k;
     ticksPerMs := 1;
     configureAnswer := fun _ => 0;
     transactionAnswer := fun history operations =>
       (0, completeWith (nth (length (filter isTransaction history)) fills filler)
             operations);
     deviceIsOpened := fun openCount => negb (Nat.eqb openCount 0);
     deviceOpen := countingOpen;
     deviceClose := countingClose;
     deviceLock := fun openCount => Some (0, openCount);
     deviceUnlock := fun openCount => (0, openCount) |}.


(* ===================================================================== *)
(** * Part II: properties *)
(* ===================================================================== *)

(** ** extractBits *)

Example extractBits_csd_structure :
  extractBits [0x40; 0x0e; 0x00; 0x32; 0x5b; 0x59; 0x00; 0x00;
               0x1d; 0x8a; 0x7f; 0x80; 0x0a; 0x40; 0x00; 0x8d] 126 2 = Some 1.
Proof. reflexivity. Qed.

Example extractBits_c_size :
  extractBits [0x40; 0x0e; 0x00; 0x32; 0x5b; 0x59; 0x00; 0x00;
               0x1d; 0x8a; 0x7f; 0x80; 0x0a; 0x40; 0x00; 0x8d] 48 22 = Some 0x1d8a.
Proof. reflexivity. Qed.

Example extractBits_unaligned_word :
  extractBits [0x01; 0xff; 0x00; 0xff; 0x00] 1 32 = Some 0xff807f80.
Proof. reflexivity. Qed.

(** Case analysis on every integer comparison of the goal. *)
Ltac zcompare :=
  repeat match goal with
    | |- context [?a <=? ?b] => destruct (Z.leb_spec a b)
    | |- context [?a <? ?b] => destruct (Z.ltb_spec a b)
    | |- context [?a =? ?b] => destruct (Z.eqb_spec a b)
    end;
  cbn [andb orb negb]; try reflexivity; try lia.

Section ExtractBits.

Lemma uint8_testbit_high (b m : Z) :
  is_uint8 b -> 8 <= m -> Z.testbit b m = false.
Proof.
  intros [Hlo Hhi] Hm.
  destruct (Z.eq_dec b 0) as [->|Hnz]; [apply Z.bits_0|].
  apply Z.bits_above_log2; [lia|].
  apply Z.lt_le_trans with 8; [|exact Hm].
  apply Z.log2_lt_pow2; lia.
Qed.

Lemma littleEndianValue_cons_testbit (b x j : Z) :
  is_uint8 b -> 0 <= j ->
  Z.testbit (b + 2 ^ 8 * x) j =
  if j <? 8 then Z.testbit b j else Z.testbit x (j - 8).
Proof.
  intros Hb Hj. destruct (Z.ltb_spec j 8) as [Hlt|Hge].
  - rewrite <- (Z.mod_pow2_bits_low (b + 2 ^ 8 * x) 8 j) by lia.
    replace (b + 2 ^ 8 * x) with (b + x * 2 ^ 8) by lia.
    rewrite Z.mod_add by lia.
    rewrite Z.mod_small by exact Hb. reflexivity.
  - replace j with ((j - 8) + 8) at 1 by lia.
    rewrite <- Z.div_pow2_bits by lia.
    replace (b + 2 ^ 8 * x) with (b + x * 2 ^ 8) by lia.
    rewrite Z.div_add by lia.
    rewrite (Z.div_small b) by exact Hb. reflexivity.
Qed.

Lemma littleEndianValue_testbit (bytes : list Z) :
  Forall is_uint8 bytes ->
  forall j, 0 <= j ->
  Z.testbit (littleEndianValue bytes) j =
  Z.testbit (nth (Z.to_nat (j / 8)) bytes 0) (j mod 8).
Proof.
  induction 1 as [|b rest Hb Hrest IH]; intros j Hj.
  - simpl. rewrite Z.bits_0. destruct (Z.to_nat (j / 8)); symmetry; apply Z.bits_0.
  - cbn [littleEndianValue]. rewrite littleEndianValue_cons_testbit by assumption.
    destruct (Z.ltb_spec j 8) as [Hlt|Hge].
    + rewrite Z.div_small, Z.mod_small by lia. reflexivity.
    + rewrite IH by lia.
      replace j with ((j - 8) + 1 * 8) at 3 4 by lia.
      rewrite Z.div_add, Z.mod_add by lia.
      rewrite Z2Nat.inj_add by (try apply Z.div_pos; lia).
      rewrite Nat.add_comm. reflexivity.
Qed.

Lemma rangeValue_testbit (range : list Z) (j : Z) :
  Forall is_uint8 range -> 0 <= j ->
  Z.testbit (rangeValue range) j = Z.testbit (rbegin_at range (j / 8)) (j mod 8).
Proof.
  intros Hr Hj. unfold rangeValue, rbegin_at.
  apply littleEndianValue_testbit; [|exact Hj].
  apply Forall_rev. exact Hr.
Qed.

Lemma rbegin_at_uint8 (range : list Z) (i : Z) :
  Forall is_uint8 range -> is_uint8 (rbegin_at range i).
Proof.
  intros Hr. unfold rbegin_at.
  destruct (nth_in_or_default (Z.to_nat i) (rev range) 0) as [Hin | Hd].
  - apply Forall_rev in Hr. rewrite Forall_forall in Hr. apply Hr, Hin.
  - rewrite Hd. unfold is_uint8. lia.
Qed.

(** Within the 32-bit accumulator, both branches of the loop body place
    bit [k - shift] of the byte at bit [k]. *)
Lemma extractBits_step_testbit (range : list Z) (begin offset i value k : Z) :
  0 <= k < 32 ->
  Z.testbit (extractBits_step range begin offset i value) k =
  Z.testbit value k
  || Z.testbit (rbegin_at range i) (k - ((i - begin) * CHAR_BIT - offset)).
Proof.
  intros Hk. unfold extractBits_step. cbv zeta.
  set (shift := (i - begin) * CHAR_BIT - offset).
  destruct (Z.leb_spec 0 shift) as [Hs|Hs]; rewrite Z.lor_spec; f_equal.
  - unfold uint32. rewrite Z.mod_pow2_bits_low by lia.
    apply Z.shiftl_spec. lia.
  - rewrite Z.shiftr_spec by lia.
    replace (k + - shift) with (k - shift) by lia. reflexivity.
Qed.

Lemma extractBits_loop_testbit (range : list Z) (index : Z) :
  Forall is_uint8 range -> 0 <= index ->
  forall n i value k,
    0 <= i -> 0 <= k < 32 ->
    Z.testbit (extractBits_loop range (index / 8) (index mod 8) n i value) k =
    Z.testbit value k
    || ((i <=? (index + k) / 8) && ((index + k) / 8 <? i + Z.of_nat n)
        && Z.testbit (rangeValue range) (index + k)).
Proof.
  intros Hr Hidx. induction n as [|n IH]; intros i value k Hi Hk.
  - cbn [extractBits_loop].
    replace ((i <=? (index + k) / 8) && ((index + k) / 8 <? i + Z.of_nat 0))
      with false by zcompare.
    now rewrite orb_false_r.
  - cbn [extractBits_loop]. rewrite IH by lia.
    rewrite extractBits_step_testbit by exact Hk.
    rewrite <- orb_assoc. f_equal.
    rewrite rangeValue_testbit by (assumption || lia).
    set (j := index + k).
    assert (Hshift : k - ((i - index / 8) * CHAR_BIT - index mod 8) = j - 8 * i).
    { unfold CHAR_BIT, j. pose proof (Z.div_mod index 8). lia. }
    rewrite Hshift.
    pose proof (Z.div_mod j 8 ltac:(lia)) as Hdm.
    pose proof (Z.mod_pos_bound j 8 ltac:(lia)) as Hmb.
    destruct (Z.eq_dec (j / 8) i) as [Heq|Hne].
    + replace (j - 8 * i) with (j mod 8) by lia. rewrite Heq.
      replace (i + 1 <=? i) with false by zcompare.
      replace (i <=? i) with true by zcompare.
      replace (i <? i + Z.of_nat (S n)) with true by zcompare.
      cbn [andb orb]. now rewrite orb_false_r.
    + assert (Hout : Z.testbit (rbegin_at range i) (j - 8 * i) = false).
      { destruct (Z.lt_ge_cases (j - 8 * i) 0) as [Hneg|Hpos].
        - apply Z.testbit_neg_r. exact Hneg.
        - apply uint8_testbit_high; [apply rbegin_at_uint8; exact Hr | lia]. }
      rewrite Hout. cbn [orb].
      zcompare.
Qed.

Lemma extractBits_mask (size : Z) :
  0 <= size <= 32 ->
  uint32 (uint32 (Z.shiftl 1 size) - 1) = Z.ones size.
Proof.
  intros Hs. unfold uint32. rewrite Z.shiftl_1_l, Z.ones_equiv.
  destruct (Z.eq_dec size 32) as [->|Hne].
  - reflexivity.
  - assert (Hlt : 0 < 2 ^ size < 2 ^ 32).
    { split; [apply Z.pow_pos_nonneg; lia | apply Z.pow_lt_mono_r; lia]. }
    rewrite (Z.mod_small (2 ^ size)) by lia.
    rewrite Z.mod_small by lia. lia.
Qed.

End ExtractBits.



(** ** The driver: runs on the test environments *)

Example waitWhileBusy_ready_at_once :
  run (waitWhileBusy (scriptedBus [] 0xff) 10) 5 world0
  = Some (0, mkWorld 2 [EvTransaction [mkTransfer None true 1] 0
                          [mkTransferResult 1 [0xff]]] 1%nat).
Proof. reflexivity. Qed.

Example waitWhileBusy_times_out :
  option_map fst (run (waitWhileBusy busyBus 3) 10 world0) = Some ETIMEDOUT.
Proof. reflexivity. Qed.

(** CMD17 answered by R1 = 0, then the start block token, then the block. *)
Example read_one_block :
  option_map fst
    (run (read (scriptedBus [wrote 6; reads [0x00]; reads [0xfe]] 0x5a)
            openedCard 512 (Some (repeat 0 512)) 512) 10 world0)
  = Some (0, 512, Some (repeat 0x5a 512)).
Proof. vm_compute. reflexivity. Qed.

Example erase_out_of_range :
  run (erase busyBus openedCard (1024 * 512) 512) 10 world0 = Some (ENOSPC, world0).
Proof. reflexivity. Qed.

Example open_sdhc_card :
  option_map fst (run (open sdhcBus closedCard) 10 (mkWorld 0 [] 0%nat))
  = Some (0, mkCard 25000000 7744512 100 250 true sdVersion2).
Proof. vm_compute. reflexivity. Qed.

Example open_without_card :
  option_map fst (run (open busyBus closedCard) 10 (mkWorld 0 [] 0%nat))
  = Some (EIO, closedCard).
Proof. vm_compute. reflexivity. Qed.

(** ** Argument and state checks of read, program and erase *)

Section EarlyReturns.

Context {Device : Type}.
Variable env : Env Device.

Lemma isUnknown_true (card : SpiSdMmcCard) :
  type_ card = unknown -> isUnknown card = true.
Proof. unfold isUnknown. intros ->. reflexivity. Qed.

Lemma isUnknown_false (card : SpiSdMmcCard) :
  type_ card <> unknown -> isUnknown card = false.
Proof. unfold isUnknown. destruct (type_ card); intros H; (reflexivity || contradiction). Qed.

Lemma misaligned_check (address size : Z) :
  address mod blockSize <> 0 \/ size mod blockSize <> 0 ->
  negb (address mod blockSize =? 0) || negb (size mod blockSize =? 0) = true.
Proof.
  intros [H|H]; apply orb_true_iff; [left|right];
    apply negb_true_iff, Z.eqb_neq; exact H.
Qed.

End EarlyReturns.

(** C4. On a device that is not opened (card type still unknown) read,
    program and erase return [EBADF] whatever the arguments are; the world
    is left as it was, so the bus was neither configured nor used, no byte
    is reported as transferred and the buffer is handed back untouched.
    None of the three functions assigns a member of the card object. *)
Theorem not_opened_returns_EBADF {Device : Type} (env : Env Device)
    (card : SpiSdMmcCard) (address size : Z) (buffer : option (list Z))
    (fuel : nat) (w : World Device) :
  type_ card = unknown ->
  run (read env card address buffer size) fuel w = Some ((EBADF, 0, buffer), w)
  /\ run (program env card address buffer size) fuel w = Some ((EBADF, 0), w)
  /\ run (erase env card address size) fuel w = Some (EBADF, w).
Proof.
  intros Hunknown. unfold run, read, program, erase.
  rewrite (isUnknown_true card Hunknown). repeat split.
Qed.

Lemma not_opened_returns_EBADF_witness :
  run (read sdhcBus closedCard 512 (Some [1; 2; 3]) 512) 0 world0
    = Some ((EBADF, 0, Some [1; 2; 3]), world0)
  /\ run (program sdhcBus closedCard 512 (Some [1; 2; 3]) 512) 0 world0
    = Some ((EBADF, 0), world0)
  /\ run (erase sdhcBus closedCard 512 512) 0 world0 = Some (EBADF, world0).
Proof.
  apply (not_opened_returns_EBADF sdhcBus closedCard 512 512 (Some [1; 2; 3]) 0 world0).
  reflexivity.
Defined.

(** C9. On an opened device a request of size 0 succeeds at once: read,
    program and erase return 0 (and 0 bytes transferred) and leave the
    world as it was, so no SPI command is issued; this holds for every
    address, aligned or not, and for a null buffer as well. *)
Theorem zero_size_succeeds {Device : Type} (env : Env Device)
    (card : SpiSdMmcCard) (address : Z) (buffer : option (list Z))
    (fuel : nat) (w : World Device) :
  type_ card <> unknown ->
  run (read env card address buffer 0) fuel w = Some ((0, 0, buffer), w)
  /\ run (program env card address buffer 0) fuel w = Some ((0, 0), w)
  /\ run (erase env card address 0) fuel w = Some (0, w).
Proof.
  intros Hopened. unfold run, read, program, erase.
  rewrite (isUnknown_false card Hopened). repeat split.
Qed.

Lemma zero_size_succeeds_witness :
  run (read sdhcBus openedCard 7 None 0) 0 world0 = Some ((0, 0, None), world0)
  /\ run (program sdhcBus openedCard 7 None 0) 0 world0 = Some ((0, 0), world0)
  /\ run (erase sdhcBus openedCard 7 0) 0 world0 = Some (0, world0).
Proof.
  apply (zero_size_succeeds sdhcBus openedCard 7 None 0 world0).
  discriminate.
Defined.

(** C3, counterexample.  The address 7 is not a multiple of the block
    size, yet erase, read and program of size 0 on an opened device return
    0, not [EINVAL]; and on a device that is not opened the misaligned
    request is answered with [EBADF]. *)
Lemma misaligned_not_always_EINVAL :
  7 mod blockSize <> 0
  /\ run (erase sdhcBus openedCard 7 0) 0 world0 = Some (0, world0)
  /\ run (read sdhcBus openedCard 7 None 0) 0 world0 = Some ((0, 0, None), world0)
  /\ run (program sdhcBus openedCard 7 None 0) 0 world0 = Some ((0, 0), world0)
  /\ run (erase sdhcBus closedCard 7 512) 0 world0 = Some (EBADF, world0)
  /\ 0 <> EINVAL /\ EBADF <> EINVAL.
Proof. repeat split; discriminate. Qed.

(** C3, as the code has it.  On an opened device and for a size other than
    0: when the address or the size is not a multiple of the block size
    (512), read, program and erase return [EINVAL]; so do read and program
    when the buffer is null, however the (non-empty) request is aligned.
    In each case 0 bytes are reported and the world is left as it was, so
    no command reaches the card. *)
Theorem invalid_arguments_return_EINVAL {Device : Type} (env : Env Device)
    (card : SpiSdMmcCard) (address size : Z) (buffer : option (list Z))
    (address' size' : Z) (fuel : nat) (w : World Device) :
  type_ card <> unknown ->
  size <> 0 -> size' <> 0 ->
  address mod 512 <> 0 \/ size mod 512 <> 0 ->
  blockSize = 512
  /\ run (erase env card address size) fuel w = Some (EINVAL, w)
  /\ run (read env card address buffer size) fuel w = Some ((EINVAL, 0, buffer), w)
  /\ run (program env card address buffer size) fuel w = Some ((EINVAL, 0), w)
  /\ run (read env card address' None size') fuel w = Some ((EINVAL, 0, None), w)
  /\ run (program env card address' None size') fuel w = Some ((EINVAL, 0), w).
Proof.
  intros Hopened Hsize Hsize' Hbad. split; [reflexivity|].
  unfold run, read, program, erase.
  rewrite (isUnknown_false card Hopened).
  apply Z.eqb_neq in Hsize, Hsize'. rewrite Hsize, Hsize'.
  change 512 with blockSize in Hbad.
  rewrite (misaligned_check _ _ Hbad).
  destruct buffer; repeat split.
Qed.

Lemma invalid_arguments_return_EINVAL_witness :
  blockSize = 512
  /\ run (erase sdhcBus openedCard 7 512) 0 world0 = Some (EINVAL, world0)
  /\ run (read sdhcBus openedCard 7 (Some [1; 2]) 512) 0 world0
      = Some ((EINVAL, 0, Some [1; 2]), world0)
  /\ run (program sdhcBus openedCard 7 (Some [1; 2]) 512) 0 world0
      = Some ((EINVAL, 0), world0)
  /\ run (read sdhcBus openedCard 1024 None 512) 0 world0
      = Some ((EINVAL, 0, None), world0)
  /\ run (program sdhcBus openedCard 1024 None 512) 0 world0
      = Some ((EINVAL, 0), world0).
Proof.
  apply (invalid_arguments_return_EINVAL sdhcBus openedCard 7 512 (Some [1; 2])
           1024 512 0 world0).
  - discriminate.
  - discriminate.
  - discriminate.
  - left. vm_compute. discriminate.
Defined.

(** ** Time-bounded waits *)

Section Waits.

Context {Device : Type}.
Variable env : Env Device.



End Waits.




(** ** Error reporting of the driver *)

Section Reporting.

Context {Device : Type}.
Variable env : Env Device.

(** *** Rules for [returns] *)

Lemma returns_ret {A : Type} (a : A) (w : World Device)
    (post : A -> World Device -> Prop) :
  post a w -> returns (ret a) w post.
Proof. intros Hpost. exists 0%nat, a, w. split; [reflexivity | exact Hpost]. Qed.

Lemma returns_bind {A B : Type} (m : Driver Device A) (k : A -> Driver Device B)
    (w : World Device) (P : A -> World Device -> Prop)
    (Q : B -> World Device -> Prop) :
  returns m w P ->
  (forall a w', P a w' -> returns (k a) w' Q) ->
  returns (bind m k) w Q.
Proof.
  intros (fuel1 & a & w1 & Hm & HP) Hk.
  destruct (Hk a w1 HP) as (fuel2 & b & w2 & Hka & HQ).
  exists (Nat.max fuel1 fuel2), b, w2. split; [|exact HQ].
  intros fuel Hfuel. unfold run, bind.
  unfold run in Hm, Hka. rewrite Hm by lia. apply Hka. lia.
Qed.

Lemma returns_weaken {A : Type} (m : Driver Device A) (w : World Device)
    (P Q : A -> World Device -> Prop) :
  returns m w P -> (forall a w', P a w' -> Q a w') -> returns m w Q.
Proof.
  intros (fuel0 & a & w' & Hm & HP) HPQ.
  exists fuel0, a, w'. split; [exact Hm | apply HPQ, HP].
Qed.

Lemma returns_withFuel {A : Type} (loop : nat -> Driver Device A)
    (w : World Device) (post : A -> World Device -> Prop) :
  loopReturns loop w post -> returns (withFuel loop) w post.
Proof.
  intros (n0 & fuel0 & a & w' & Hloop & Hpost).
  exists (Nat.max n0 fuel0), a, w'. split; [|exact Hpost].
  intros fuel Hfuel. unfold run, withFuel. apply Hloop; lia.
Qed.

(** *** Rules for [reported] *)

Lemma returnCodes_app (xs ys : list BusEvent) :
  returnCodes (xs ++ ys) = returnCodes xs ++ returnCodes ys.
Proof.
  induction xs as [|e xs IH]; [reflexivity|].
  cbn. destruct (returnCode e); cbn; rewrite IH; reflexivity.
Qed.

Lemma reported_refl (w : World Device) : reported 0 w w.
Proof.
  split; [lia|]. exists []. split; [reflexivity|].
  left. split; [constructor | left; reflexivity].
Qed.

Lemma reported_zero (w w' : World Device) :
  reported 0 w w' ->
  (ticksRead w <= ticksRead w')%nat
  /\ exists new, busEvents w' = new ++ busEvents w /\ allSucceeded new.
Proof.
  intros (Hticks & new & Hlog & [[Hall _] | [Hnz _]]); [|contradiction].
  split; [exact Hticks|]. exists new. split; assumption.
Qed.

Lemma reported_trans (code : Z) (w w1 w2 : World Device) :
  reported 0 w w1 -> reported code w1 w2 -> reported code w w2.
Proof.
  intros H1 (Hticks2 & new2 & Hlog2 & Hcase).
  apply reported_zero in H1. destruct H1 as (Hticks1 & new1 & Hlog1 & Hall1).
  split; [lia|]. exists (new2 ++ new1). split.
  - rewrite Hlog2, Hlog1. apply app_assoc.
  - destruct Hcase as [[Hall2 Hcode] | (Hnz & earlier & Hcodes & Hall2)].
    + left. split; [|exact Hcode].
      unfold allSucceeded. rewrite returnCodes_app. apply Forall_app. split; assumption.
    + right. split; [exact Hnz|]. exists (earlier ++ returnCodes new1). split.
      * rewrite returnCodes_app, Hcodes. reflexivity.
      * apply Forall_app. split; assumption.
Qed.

Lemma reported_own (code : Z) (w w' : World Device) :
  reported 0 w w' -> In code driverCodes -> reported code w w'.
Proof.
  intros H Hin. apply reported_zero in H. destruct H as (Hticks & new & Hlog & Hall).
  split; [exact Hticks|]. exists new. split; [exact Hlog|].
  left. split; [exact Hall | right; exact Hin].
Qed.

Lemma reported_classified (code : Z) (w w' : World Device) :
  reported code w w' -> classified code w w'.
Proof.
  intros (Hticks & new & Hlog & Hcase). split; [exact Hticks|].
  exists new. split; [exact Hlog|].
  destruct Hcase as [[_ [Hz | Hin]] | (Hnz & earlier & Hcodes & _)]; auto.
  right. right. split; [exact Hnz|]. rewrite Hcodes. left. reflexivity.
Qed.


Lemma returns_frame {A : Type} (m : Driver Device A) (code : A -> Z)
    (w0 w : World Device) :
  reported 0 w0 w ->
  returns m w (fun a w' => reported (code a) w w') ->
  returns m w (fun a w' => reported (code a) w0 w').
Proof.
  intros Hquiet Hm. eapply returns_weaken; [exact Hm|].
  intros a w' H. cbv beta in *. eapply reported_trans; eassumption.
Qed.

(** *** External calls *)

Lemma now_returns (w : World Device) :
  returns (now env) w
    (fun t w' => t = tickAt env (ticksRead w)
                 /\ ticksRead w' = S (ticksRead w)
                 /\ busEvents w' = busEvents w).
Proof.
  exists 0%nat, (tickAt env (ticksRead w)),
    (mkWorld (S (ticksRead w)) (busEvents w) (spiDevice_ w)).
  split; [reflexivity | repeat split].
Qed.

Lemma now_reported (w : World Device) :
  returns (now env) w (fun t w' => reported 0 w w').
Proof.
  eapply returns_weaken; [apply now_returns|].
  intros t w' (_ & Hticks & Hlog). split; [lia|].
  exists []. split; [exact Hlog|]. left. split; [constructor | left; reflexivity].
Qed.

Lemma logged_call_reported (e : BusEvent) (code : Z) (w : World Device) :
  returnCode e = Some code -> reported code w (logEvent e w).
Proof.
  intros He. split; [cbn; lia|]. exists [e]. split; [reflexivity|].
  unfold allSucceeded, failedLast. cbn. rewrite He.
  destruct (Z.eq_dec code 0) as [Hz | Hnz].
  - left. split; [repeat constructor; exact Hz | left; exact Hz].
  - right. split; [exact Hnz|]. exists []. split; [reflexivity | constructor].
Qed.

Lemma configure_reported (mode : SpiMode) (clockFrequency wordLength : Z)
    (lsbFirst : bool) (dummyData : Z) (w : World Device) :
  returns (configure env mode clockFrequency wordLength lsbFirst dummyData) w
    (fun code w' => reported code w w').
Proof.
  eexists 0%nat, _, _. split; [reflexivity|].
  apply logged_call_reported. reflexivity.
Qed.

Lemma executeTransaction_reported (operations : list SpiMasterTransfer)
    (w : World Device) :
  returns (executeTransaction env operations) w
    (fun r w' => reported (fst r) w w').
Proof.
  unfold returns, run, executeTransaction.
  destruct (transactionAnswer env (busEvents w) operations) as [code results].
  eexists 0%nat, _, _. split; [reflexivity|].
  apply logged_call_reported. reflexivity.
Qed.

Lemma logged_mark_reported (e : BusEvent) (w : World Device) :
  returnCode e = None -> reported 0 w (logEvent e w).
Proof.
  intros He. split; [cbn; lia|]. exists [e]. split; [reflexivity|].
  left. unfold allSucceeded. cbn. rewrite He. split; [constructor | left; reflexivity].
Qed.

Lemma selectDevice_reported (w : World Device) :
  returns selectDevice w (fun _ w' => reported 0 w w').
Proof.
  eexists 0%nat, _, _. split; [reflexivity|].
  apply logged_mark_reported. reflexivity.
Qed.

Lemma deselectDevice_reported (w : World Device) :
  returns deselectDevice w (fun _ w' => reported 0 w w').
Proof.
  eexists 0%nat, _, _. split; [reflexivity|].
  apply logged_mark_reported. reflexivity.
Qed.


Lemma sleepFor_reported (duration : Z) (w : World Device) :
  returns (sleepFor duration) w (fun _ w' => reported 0 w w').
Proof. apply returns_ret, reported_refl. Qed.

(** *** Proof steps that follow the code *)

Ltac driver_call lemma :=
  eapply returns_bind;
  [ eapply returns_frame; [eassumption | apply lemma]
  | cbv beta; intros ].

Ltac driver_case :=
  lazymatch goal with
  | |- returns (ret _) _ _ => apply returns_ret; cbn [fst snd]
  | |- returns (let '(_, _) := ?r in _) _ _ => destruct r; cbn [fst snd] in *
  | |- returns (if negb (?c =? 0) then _ else _) _ _ =>
      destruct (Z.eqb_spec c 0); cbn [negb]; [try subst c|]
  | |- returns (if ?c =? ?d then _ else _) _ _ =>
      destruct (Z.eqb_spec c d)
  | |- returns (if ?b then _ else _) _ _ => destruct b eqn:?
  end.

Ltac driver_done :=
  first [ assumption
        | apply reported_refl
        | apply reported_own; [assumption | cbn; tauto] ].

Ltac driver_branches := repeat driver_case; try driver_done.

Lemma size_t_small (z : Z) : 0 <= z < 2 ^ 32 -> size_t z = z.
Proof. intros Hz. unfold size_t, SIZE_WIDTH. apply Z.mod_small. exact Hz. Qed.

Lemma store_length (buffer : list Z) (offset : nat) (data : list Z) :
  (offset <= length buffer)%nat -> length (store buffer offset data) = length buffer.
Proof.
  intros Hoff. unfold store.
  rewrite !length_app, !length_firstn, length_skipn. lia.
Qed.

Lemma invalidBytesOf_bounds (buffer : list Z) :
  0 <= invalidBytesOf buffer <= Z.of_nat (length buffer).
Proof.
  induction buffer as [|value rest IH]; cbn [invalidBytesOf length]; [lia|].
  destruct (negb (value =? 255)); lia.
Qed.

(** *** Commands and responses *)

Lemma writeCmd_reported (command argument crc7 : Z) (stuffByte : bool)
    (w : World Device) :
  returns (writeCmd env command argument crc7 stuffByte) w
    (fun code w' => reported code w w').
Proof.
  pose proof (reported_refl w). unfold writeCmd. cbv zeta.
  driver_call executeTransaction_reported.
  repeat driver_case. driver_done.
Qed.

Lemma readResponse_loop_reported (n : nat) :
  forall (buffer : list Z) (bytesRead validBytesRead : Z) (w : World Device),
    2 * Z.of_nat (length buffer) + 8 < 2 ^ 32 ->
    0 <= bytesRead ->
    Z.of_nat (length buffer) + 8 - bytesRead <= Z.of_nat n ->
    validBytesRead = 0 \/ 0 < validBytesRead < Z.of_nat (length buffer) ->
    returns (readResponse_loop env n buffer bytesRead validBytesRead) w
      (fun r w' => reported (fst r) w w').
Proof.
  induction n as [|n IH]; intros buffer bytesRead validBytesRead w Hsize Hread Hleft Hvalid;
    pose proof (reported_refl w) as Hquiet.
  - cbn [readResponse_loop]. rewrite size_t_small by lia.
    replace (bytesRead <? Z.of_nat (length buffer) + 8) with false by zcompare.
    cbn [negb]. driver_case. driver_done.
  - cbn [readResponse_loop]. rewrite (size_t_small (_ + 8)) by lia.
    destruct (Z.ltb_spec bytesRead (Z.of_nat (length buffer) + 8)) as [Hmore|Hdone];
      cbn [negb]; [|driver_case; driver_done].
    remember (Z.of_nat (length buffer)) as size eqn:Hsz.
    assert (HreadSize : size_t (size - validBytesRead) = size - validBytesRead)
      by (apply size_t_small; lia).
    rewrite !HreadSize.
    driver_call executeTransaction_reported.
    do 2 driver_case; [|driver_case; driver_done].
    set (buffer1 := store buffer (Z.to_nat validBytesRead) _).
    assert (Hlen1 : length buffer1 = length buffer).
    { apply store_length. lia. }
    destruct (Z.eqb_spec validBytesRead 0) as [Hfirst|Hlater].
    + pose proof (invalidBytesOf_bounds buffer1) as Hinvalid.
      rewrite Hlen1, <- Hsz in Hinvalid.
      set (buffer2 := if (_ && _) then _ else buffer1).
      assert (Hlen2 : length buffer2 = length buffer).
      { unfold buffer2. destruct (_ && _); [|exact Hlen1].
        unfold memmoveToFront. rewrite store_length by lia. exact Hlen1. }
      destruct (Z.eqb_spec (size - invalidBytesOf buffer1) size) as [Hall|Hsome].
      * driver_case. driver_done.
      * eapply returns_frame; [eassumption|].
        apply IH; rewrite ?Hlen2, <- ?Hsz.
        -- lia.
        -- rewrite size_t_small by lia. lia.
        -- rewrite size_t_small by lia. subst validBytesRead. lia.
        -- lia.
    + rewrite size_t_small by lia.
      replace (validBytesRead + (size - validBytesRead) =? size) with true by zcompare.
      driver_case. driver_done.
Qed.

Lemma readResponse_reported (buffer : list Z) (w : World Device) :
  2 * Z.of_nat (length buffer) + 8 < 2 ^ 32 ->
  returns (readResponse env buffer) w (fun r w' => reported (fst r) w w').
Proof.
  intros Hsize. unfold readResponse.
  apply readResponse_loop_reported; lia.
Qed.

Lemma readR1_reported (w : World Device) :
  returns (readR1 env) w (fun r w' => reported (fst r) w w').
Proof.
  pose proof (reported_refl w). unfold readR1.
  driver_call readResponse_reported; [cbn [length]; lia|].
  repeat driver_case. driver_done.
Qed.

Lemma readR3_reported (w : World Device) :
  returns (readR3 env) w (fun r w' => reported (fst (fst r)) w w').
Proof.
  pose proof (reported_refl w). unfold readR3.
  driver_call readResponse_reported; [cbn [length]; lia|].
  repeat driver_case. driver_done.
Qed.

Lemma writeCmdReadR1_reported (command argument crc7 : Z) (stuffByte : bool)
    (w : World Device) :
  returns (writeCmdReadR1 env command argument crc7 stuffByte) w
    (fun r w' => reported (fst r) w w').
Proof.
  pose proof (reported_refl w). unfold writeCmdReadR1.
  driver_call writeCmd_reported.
  driver_case; [|driver_case; driver_done].
  eapply returns_frame; [eassumption | apply readR1_reported].
Qed.

Lemma writeCmdReadR3_reported (command argument crc7 : Z) (stuffByte : bool)
    (w : World Device) :
  returns (writeCmdReadR3 env command argument crc7 stuffByte) w
    (fun r w' => reported (fst (fst r)) w w').
Proof.
  pose proof (reported_refl w). unfold writeCmdReadR3.
  driver_call writeCmd_reported.
  driver_case; [|driver_case; driver_done].
  eapply returns_frame; [eassumption | apply readR3_reported].
Qed.

Lemma executeCmd8_reported (w : World Device) :
  returns (executeCmd8 env) w (fun r w' => reported (fst (fst r)) w w').
Proof.
  pose proof (reported_refl w). unfold executeCmd8. cbv zeta.
  driver_call writeCmdReadR3_reported.
  destruct a as [[code r1] ocr]. cbn [fst snd] in *.
  driver_case. driver_done.
Qed.

Lemma writeAcmd_reported (command argument crc7 : Z) (stuffByte : bool)
    (w : World Device) :
  returns (writeAcmd env command argument crc7 stuffByte) w
    (fun code w' => reported code w w').
Proof.
  pose proof (reported_refl w). unfold writeAcmd, executeCmd55.
  driver_call writeCmdReadR1_reported.
  do 2 driver_case; [|driver_case; driver_done].
  driver_case; [driver_case; driver_done|].
  eapply returns_frame; [eassumption | apply writeCmd_reported].
Qed.

Lemma writeAcmdReadR1_reported (command argument crc7 : Z) (stuffByte : bool)
    (w : World Device) :
  returns (writeAcmdReadR1 env command argument crc7 stuffByte) w
    (fun r w' => reported (fst r) w w').
Proof.
  pose proof (reported_refl w). unfold writeAcmdReadR1.
  driver_call writeAcmd_reported.
  driver_case; [|driver_case; driver_done].
  eapply returns_frame; [eassumption | apply readR1_reported].
Qed.

Lemma executeAcmd41_reported (hcs : bool) (w : World Device) :
  returns (executeAcmd41 env hcs) w (fun r w' => reported (fst r) w w').
Proof. apply writeAcmdReadR1_reported. Qed.

(** *** Loops bounded by the clock *)

Lemma run_bind {A B : Type} (m : Driver Device A) (k : A -> Driver Device B)
    (fuel : nat) (w w1 : World Device) (a : A) :
  run m fuel w = Some (a, w1) ->
  run (bind m k) fuel w = run (k a) fuel w1.
Proof. unfold run, bind. intros ->. reflexivity. Qed.

Hypothesis Hclock : clockAdvances env.

Lemma clock_reaches (t : Z) (j : nat) : exists k, t <= tickAt env (j + k)%nat.
Proof.
  destruct Hclock as [Hmono Hunbounded].
  destruct (Hunbounded t) as [n Hn]. exists n.
  apply Z.le_trans with (tickAt env n); [exact Hn | apply Hmono; lia].
Qed.

Lemma clock_reached_later (t : Z) (i j : nat) :
  t <= tickAt env i -> (i <= j)%nat -> t <= tickAt env j.
Proof.
  destruct Hclock as [Hmono _]. intros Ht Hij.
  apply Z.le_trans with (tickAt env i); [exact Ht | apply Hmono, Hij].
Qed.

Lemma waitWhile_loop_step (functor : Z -> bool) (deadline : Z) (n fuel : nat)
    (w : World Device) :
  run (waitWhile_loop env functor deadline (S n)) fuel w
  = let w1 := mkWorld (S (ticksRead w)) (busEvents w) (spiDevice_ w) in
    if tickAt env (ticksRead w) <? deadline then
      let '(code, results) :=
        transactionAnswer env (busEvents w) [mkTransfer None true 1] in
      let w2 := logEvent (EvTransaction [mkTransfer None true 1] code results) w1 in
      if negb (code =? 0) then Some ((code, 0), w2)
      else if negb (functor (nth 0 (delivered results 0 1) 0))
           then Some ((0, nth 0 (delivered results 0 1) 0), w2)
           else run (waitWhile_loop env functor deadline n) fuel w2
    else Some ((ETIMEDOUT, 0), w1).
Proof.
  unfold run. cbn [waitWhile_loop]. unfold bind at 1, now. cbv zeta.
  destruct (tickAt env (ticksRead w) <? deadline); [|reflexivity].
  unfold bind at 1, executeTransaction. cbn [busEvents].
  destruct (transactionAnswer env (busEvents w) [mkTransfer None true 1])
    as [code results].
  destruct (negb (code =? 0)); [reflexivity|].
  destruct (negb (functor _)); reflexivity.
Qed.

Lemma waitWhile_loop_reported (functor : Z -> bool) (deadline : Z) :
  forall k w,
    deadline <= tickAt env (ticksRead w + k)%nat ->
    loopReturns (waitWhile_loop env functor deadline) w
      (fun r w' => reported (fst r) w w').
Proof.
  induction k as [|k IH]; intros w Hreach.
  - rewrite Nat.add_0_r in Hreach.
    exists 1%nat, 0%nat, (ETIMEDOUT, 0),
      (mkWorld (S (ticksRead w)) (busEvents w) (spiDevice_ w)).
    split.
    + intros [|n] fuel Hn _; [lia|]. rewrite waitWhile_loop_step. cbv zeta.
      replace (tickAt env (ticksRead w) <? deadline) with false by zcompare.
      reflexivity.
    + apply reported_own; [|cbn; tauto].
      split; [cbn; lia|]. exists []. split; [reflexivity|].
      left. split; [constructor | left; reflexivity].
  - set (w1 := mkWorld (S (ticksRead w)) (busEvents w) (spiDevice_ w)).
    assert (Hw1 : reported 0 w w1).
    { split; [cbn; lia|]. exists []. split; [reflexivity|].
      left. split; [constructor | left; reflexivity]. }
    destruct (Z.ltb_spec (tickAt env (ticksRead w)) deadline) as [Hearly|Hlate].
    + destruct (transactionAnswer env (busEvents w) [mkTransfer None true 1])
        as [code results] eqn:Hanswer.
      set (w2 := logEvent (EvTransaction [mkTransfer None true 1] code results) w1).
      assert (Hw2 : reported code w w2).
      { eapply reported_trans; [exact Hw1|].
        apply logged_call_reported. reflexivity. }
      destruct (Z.eqb_spec code 0) as [Hzero|Hfailed].
      * destruct (functor (nth 0 (delivered results 0 1) 0)) eqn:Hbyte.
        -- destruct (IH w2) as (n0 & fuel0 & a & w' & Hrun & Hpost).
           { replace (ticksRead w2 + k)%nat with (ticksRead w + S k)%nat
               by (unfold w2, w1; cbn; lia).
             exact Hreach. }
           exists (S n0), fuel0, a, w'. split.
           ++ intros [|n] fuel Hn Hfuel; [lia|]. rewrite waitWhile_loop_step. cbv zeta.
              replace (tickAt env (ticksRead w) <? deadline) with true by zcompare.
              rewrite Hanswer. replace (code =? 0) with true by zcompare.
              rewrite Hbyte. cbn [negb]. apply Hrun; lia.
           ++ cbv beta in *. eapply reported_trans; [|exact Hpost].
              rewrite <- Hzero. exact Hw2.
        -- exists 1%nat, 0%nat, (0, nth 0 (delivered results 0 1) 0), w2. split.
           ++ intros [|n] fuel Hn _; [lia|]. rewrite waitWhile_loop_step. cbv zeta.
              replace (tickAt env (ticksRead w) <? deadline) with true by zcompare.
              rewrite Hanswer. replace (code =? 0) with true by zcompare.
              rewrite Hbyte. reflexivity.
           ++ cbn [fst]. rewrite <- Hzero. exact Hw2.
      * exists 1%nat, 0%nat, (code, 0), w2. split.
        -- intros [|n] fuel Hn _; [lia|]. rewrite waitWhile_loop_step. cbv zeta.
           replace (tickAt env (ticksRead w) <? deadline) with true by zcompare.
           rewrite Hanswer.
           replace (code =? 0) with false by zcompare. reflexivity.
        -- exact Hw2.
    + exists 1%nat, 0%nat, (ETIMEDOUT, 0), w1. split.
      * intros [|n] fuel Hn _; [lia|]. rewrite waitWhile_loop_step. cbv zeta.
        replace (tickAt env (ticksRead w) <? deadline) with false by zcompare.
        reflexivity.
      * apply reported_own; [exact Hw1 | cbn; tauto].
Qed.

Lemma waitWhile_reported (duration : Z) (functor : Z -> bool) (w : World Device) :
  returns (waitWhile env duration functor) w (fun r w' => reported (fst r) w w').
Proof.
  pose proof (reported_refl w). unfold waitWhile.
  eapply returns_bind; [apply now_returns|].
  intros start w1 (Hstart & Hticks & Hlog). cbv zeta.
  assert (Hw1 : reported 0 w w1).
  { split; [lia|]. exists []. split; [exact Hlog|].
    left. split; [constructor | left; reflexivity]. }
  eapply returns_frame; [exact Hw1|].
  apply returns_withFuel.
  destruct (clock_reaches (start + duration) (ticksRead w1)) as [k Hk].
  apply (waitWhile_loop_reported functor (start + duration) k w1 Hk).
Qed.

Lemma waitWhileBusy_reported (duration : Z) (w : World Device) :
  returns (waitWhileBusy env duration) w (fun code w' => reported code w w').
Proof.
  pose proof (reported_refl w). unfold waitWhileBusy.
  driver_call waitWhile_reported.
  driver_case. driver_done.
Qed.

(** *** Data blocks *)

Lemma readDataBlock_reported (buffer : list Z) (size duration : Z)
    (w : World Device) :
  returns (readDataBlock env buffer size duration) w
    (fun r w' => reported (fst (fst r)) w w').
Proof.
  pose proof (reported_refl w). unfold readDataBlock.
  driver_call waitWhile_reported. destruct a as [code byte]. cbn [fst snd] in *.
  driver_branches.
  driver_call executeTransaction_reported. driver_branches.
Qed.

Lemma writeDataBlock_reported (token : Z) (buffer : list Z) (size duration : Z)
    (w : World Device) :
  returns (writeDataBlock env token buffer size duration) w
    (fun r w' => reported (fst r) w w').
Proof.
  pose proof (reported_refl w). unfold writeDataBlock. cbv zeta.
  driver_call executeTransaction_reported. driver_branches.
  driver_call waitWhileBusy_reported. driver_branches.
Qed.

Lemma executeCmd9_reported (w : World Device) :
  returns (executeCmd9 env) w (fun r w' => reported (fst (fst r)) w w').
Proof.
  pose proof (reported_refl w). unfold executeCmd9.
  driver_call writeCmdReadR1_reported.
  destruct a as [code r1]. cbn [fst snd] in *.
  destruct (Z.eqb_spec code 0) as [Hzero|Hfailed]; cbn [negb orb];
    [subst code|driver_branches].
  driver_branches.
  driver_call readDataBlock_reported.
  destruct a as [[code count] csdBuffer]. cbn [fst snd] in *.
  driver_branches.
Qed.

Lemma executeCmd12_reported (duration : Z) (w : World Device) :
  returns (executeCmd12 env duration) w (fun r w' => reported (fst r) w w').
Proof.
  pose proof (reported_refl w). unfold executeCmd12.
  driver_call writeCmdReadR1_reported. driver_branches.
  driver_call waitWhileBusy_reported. driver_branches.
Qed.

Lemma executeCmd38_reported (duration : Z) (w : World Device) :
  returns (executeCmd38 env duration) w (fun r w' => reported (fst r) w w').
Proof.
  pose proof (reported_refl w). unfold executeCmd38.
  driver_call writeCmdReadR1_reported. driver_branches.
  driver_call waitWhileBusy_reported. driver_branches.
Qed.

(** *** erase, program, read *)

Lemma erase_selected_reported (card : SpiSdMmcCard)
    (address size firstBlock blocks : Z) (w : World Device) :
  returns (erase_selected env card address size firstBlock blocks) w
    (fun code w' => reported code w w').
Proof.
  pose proof (reported_refl w). unfold erase_selected, executeCmd32, executeCmd33.
  cbv zeta.
  driver_call writeCmdReadR1_reported. driver_branches.
  driver_call writeCmdReadR1_reported. driver_branches.
  driver_call executeCmd38_reported. driver_branches.
Qed.


Lemma program_blocks_reported (card : SpiSdMmcCard) (buffer : list Z)
    (blocks : Z) (n : nat) :
  forall (block bytesWritten : Z) (w : World Device),
    returns (program_blocks env card buffer blocks n block bytesWritten) w
      (fun r w' => reported (fst r) w w').
Proof.
  induction n as [|n IH]; intros block bytesWritten w;
    pose proof (reported_refl w); cbn [program_blocks].
  - driver_branches.
  - driver_call writeDataBlock_reported. cbv zeta. driver_branches.
    eapply returns_frame; [eassumption | apply IH].
Qed.

Lemma program_selected_reported (card : SpiSdMmcCard) (address : Z)
    (buffer : list Z) (firstBlock blocks : Z) (w : World Device) :
  returns (program_selected env card address buffer firstBlock blocks) w
    (fun r w' => reported (fst r) w w').
Proof.
  pose proof (reported_refl w).
  unfold program_selected, executeCmd24, executeCmd25. cbv zeta.
  eapply returns_bind.
  { eapply returns_frame; [eassumption|].
    destruct (blocks =? 1); apply writeCmdReadR1_reported. }
  cbv beta. intros. driver_branches.
  driver_call program_blocks_reported. driver_branches.
  driver_call executeTransaction_reported. driver_branches.
  driver_call waitWhileBusy_reported. driver_branches.
Qed.


Lemma read_blocks_reported (card : SpiSdMmcCard) (n : nat) :
  forall (block : Z) (buffer : list Z) (bytesRead : Z) (w : World Device),
    returns (read_blocks env card n block buffer bytesRead) w
      (fun r w' => reported (fst (fst r)) w w').
Proof.
  induction n as [|n IH]; intros block buffer bytesRead w;
    pose proof (reported_refl w); cbn [read_blocks].
  - driver_branches.
  - driver_call readDataBlock_reported.
    destruct a as [[code count] destination]. cbn [fst snd] in *. cbv zeta.
    driver_branches.
    eapply returns_frame; [eassumption | apply IH].
Qed.

Lemma read_selected_reported (card : SpiSdMmcCard) (address : Z)
    (buffer : list Z) (firstBlock blocks : Z) (w : World Device) :
  returns (read_selected env card address buffer firstBlock blocks) w
    (fun r w' => reported (fst (fst r)) w w').
Proof.
  pose proof (reported_refl w).
  unfold read_selected, executeCmd17, executeCmd18. cbv zeta.
  eapply returns_bind.
  { eapply returns_frame; [eassumption|].
    destruct (blocks =? 1); apply writeCmdReadR1_reported. }
  cbv beta. intros. driver_branches.
  driver_call read_blocks_reported.
  destruct a as [[code bytesRead] data]. cbn [fst snd] in *.
  driver_branches.
  driver_call executeCmd12_reported. driver_branches.
Qed.


(** *** initialize *)

Lemma now_tick_reported (w : World Device) :
  reported 0 w (mkWorld (S (ticksRead w)) (busEvents w) (spiDevice_ w)).
Proof.
  split; [cbn; lia|]. exists []. split; [reflexivity|].
  left. split; [constructor | left; reflexivity].
Qed.

Lemma initialize_acmd41_step (type : CardType) (deadline : Z) (n fuel : nat)
    (w w1 : World Device) (code r1 : Z) :
  run (executeAcmd41 env (CardType_eqb type sdVersion2)) fuel w = Some ((code, r1), w1) ->
  run (initialize_acmd41 env type deadline (S n)) fuel w
  = if negb (code =? 0) then Some (inl code, w1)
    else if r1 =? 0
    then Some (inr (if CardType_eqb type unknown then sdVersion1 else type), w1)
    else if negb (r1 =? r1InIdleStateMask)
    then Some (if CardType_eqb type sdVersion2 then inl EIO else inr type, w1)
    else
      let w2 := mkWorld (S (ticksRead w1)) (busEvents w1) (spiDevice_ w1) in
      if tickAt env (ticksRead w1) >=? deadline
      then Some (if CardType_eqb type sdVersion2 then inl ETIMEDOUT else inr type, w2)
      else run (initialize_acmd41 env type deadline n) fuel w2.
Proof.
  unfold run. intros Hcall. cbn [initialize_acmd41]. unfold bind at 1.
  rewrite Hcall.
  destruct (negb (code =? 0)); [reflexivity|].
  destruct (r1 =? 0); [reflexivity|].
  unfold bind at 1.
  destruct (negb (r1 =? r1InIdleStateMask)).
  - unfold ret at 1. destruct (CardType_eqb type sdVersion2); reflexivity.
  - unfold bind at 1, now, ret at 1. cbv zeta.
    destruct (tickAt env (ticksRead w1) >=? deadline).
    + destruct (CardType_eqb type sdVersion2); reflexivity.
    + reflexivity.
Qed.

Lemma initialize_acmd41_reported (type : CardType) (deadline : Z) :
  forall k w,
    deadline <= tickAt env (ticksRead w + k)%nat ->
    loopReturns (initialize_acmd41 env type deadline) w
      (fun r w' => reported (leftCode r) w w').
Proof.
  induction k as [|k IH]; intros w Hreach;
    destruct (executeAcmd41_reported (CardType_eqb type sdVersion2) w)
      as (fuel1 & [code r1] & w1 & Hcall & Hw1); cbn [fst] in Hw1;
    pose proof (proj1 Hw1) as Hticks1;
    set (w2 := mkWorld (S (ticksRead w1)) (busEvents w1) (spiDevice_ w1));
    assert (Hw2 : code = 0 -> reported 0 w w2)
      by (intros ->; eapply reported_trans; [exact Hw1 | apply now_tick_reported]).
  all: destruct (Z.eqb_spec code 0) as [Hzero|Hfailed];
    [ destruct (Z.eqb_spec r1 0) as [Hready|Hnotready];
      [ | destruct (Z.eqb_spec r1 r1InIdleStateMask) as [Hidle|Herror];
          [ destruct (Z.geb_spec (tickAt env (ticksRead w1)) deadline) as [Hlate|Hearly] | ] ]
    | ].
  (* the exits of the loop *)
  all: try solve
    [ eexists 1%nat, fuel1, _, _; split;
      [ intros [|n] fuel Hn Hfuel; [lia|];
        rewrite (initialize_acmd41_step type deadline n fuel w w1 code r1 (Hcall fuel Hfuel));
        cbv zeta;
        repeat match goal with
          | |- context [?a =? ?b] => destruct (Z.eqb_spec a b); try contradiction; try lia
          | |- context [?a >=? ?b] => destruct (Z.geb_spec a b); try lia
          end;
        cbn [negb]; reflexivity
      | subst; destruct (CardType_eqb type sdVersion2); cbn [leftCode];
        first [ exact Hw1
              | apply Hw2; reflexivity
              | apply reported_own; [first [exact Hw1 | apply Hw2; reflexivity] | cbn; tauto] ] ] ].
  - (* no iteration is left to wait for: the deadline has passed *)
    exfalso. rewrite Nat.add_0_r in Hreach.
    pose proof (clock_reached_later deadline _ _ Hreach Hticks1). lia.
  - destruct (IH w2) as (n0 & fuel0 & a & w' & Hloop & Hpost).
    { apply (clock_reached_later deadline (ticksRead w + S k)); [exact Hreach|].
      unfold w2. cbn. lia. }
    exists (S n0), (Nat.max fuel1 fuel0), a, w'. split.
    + intros [|n] fuel Hn Hfuel; [lia|].
      rewrite (initialize_acmd41_step type deadline n fuel w w1 code r1)
        by (apply Hcall; lia).
      cbv zeta.
      repeat match goal with
        | |- context [?a =? ?b] => destruct (Z.eqb_spec a b); try contradiction; try lia
        | |- context [?a >=? ?b] => destruct (Z.geb_spec a b); try lia
        end.
      cbn [negb]. apply Hloop; lia.
    + cbv beta in *. eapply reported_trans; [apply Hw2; exact Hzero | exact Hpost].
Qed.

Lemma initialize_cmd1_step (deadline : Z) (n fuel : nat)
    (w w1 : World Device) (code r1 : Z) :
  run (executeCmd1 env) fuel w = Some ((code, r1), w1) ->
  run (initialize_cmd1 env deadline (S n)) fuel w
  = if negb (code =? 0) then Some (inl code, w1)
    else if r1 =? 0 then Some (inr tt, w1)
    else if negb (r1 =? r1InIdleStateMask) then Some (inl EIO, w1)
    else
      let w2 := mkWorld (S (ticksRead w1)) (busEvents w1) (spiDevice_ w1) in
      if tickAt env (ticksRead w1) >=? deadline then Some (inl ETIMEDOUT, w2)
      else run (initialize_cmd1 env deadline n) fuel w2.
Proof.
  unfold run. intros Hcall. cbn [initialize_cmd1]. unfold bind at 1.
  rewrite Hcall.
  destruct (negb (code =? 0)); [reflexivity|].
  destruct (r1 =? 0); [reflexivity|].
  unfold bind at 1.
  destruct (negb (r1 =? r1InIdleStateMask)); [reflexivity|].
  unfold bind at 1, now, ret at 1. cbv zeta.
  destruct (tickAt env (ticksRead w1) >=? deadline); reflexivity.
Qed.

Lemma initialize_cmd1_reported (deadline : Z) :
  forall k w,
    deadline <= tickAt env (ticksRead w + k)%nat ->
    loopReturns (initialize_cmd1 env deadline) w
      (fun r w' => reported (leftCode r) w w').
Proof.
  induction k as [|k IH]; intros w Hreach;
    destruct (writeCmdReadR1_reported 1 0 0 false w)
      as (fuel1 & [code r1] & w1 & Hcall & Hw1); cbn [fst] in Hw1;
    fold (executeCmd1 env) in Hcall;
    pose proof (proj1 Hw1) as Hticks1;
    set (w2 := mkWorld (S (ticksRead w1)) (busEvents w1) (spiDevice_ w1));
    assert (Hw2 : code = 0 -> reported 0 w w2)
      by (intros ->; eapply reported_trans; [exact Hw1 | apply now_tick_reported]).
  all: destruct (Z.eqb_spec code 0) as [Hzero|Hfailed];
    [ destruct (Z.eqb_spec r1 0) as [Hready|Hnotready];
      [ | destruct (Z.eqb_spec r1 r1InIdleStateMask) as [Hidle|Herror];
          [ destruct (Z.geb_spec (tickAt env (ticksRead w1)) deadline) as [Hlate|Hearly] | ] ]
    | ].
  all: try solve
    [ eexists 1%nat, fuel1, _, _; split;
      [ intros [|n] fuel Hn Hfuel; [lia|];
        rewrite (initialize_cmd1_step deadline n fuel w w1 code r1 (Hcall fuel Hfuel));
        cbv zeta;
        repeat match goal with
          | |- context [?a =? ?b] => destruct (Z.eqb_spec a b); try contradiction; try lia
          | |- context [?a >=? ?b] => destruct (Z.geb_spec a b); try lia
          end;
        cbn [negb]; reflexivity
      | subst; cbn [leftCode];
        first [ exact Hw1
              | apply Hw2; reflexivity
              | apply reported_own; [first [exact Hw1 | apply Hw2; reflexivity] | cbn; tauto] ] ] ].
  - exfalso. rewrite Nat.add_0_r in Hreach.
    pose proof (clock_reached_later deadline _ _ Hreach Hticks1). lia.
  - destruct (IH w2) as (n0 & fuel0 & a & w' & Hloop & Hpost).
    { apply (clock_reached_later deadline (ticksRead w + S k)); [exact Hreach|].
      unfold w2. cbn. lia. }
    exists (S n0), (Nat.max fuel1 fuel0), a, w'. split.
    + intros [|n] fuel Hn Hfuel; [lia|].
      rewrite (initialize_cmd1_step deadline n fuel w w1 code r1)
        by (apply Hcall; lia).
      cbv zeta.
      repeat match goal with
        | |- context [?a =? ?b] => destruct (Z.eqb_spec a b); try contradiction; try lia
        | |- context [?a >=? ?b] => destruct (Z.geb_spec a b); try lia
        end.
      cbn [negb]. apply Hloop; lia.
    + cbv beta in *. eapply reported_trans; [apply Hw2; exact Hzero | exact Hpost].
Qed.

Lemma initialize_csd_reported (card : SpiSdMmcCard) (w : World Device) :
  returns (initialize_csd env card) w (fun r w' => reported (fst r) w w').
Proof.
  pose proof (reported_refl w). unfold initialize_csd.
  driver_call executeCmd9_reported.
  destruct a as [[code r1] csdBuffer]. cbn [fst snd] in *. cbv zeta.
  driver_branches.
Qed.

Lemma initialize_configured_reported (card : SpiSdMmcCard) (w : World Device) :
  returns (initialize_configured env card) w (fun r w' => reported (fst r) w w').
Proof.
  pose proof (reported_refl w). unfold initialize_configured.
  driver_call configure_reported. driver_branches.
  eapply returns_bind with
    (P := fun r w' => reported (leftCode r) w w').
  { destruct (CardType_eqb (type_ card) sdVersion2); [|driver_branches].
    unfold executeCmd58. driver_call writeCmdReadR3_reported.
    destruct a as [[code r1] ocr]. cbn [fst snd] in *. driver_branches. }
  cbv beta. intros [code | card'] w2 Hw2; cbn [leftCode] in Hw2; [driver_branches|].
  eapply returns_bind with
    (P := fun r w' => reported (leftCode r) w w').
  { destruct (negb (blockAddressing_ card')); [|driver_branches].
    unfold executeCmd16. driver_call writeCmdReadR1_reported. driver_branches. }
  cbv beta. intros [code | []] w3 Hw3; cbn [leftCode] in Hw3; [driver_branches|].
  eapply returns_frame; [eassumption | apply initialize_csd_reported].
Qed.

Lemma initialize_selected_reported (card : SpiSdMmcCard) (w : World Device) :
  returns (initialize_selected env card) w (fun r w' => reported (fst r) w w').
Proof.
  pose proof (reported_refl w). unfold initialize_selected, executeCmd0.
  driver_call writeCmdReadR1_reported. driver_branches.
  driver_call executeCmd8_reported.
  destruct a as [[code r1] matched]. cbn [fst snd] in *.
  driver_branches.
  all: cbv zeta.
  all: eapply returns_bind; [apply now_returns|];
    intros start w2 (Hstart & Hticks2 & Hlog2);
    assert (Hw2 : reported 0 w w2)
      by (eapply reported_trans; [eassumption|];
          split; [lia|]; exists []; split; [exact Hlog2|];
          left; split; [constructor | left; reflexivity]).
  all: eapply returns_bind with (P := fun r w' => reported (leftCode r) w w');
    [ eapply returns_frame; [exact Hw2|];
      apply returns_withFuel;
      destruct (clock_reaches (start + seconds env 1) (ticksRead w2)) as [k Hk];
      eapply initialize_acmd41_reported; exact Hk
    | ].
  all: cbv beta; intros [code' | type] w3 Hw3; cbn [leftCode] in Hw3;
    [driver_branches|].
  all: eapply returns_bind with (P := fun r w' => reported (leftCode r) w w');
    [ destruct (CardType_eqb _ unknown); [|driver_branches];
      eapply returns_bind; [apply now_returns|];
      intros start' w4 (Hstart' & Hticks4 & Hlog4);
      assert (Hw4 : reported 0 w w4)
        by (eapply reported_trans; [eassumption|];
            split; [lia|]; exists []; split; [exact Hlog4|];
            left; split; [constructor | left; reflexivity]);
      eapply returns_frame; [exact Hw4|];
      apply returns_withFuel;
      destruct (clock_reaches (start' + seconds env 1) (ticksRead w4)) as [k Hk];
      eapply initialize_cmd1_reported; exact Hk
    | ].
  all: cbv beta; intros [code'' | []] w5 Hw5; cbn [leftCode] in Hw5;
    [driver_branches|].
  all: eapply returns_frame; [eassumption | apply initialize_configured_reported].
Qed.

(** *** Rules for [classified] *)

Lemma classified_later (code : Z) (w w1 w2 : World Device) :
  classified code w w1 ->
  (ticksRead w1 <= ticksRead w2)%nat ->
  (exists new, busEvents w2 = new ++ busEvents w1) ->
  classified code w w2.
Proof.
  intros (Hticks & new & Hlog & Hcase) Hticks2 [new2 Hlog2].
  split; [lia|]. exists (new2 ++ new). split.
  - rewrite Hlog2, Hlog. apply app_assoc.
  - destruct Hcase as [Hz | [Hown | [Hnz Hin]]]; auto.
    right. right. split; [exact Hnz|].
    rewrite returnCodes_app. apply in_or_app. right. exact Hin.
Qed.

Lemma initialize_classified (card : SpiSdMmcCard) (w : World Device) :
  returns (initialize env card) w (fun r w' => classified (fst r) w w').
Proof.
  pose proof (reported_refl w). unfold initialize.
  driver_call configure_reported.
  driver_case; [|driver_case; apply reported_classified; assumption].
  driver_call executeTransaction_reported.
  do 2 driver_case; [|driver_case; apply reported_classified; assumption].
  driver_call selectDevice_reported.
  driver_call initialize_selected_reported.
  destruct a0 as [code card']. cbn [fst] in *.
  eapply returns_bind; [apply executeTransaction_reported|].
  cbv beta. intros r w5 Hw5.
  eapply returns_bind; [apply deselectDevice_reported|].
  cbv beta. intros _ w6 Hw6. driver_case.
  eapply classified_later; [apply reported_classified; eassumption | |].
  - destruct Hw5 as [Ht5 _], Hw6 as [Ht6 _]. lia.
  - destruct Hw5 as (_ & new5 & Hlog5 & _), Hw6 as (_ & new6 & Hlog6 & _).
    exists (new6 ++ new5). rewrite Hlog6, Hlog5. apply app_assoc.
Qed.

(** *** close, open, lock, unlock, synchronize *)



End Reporting.


Lemma scriptedBus_clockAdvances (script : list (Z * list TransferResult))
    (filler : Z) :
  clockAdvances (scriptedBus script filler).
Proof.
  split.
  - intros i j Hij. cbn. lia.
  - intros t. exists (Z.to_nat t). cbn. lia.
Qed.


(** ** Recursive locking *)

Local Open Scope nat_scope.

Example lock_three_times_unlock_twice :
  Nat.iter 2 (afterUnlock 7) (Nat.iter 3 (afterLock 16 7) freeMutex) = heldMutex 7 1.
Proof. reflexivity. Qed.

Example lock_by_other_thread_blocks :
  Mutex_lock 16 8 (heldMutex 7 1) = LockBlocks.
Proof. reflexivity. Qed.

Section RecursiveLocking.

Variable width : nat.
Variable caller : ThreadId.

Lemma maxRecursiveLocks_positive : 1 <= width -> 1 <= maxRecursiveLocks width.
Proof.
  intros Hwidth. unfold maxRecursiveLocks.
  assert (2 ^ 1 <= 2 ^ width) by (apply Nat.pow_le_mono_r; lia).
  cbn in H. lia.
Qed.







End RecursiveLocking.




(** C6. The recursive lock count lives in a counter of a fixed width and
    never exceeds its maximum.  A lock attempt by the owner at the maximum
    fails with [Overflow], which the block device reports as [EAGAIN]; the
    mutex is left as it was, and [SpiSdMmcCard::lock()], which returns what
    the device lock returns, hands [EAGAIN] to its caller with the world
    unchanged. *)
Theorem recursive_lock_overflow (width : nat) (caller : ThreadId) (mutex : Mutex)
    (env : Env LockedDevice) (fuel : nat) (w : World LockedDevice) :
  1 <= width ->
  owner mutex = Some caller ->
  recursiveLocksCount mutex = maxRecursiveLocks width ->
  deviceLock env = SpiDevice_lock width ->
  deviceMutex (spiDevice_ w) = mutex ->
  deviceCaller (spiDevice_ w) = caller ->
  Mutex_lock width caller mutex = LockFails Overflow
  /\ afterLock width caller mutex = mutex
  /\ run (lock env) fuel w = Some (EAGAIN, w)
  /\ (forall (anyone : ThreadId) (any : Mutex),
        recursiveLocksCount any <= maxRecursiveLocks width ->
        recursiveLocksCount (afterLock width anyone any) <= maxRecursiveLocks width).
Proof.
  intros Hwidth Howner Hcount Hdevice Hmutex Hcaller.
  assert (Hfails : Mutex_lock width caller mutex = LockFails Overflow).
  { unfold Mutex_lock. rewrite Howner, Nat.eqb_refl, Hcount, Nat.ltb_irrefl.
    reflexivity. }
  split; [exact Hfails|]. split; [|split].
  - unfold afterLock. rewrite Hfails. reflexivity.
  - unfold run, lock, spiDeviceLock. rewrite Hdevice. unfold SpiDevice_lock.
    rewrite Hmutex, Hcaller, Hfails. cbn [errnoOf].
    destruct w as [ticks events device]. reflexivity.
  - intros anyone any Hany. unfold afterLock, Mutex_lock.
    pose proof (maxRecursiveLocks_positive width Hwidth) as Hpositive.
    destruct (owner any) as [current|];
      [|cbn [withOwnership recursiveLocksCount]; lia].
    destruct (Nat.eqb current anyone); [|exact Hany].
    destruct (Nat.ltb_spec (recursiveLocksCount any) (maxRecursiveLocks width));
      cbn [withOwnership recursiveLocksCount]; lia.
Qed.

Lemma recursive_lock_overflow_witness :
  Mutex_lock 2 7 (heldMutex 7 3) = LockFails Overflow
  /\ afterLock 2 7 (heldMutex 7 3) = heldMutex 7 3
  /\ run (lock (lockedBus 2)) 0 (mkWorld 0 [] (mkLockedDevice (heldMutex 7 3) 7 1))
     = Some (EAGAIN, mkWorld 0 [] (mkLockedDevice (heldMutex 7 3) 7 1))
  /\ (forall (anyone : ThreadId) (any : Mutex),
        recursiveLocksCount any <= maxRecursiveLocks 2 ->
        recursiveLocksCount (afterLock 2 anyone any) <= maxRecursiveLocks 2).
Proof.
  apply (recursive_lock_overflow 2 7 (heldMutex 7 3) (lockedBus 2) 0
           (mkWorld 0 [] (mkLockedDevice (heldMutex 7 3) 7 1))).
  - lia.
  - reflexivity.
  - reflexivity.
  - reflexivity.
  - reflexivity.
  - reflexivity.
Defined.

Local Close Scope nat_scope.

(** ** The kernel: runs of the scenario of the specification *)

Local Open Scope nat_scope.

Example scenario_A_is_boosted :
  let k := steps benchConfig contention benchBoot in
  running k = Some 0 /\ effective k 0 = 10 /\ base k 0 = 5
  /\ stateOf k 1 = Blocked /\ owner (mutexes k 0) = Some 0
  /\ waiters (mutexes k 0) = [1].
Proof. vm_compute. repeat split. Qed.

Example scenario_A_releases :
  let k := steps benchConfig (contention ++ [OpUnlock 0]) benchBoot in
  running k = Some 1 /\ effective k 0 = 5 /\ stateOf k 0 = Runnable
  /\ owner (mutexes k 0) = Some 1 /\ waiters (mutexes k 0) = []
  /\ readyQueue k = [0].
Proof. vm_compute. repeat split. Qed.

(** Chained inheritance: thread 2 (priority 3) owns mutex 1, A (priority 5)
    owns mutex 0 and blocks on mutex 1, B (priority 10) blocks on mutex 0. *)
Example scenario_chain :
  let k := steps benchConfig
             [OpAdd 2; OpLock 1; OpAdd 0; OpLock 0; OpLock 1; OpAdd 1; OpLock 0]
             benchBoot in
  running k = Some 2 /\ effective k 2 = 10 /\ effective k 0 = 10
  /\ stateOf k 0 = Blocked /\ stateOf k 1 = Blocked.
Proof. vm_compute. repeat split. Qed.

Example scenario_round_robin :
  let k := steps benchConfig [OpAdd 0; OpAdd 3; OpSleep 2; OpTick; OpTick] benchBoot in
  running k = Some 0 /\ readyQueue k = [3] /\ timedWaitQueue k = [].
Proof. vm_compute. repeat split. Qed.

Example scenario_exit :
  let k := threadRunner benchConfig [OpAdd 2; OpYield] (steps benchConfig [OpAdd 0] benchBoot) in
  stateOf k 0 = Terminated /\ running k = Some 2 /\ readyQueue k = [].
Proof. vm_compute. repeat split. Qed.

(** ** The scheduler keeps the kernel consistent *)



Section SchedulerInvariant.

Variable cfg : Config.




(** *** How one change of the kernel keeps it consistent *)







(** *** The steps of the scheduler *)














(** *** The operations of the scheduler *)










(** *** The tick *)







(** *** The walk of priority inheritance *)
















(** *** Locking a mutex *)









(** *** Unlocking a mutex *)











(** *** Every run of the kernel keeps the invariant *)




Lemma steps_app (ops later : list Op) (k : Kernel) :
  steps cfg (ops ++ later) k = steps cfg later (steps cfg ops k).
Proof. unfold steps. apply fold_left_app. Qed.

(** *** A terminated thread stays terminated *)





(** *** What a step leaves as it is *)








(** *** Priority inheritance along a run *)







End SchedulerInvariant.












Local Close Scope nat_scope.

(** ** The kernel: scheduling and priority inheritance *)

Local Open Scope nat_scope.





Local Close Scope nat_scope.

(* ===================================================================== *)
(** * Part III: further properties of the driver *)
(* ===================================================================== *)

(** ** decodeCsd *)

Section DecodeCsd.

(** [extractBits] inside the range, as a rewriting rule. *)
Lemma extractBits_inside (range : list Z) (index size : Z) :
  Forall is_uint8 range ->
  0 <= index -> 0 <= size <= 32 ->
  index + size + 7 < 2 ^ SIZE_WIDTH ->
  (index + size + 7) / 8 <= Z.of_nat (length range) ->
  extractBits range index size = Some (bitField range index size).
Proof.
  intros Hr Hidx Hsize Hfit Hin.
  unfold extractBits, CHAR_BIT.
  replace (size <=? 4 * 8) with true by zcompare.
  cbn [negb]. cbv zeta.
  replace (index + size + 8 - 1) with (index + size + 7) by lia.
  unfold size_t. rewrite (Z.mod_small (index + size + 7)) by lia.
  replace ((index + size + 7) / 8 <=? Z.of_nat (length range)) with true by zcompare.
  cbn [negb]. f_equal.
  rewrite extractBits_mask, Z.land_ones by lia.
  unfold bitField. apply Z.bits_inj'. intros k Hk.
  destruct (Z.lt_ge_cases k size) as [Hlt|Hge];
    [|rewrite !Z.mod_pow2_bits_high by lia; reflexivity].
  rewrite !Z.mod_pow2_bits_low by lia.
  rewrite Z.div_pow2_bits by lia.
  assert (Hb : 0 <= index / 8) by (apply Z.div_pos; lia).
  rewrite extractBits_loop_testbit by (assumption || lia).
  rewrite Z.bits_0. cbn [orb].
  pose proof (Z.div_mod (index + k) 8 ltac:(lia)).
  pose proof (Z.mod_pos_bound (index + k) 8 ltac:(lia)).
  pose proof (Z.div_mod (index + size + 7) 8 ltac:(lia)).
  pose proof (Z.mod_pos_bound (index + size + 7) 8 ltac:(lia)).
  pose proof (Z.div_mod index 8 ltac:(lia)).
  pose proof (Z.mod_pos_bound index 8 ltac:(lia)).
  rewrite Z2Nat.id by lia.
  replace (index / 8 <=? (index + k) / 8) with true by zcompare.
  replace ((index + k) / 8 <? index / 8 + ((index + size + 7) / 8 - index / 8))
    with true by zcompare.
  cbn [andb]. f_equal. lia.
Qed.

Lemma bitField_bounds (range : list Z) (index size : Z) :
  0 <= size -> 0 <= bitField range index size < 2 ^ size.
Proof.
  intros Hsize. unfold bitField. apply Z.mod_pos_bound.
  apply Z.pow_pos_nonneg; lia.
Qed.

Lemma csdBits_field (buffer : list Z) (index size : Z) :
  Forall is_uint8 buffer -> length buffer = 16%nat ->
  0 <= index -> 0 <= size <= 32 -> index + size <= 128 ->
  csdBits buffer index size = bitField buffer index size.
Proof.
  intros Hbytes Hlength Hindex Hsize Hfit. unfold csdBits.
  rewrite extractBits_inside; try assumption; try reflexivity.
  - unfold SIZE_WIDTH. lia.
  - rewrite Hlength. change (Z.of_nat 16) with 16.
    pose proof (Z.div_mod (index + size + 7) 8 ltac:(lia)).
    pose proof (Z.mod_pos_bound (index + size + 7) 8 ltac:(lia)). lia.
Qed.

Lemma uint8_bitField (range : list Z) (index size : Z) :
  0 <= size <= 8 -> uint8 (bitField range index size) = bitField range index size.
Proof.
  intros Hsize. pose proof (bitField_bounds range index size ltac:(lia)).
  assert (2 ^ size <= 2 ^ 8) by (apply Z.pow_le_mono_r; lia).
  unfold uint8. apply Z.mod_small. lia.
Qed.

Lemma uint16_bitField (range : list Z) (index size : Z) :
  0 <= size <= 16 -> uint16 (bitField range index size) = bitField range index size.
Proof.
  intros Hsize. pose proof (bitField_bounds range index size ltac:(lia)).
  assert (2 ^ size <= 2 ^ 16) by (apply Z.pow_le_mono_r; lia).
  unfold uint16. apply Z.mod_small. lia.
Qed.

End DecodeCsd.

(** X1.  [decodeCsd] reads every member of the CSD from its place in the
    128-bit register: for a buffer of 16 bytes, each member is the bit
    field of the register (bit 0 is the least significant bit of the last
    byte) at the position and width the code names; no assertion of
    [extractBits] fails and no member is truncated by its narrower type. *)
Theorem decodeCsd_reads_register_fields (buffer : list Z) :
  Forall is_uint8 buffer -> length buffer = 16%nat ->
  let field := bitField buffer in
  decodeCsd buffer
  = {| csdStructure := field 126 2;
       csdV2 :=
         {| taac := field 112 8;
            nsac := field 104 8;
            tranSpeed := field 96 8;
            ccc := field 84 12;
            readBlLen := field 80 4;
            readBlPartial := field 79 1;
            writeBlkMisalign := field 78 1;
            readBlkMisalign := field 77 1;
            dsrImp := field 76 1;
            cSize := field 48 22;
            eraseBlkEn := field 46 1;
            sectorSize := field 39 7;
            wpGrpSize := field 32 7;
            wpGrpEnable := field 31 1;
            r2wFactor := field 26 3;
            writeBlLen := field 22 4;
            writeBlPartial := field 21 1;
            fileFormatGrp := field 15 1;
            copy := field 14 1;
            permWriteProtect := field 13 1;
            tmpWriteProtect := field 12 1;
            fileFormat := field 10 2 |} |}
  /\ 0 <= cSize (csdV2 (decodeCsd buffer)) < 2 ^ 22
  /\ 0 <= csdStructure (decodeCsd buffer) < 4.
Proof.
  intros Hbytes Hlength field.
  assert (Hdecoded : forall index size,
            0 <= index -> 0 <= size <= 32 -> index + size <= 128 ->
            csdBits buffer index size = field index size)
    by (intros; apply csdBits_field; assumption).
  unfold decodeCsd.
  rewrite !Hdecoded by lia. unfold field.
  rewrite !uint8_bitField by lia. rewrite uint16_bitField by lia.
  split; [reflexivity|]. cbn [cSize csdV2 csdStructure].
  split; [apply bitField_bounds; lia|].
  change 4 with (2 ^ 2). apply bitField_bounds. lia.
Qed.

Lemma decodeCsd_reads_register_fields_witness :
  cSize (csdV2 (decodeCsd sdhcCsd)) = bitField sdhcCsd 48 22
  /\ csdStructure (decodeCsd sdhcCsd) = bitField sdhcCsd 126 2.
Proof.
  destruct (decodeCsd_reads_register_fields sdhcCsd) as (Hdecoded & _).
  - repeat constructor; unfold is_uint8; lia.
  - reflexivity.
  - rewrite Hdecoded. split; reflexivity.
Defined.

(** ** The range check and the bus configuration of read, program and erase *)

Section Requests.

Context {Device : Type}.
Variable env : Env Device.

Lemma aligned_check (address size : Z) :
  address mod 512 = 0 -> size mod 512 = 0 ->
  negb (address mod blockSize =? 0) || negb (size mod blockSize =? 0) = false.
Proof.
  intros Haddress Hsize. unfold blockSize. rewrite Haddress, Hsize. reflexivity.
Qed.

Lemma blocks_of_request (address size : Z) :
  0 <= address < 2 ^ 64 -> 0 <= size < 2 ^ 64 ->
  address mod 512 = 0 -> size mod 512 = 0 ->
  uint64 (address / blockSize + size / blockSize) = (address + size) / 512
  /\ 512 * ((address + size) / 512) = address + size.
Proof.
  intros Haddress Hsize Ha Hs. unfold blockSize, uint64.
  pose proof (Z.div_mod address 512 ltac:(lia)).
  pose proof (Z.div_mod size 512 ltac:(lia)).
  assert (Hsum : (address + size) / 512 = address / 512 + size / 512).
  { symmetry. apply Z.div_unique with 0; lia. }
  rewrite Hsum. split; [|lia].
  apply Z.mod_small. change (2 ^ 64) with (512 * 2 ^ 55) in *. lia.
Qed.

Lemma past_the_end (card : SpiSdMmcCard) (address size : Z) :
  0 <= address < 2 ^ 64 -> 0 <= size < 2 ^ 64 ->
  address mod 512 = 0 -> size mod 512 = 0 ->
  (uint64 (address / blockSize + size / blockSize) >? blocksCount_ card)
  = (512 * blocksCount_ card <? address + size).
Proof.
  intros Haddress Hsize Ha Hs.
  destruct (blocks_of_request address size Haddress Hsize Ha Hs) as [-> Hexact].
  rewrite Z.gtb_ltb.
  destruct (Z.ltb_spec (blocksCount_ card) ((address + size) / 512));
    destruct (Z.ltb_spec (512 * blocksCount_ card) (address + size));
    try reflexivity; lia.
Qed.

End Requests.

(** X2.  On an opened device a block-aligned request of read, program or
    erase that ends past the last block of the card
    ([address + size > 512 * blocksCount_]) returns [ENOSPC]: no byte is
    transferred, the buffer is handed back as it was and the world is left
    untouched, so the bus is neither configured nor used. *)
Theorem past_the_end_returns_ENOSPC {Device : Type} (env : Env Device)
    (card : SpiSdMmcCard) (address size : Z) (data : list Z)
    (fuel : nat) (w : World Device) :
  type_ card <> unknown ->
  0 <= address < 2 ^ 64 -> 0 < size < 2 ^ 64 ->
  address mod 512 = 0 -> size mod 512 = 0 ->
  512 * blocksCount_ card < address + size ->
  run (erase env card address size) fuel w = Some (ENOSPC, w)
  /\ run (read env card address (Some data) size) fuel w
     = Some ((ENOSPC, 0, Some data), w)
  /\ run (program env card address (Some data) size) fuel w
     = Some ((ENOSPC, 0), w).
Proof.
  intros Hopened Haddress Hsize Ha Hs Hpast.
  unfold run, read, program, erase.
  rewrite (isUnknown_false card Hopened).
  replace (size =? 0) with false by zcompare.
  rewrite (aligned_check address size Ha Hs).
  rewrite past_the_end by (assumption || lia).
  replace (512 * blocksCount_ card <? address + size) with true by zcompare.
  repeat split.
Qed.

Lemma past_the_end_returns_ENOSPC_witness :
  run (erase sdhcBus openedCard (512 * 1023) 1024) 0 world0 = Some (ENOSPC, world0)
  /\ run (read sdhcBus openedCard (512 * 1023) (Some [7]) 1024) 0 world0
     = Some ((ENOSPC, 0, Some [7]), world0)
  /\ run (program sdhcBus openedCard (512 * 1023) (Some [7]) 1024) 0 world0
     = Some ((ENOSPC, 0), world0).
Proof.
  apply (past_the_end_returns_ENOSPC sdhcBus openedCard (512 * 1023) 1024 [7] 0 world0).
  - discriminate.
  - lia.
  - lia.
  - reflexivity.
  - reflexivity.
  - vm_compute. reflexivity.
Defined.

(** X3.  On an opened device a block-aligned request that lies within the
    card first configures the bus: mode 0, the clock frequency of the card,
    8-bit words, most significant bit first.  When the configuration fails
    the request returns that error code at once with 0 bytes transferred
    and the buffer as it was: the device is not selected and no
    transaction is made. *)
Theorem refused_configuration_aborts {Device : Type} (env : Env Device)
    (card : SpiSdMmcCard) (address size : Z) (data : list Z)
    (fuel : nat) (w : World Device) :
  type_ card <> unknown ->
  0 <= address < 2 ^ 64 -> 0 < size < 2 ^ 64 ->
  address mod 512 = 0 -> size mod 512 = 0 ->
  address + size <= 512 * blocksCount_ card ->
  configureAnswer env (busEvents w) <> 0 ->
  let code := configureAnswer env (busEvents w) in
  let w' := logEvent
              (EvConfigure SpiMode_0 (clockFrequency_ card) 8 false UINT32_MAX code) w in
  run (erase env card address size) fuel w = Some (code, w')
  /\ run (read env card address (Some data) size) fuel w
     = Some ((code, 0, Some data), w')
  /\ run (program env card address (Some data) size) fuel w
     = Some ((code, 0), w').
Proof.
  intros Hopened Haddress Hsize Ha Hs Hwithin Hrefused code w'.
  unfold run, read, program, erase.
  rewrite (isUnknown_false card Hopened).
  replace (size =? 0) with false by zcompare.
  rewrite (aligned_check address size Ha Hs).
  rewrite past_the_end by (assumption || lia).
  replace (512 * blocksCount_ card <? address + size) with false by zcompare.
  unfold bind, configure. fold code. fold w'.
  replace (code =? 0) with false by (subst code; zcompare).
  repeat split.
Qed.

Lemma refused_configuration_aborts_witness :
  run (erase (refusingBus EIO) openedCard 0 512) 0 world0
  = Some (EIO, logEvent (EvConfigure SpiMode_0 25000000 8 false UINT32_MAX EIO) world0).
Proof.
  apply (refused_configuration_aborts (refusingBus EIO) openedCard 0 512 [] 0 world0).
  - discriminate.
  - lia.
  - lia.
  - reflexivity.
  - reflexivity.
  - vm_compute. discriminate.
  - vm_compute. discriminate.
Defined.

(** ** What the calls of the driver log *)

Section Logs.

Context {Device : Type}.
Variable env : Env Device.
Lemma returns_anyhow {A : Type} (m : Driver Device A) (w : World Device)
    (P : A -> World Device -> Prop) :
  returns m w P -> returns m w (fun _ _ => True).
Proof. intros H. eapply returns_weaken; [exact H | trivial]. Qed.

Lemma returns_grows {A : Type} (m : Driver Device A) (w : World Device)
    (code : A -> Z) :
  returns m w (fun a w' => reported (code a) w w') ->
  returns m w (fun _ w' => exists new, busEvents w' = new ++ busEvents w).
Proof.
  intros H. eapply returns_weaken; [exact H|].
  intros a w' (_ & new & Hlog & _). exists new. exact Hlog.
Qed.

Lemma configure_logs (mode : SpiMode) (clockFrequency wordLength : Z)
    (lsbFirst : bool) (dummyData : Z) (w : World Device) :
  returns (configure env mode clockFrequency wordLength lsbFirst dummyData) w
    (fun code w' =>
       code = configureAnswer env (busEvents w)
       /\ busEvents w'
          = EvConfigure mode clockFrequency wordLength lsbFirst dummyData code
            :: busEvents w).
Proof. eexists 0%nat, _, _. split; [reflexivity | split; reflexivity]. Qed.

Lemma executeTransaction_logs (operations : list SpiMasterTransfer)
    (w : World Device) :
  returns (executeTransaction env operations) w
    (fun r w' =>
       r = transactionAnswer env (busEvents w) operations
       /\ busEvents w' = EvTransaction operations (fst r) (snd r) :: busEvents w).
Proof.
  unfold returns, run, executeTransaction.
  destruct (transactionAnswer env (busEvents w) operations) as [code results].
  eexists 0%nat, _, _. split; [reflexivity | split; reflexivity].
Qed.

Lemma selectDevice_logs (w : World Device) :
  returns selectDevice w (fun _ w' => busEvents w' = EvSelect :: busEvents w).
Proof. eexists 0%nat, _, _. split; reflexivity. Qed.

Lemma deselectDevice_logs (w : World Device) :
  returns deselectDevice w (fun _ w' => busEvents w' = EvDeselect :: busEvents w).
Proof. eexists 0%nat, _, _. split; reflexivity. Qed.

End Logs.


(** ** open and close *)

(** X6.  [close] returns the code of [SpiDevice::close()] and makes no
    call on the bus.  When the device is still opened afterwards (there
    were more opens than closes) the card object is left as it is; when it
    is not, the card is deinitialized: its type is unknown again, its size
    is 0, only the clock frequency is kept, and from then on read, program
    and erase answer [EBADF] without touching the bus. *)
Theorem close_deinitializes_with_last_user {Device : Type} (env : Env Device)
    (card : SpiSdMmcCard) (fuel : nat) (w : World Device) :
  let closed := deviceClose env (spiDevice_ w) in
  exists card',
    run (close env card) fuel w = Some ((fst closed, card'), setDevice (snd closed) w)
    /\ (deviceIsOpened env (snd closed) = true -> card' = card)
    /\ (deviceIsOpened env (snd closed) = false ->
          type_ card' = unknown /\ getSize card' = 0
          /\ blocksCount_ card' = 0 /\ blockAddressing_ card' = false
          /\ clockFrequency_ card' = clockFrequency_ card
          /\ forall address size buffer fuel' w',
               run (read env card' address buffer size) fuel' w'
               = Some ((EBADF, 0, buffer), w')
               /\ run (program env card' address buffer size) fuel' w'
                  = Some ((EBADF, 0), w')
               /\ run (erase env card' address size) fuel' w' = Some (EBADF, w')).
Proof.
  intros closed. unfold run, close, bind, spiDeviceClose, isOpened, ret.
  subst closed. destruct (deviceClose env (spiDevice_ w)) as [code device].
  cbn [fst snd spiDevice_ setDevice].
  destruct (deviceIsOpened env device); cbn [negb]; eexists;
    (split; [reflexivity|]); split; try discriminate; try reflexivity.
  intros _. repeat split.
Qed.

(** X7.  [open] first calls [SpiDevice::open()].  When that call fails, or
    when the device was opened already, [open] returns the code of that
    call and does nothing else: no call on the bus is made and the card
    object keeps its state, so a card in use is not initialized again. *)
Theorem open_of_opened_device_is_counted_only {Device : Type} (env : Env Device)
    (card : SpiSdMmcCard) (fuel : nat) (w : World Device) :
  fst (deviceOpen env (spiDevice_ w)) <> 0
  \/ (deviceIsOpened env (spiDevice_ w) = true
      /\ fst (deviceOpen env (spiDevice_ w)) = 0) ->
  run (open env card) fuel w
  = Some ((fst (deviceOpen env (spiDevice_ w)), card),
          setDevice (snd (deviceOpen env (spiDevice_ w))) w).
Proof.
  intros Hcase. unfold run, open, bind, isOpened, spiDeviceOpen, ret.
  destruct (deviceOpen env (spiDevice_ w)) as [code device]. cbn [fst snd] in *.
  destruct Hcase as [Hfailed | [Hopened ->]].
  - replace (code =? 0) with false by zcompare. reflexivity.
  - rewrite Hopened. reflexivity.
Qed.

Lemma open_of_opened_device_is_counted_only_witness :
  run (open sdhcBus openedCard) 0 world0
  = Some ((0, openedCard), mkWorld 0 [] 2%nat).
Proof.
  apply (open_of_opened_device_is_counted_only sdhcBus openedCard 0 world0).
  right. split; reflexivity.
Defined.

(** ** What the guarded parts of the operations leave alone *)

Section Frames.

Context {Device : Type}.
Variable env : Env Device.
Variable P : World Device -> World Device -> Prop.

Hypothesis P_refl : forall w, P w w.
Hypothesis P_trans : forall w1 w2 w3, P w1 w2 -> P w2 w3 -> P w1 w3.
Hypothesis P_tick :
  forall w, P w (mkWorld (S (ticksRead w)) (busEvents w) (spiDevice_ w)).
Hypothesis P_configure :
  forall mode clockFrequency wordLength lsbFirst dummyData code w,
    P w (logEvent (EvConfigure mode clockFrequency wordLength lsbFirst dummyData code) w).
Hypothesis P_transaction :
  forall operations code results w,
    P w (logEvent (EvTransaction operations code results) w).
Hypothesis P_mark :
  forall w, P w (logEvent EvSelect w) /\ P w (logEvent EvDeselect w).

Lemma keeps_ret {A : Type} (a : A) : keeps P (ret a).
Proof. intros fuel w a' w' [= _ <-]. apply P_refl. Qed.

Lemma keeps_bind {A B : Type} (m : Driver Device A) (k : A -> Driver Device B) :
  keeps P m -> (forall a, keeps P (k a)) -> keeps P (bind m k).
Proof.
  intros Hm Hk fuel w b w'' Hrun. unfold run, bind in Hrun.
  destruct (m fuel w) as [[a w']|] eqn:Hfirst; [|discriminate].
  eapply P_trans; [eapply Hm; exact Hfirst | eapply Hk; exact Hrun].
Qed.

Lemma keeps_outOfFuel {A : Type} : keeps P (@outOfFuel Device A).
Proof. intros fuel w a w' Hrun. discriminate. Qed.

Lemma keeps_withFuel {A : Type} (loop : nat -> Driver Device A) :
  (forall n, keeps P (loop n)) -> keeps P (withFuel loop).
Proof. intros Hloop fuel w a w' Hrun. apply (Hloop fuel fuel w a w' Hrun). Qed.

Lemma keeps_now : keeps P (now env).
Proof. intros fuel w a w' [= _ <-]. apply P_tick. Qed.

Lemma keeps_configure (mode : SpiMode) (clockFrequency wordLength : Z)
    (lsbFirst : bool) (dummyData : Z) :
  keeps P (configure env mode clockFrequency wordLength lsbFirst dummyData).
Proof. intros fuel w a w' [= _ <-]. apply P_configure. Qed.

Lemma keeps_selectDevice : keeps P (@selectDevice Device).
Proof. intros fuel w a w' [= _ <-]. apply P_mark. Qed.

Lemma keeps_deselectDevice : keeps P (@deselectDevice Device).
Proof. intros fuel w a w' [= _ <-]. apply P_mark. Qed.

Lemma keeps_executeTransaction (operations : list SpiMasterTransfer) :
  keeps P (executeTransaction env operations).
Proof.
  intros fuel w a w'. unfold run, executeTransaction.
  destruct (transactionAnswer env (busEvents w) operations) as [code results].
  intros [= _ <-]. apply P_transaction.
Qed.

Lemma keeps_sleepFor (duration : Z) : keeps P (@sleepFor Device duration).
Proof. apply keeps_ret. Qed.

Ltac keeps_step :=
  lazymatch goal with
  | |- keeps _ (ret _) => apply keeps_ret
  | |- keeps _ outOfFuel => apply keeps_outOfFuel
  | |- keeps _ (now _) => apply keeps_now
  | |- keeps _ (sleepFor _) => apply keeps_sleepFor
  | |- keeps _ (configure _ _ _ _ _ _) => apply keeps_configure
  | |- keeps _ selectDevice => apply keeps_selectDevice
  | |- keeps _ deselectDevice => apply keeps_deselectDevice
  | |- keeps _ (executeTransaction _ _) => apply keeps_executeTransaction
  | |- keeps _ (withFuel _) => apply keeps_withFuel; intros
  | |- keeps _ (bind _ _) => apply keeps_bind; [|intros]
  | |- keeps _ (if ?b then _ else _) => destruct b
  | |- keeps _ (match ?x with (_, _) => _ end) => destruct x
  | |- keeps _ (match ?x with inl _ => _ | inr _ => _ end) => destruct x
  | |- keeps _ (match ?x with Some _ => _ | None => _ end) => destruct x
  end.

Ltac keeps_all := cbv zeta; repeat (keeps_step; cbv zeta); try assumption.

Lemma keeps_waitWhile_loop (functor : Z -> bool) (deadline : Z) (n : nat) :
  keeps P (waitWhile_loop env functor deadline n).
Proof.
  induction n as [|n IH]; cbn [waitWhile_loop]; keeps_all.
Qed.

Lemma keeps_waitWhile (duration : Z) (functor : Z -> bool) :
  keeps P (waitWhile env duration functor).
Proof. unfold waitWhile. keeps_all. apply keeps_waitWhile_loop. Qed.

Lemma keeps_waitWhileBusy (duration : Z) : keeps P (waitWhileBusy env duration).
Proof. unfold waitWhileBusy. keeps_all. apply keeps_waitWhile. Qed.

Lemma keeps_readDataBlock (buffer : list Z) (size duration : Z) :
  keeps P (readDataBlock env buffer size duration).
Proof. unfold readDataBlock. keeps_all. apply keeps_waitWhile. Qed.

Lemma keeps_writeDataBlock (token : Z) (buffer : list Z) (size duration : Z) :
  keeps P (writeDataBlock env token buffer size duration).
Proof. unfold writeDataBlock. keeps_all. apply keeps_waitWhileBusy. Qed.

Lemma keeps_readResponse_loop (n : nat) :
  forall buffer bytesRead validBytesRead,
    keeps P (readResponse_loop env n buffer bytesRead validBytesRead).
Proof.
  induction n as [|n IH]; intros buffer bytesRead validBytesRead;
    cbn [readResponse_loop]; keeps_all; apply IH.
Qed.

Lemma keeps_readResponse (buffer : list Z) : keeps P (readResponse env buffer).
Proof. apply keeps_readResponse_loop. Qed.

Lemma keeps_readR1 : keeps P (readR1 env).
Proof. unfold readR1. keeps_all. apply keeps_readResponse. Qed.

Lemma keeps_readR3 : keeps P (readR3 env).
Proof. unfold readR3. keeps_all. apply keeps_readResponse. Qed.

Lemma keeps_writeCmd (command argument crc7 : Z) (stuffByte : bool) :
  keeps P (writeCmd env command argument crc7 stuffByte).
Proof. unfold writeCmd. keeps_all. Qed.

Lemma keeps_writeCmdReadR1 (command argument crc7 : Z) (stuffByte : bool) :
  keeps P (writeCmdReadR1 env command argument crc7 stuffByte).
Proof.
  unfold writeCmdReadR1. keeps_all; [apply keeps_writeCmd | apply keeps_readR1].
Qed.

Lemma keeps_writeCmdReadR3 (command argument crc7 : Z) (stuffByte : bool) :
  keeps P (writeCmdReadR3 env command argument crc7 stuffByte).
Proof.
  unfold writeCmdReadR3. keeps_all; [apply keeps_writeCmd | apply keeps_readR3].
Qed.

Lemma keeps_writeAcmdReadR1 (command argument crc7 : Z) (stuffByte : bool) :
  keeps P (writeAcmdReadR1 env command argument crc7 stuffByte).
Proof.
  unfold writeAcmdReadR1, writeAcmd, executeCmd55. keeps_all;
    first [apply keeps_writeCmdReadR1 | apply keeps_writeCmd | apply keeps_readR1].
Qed.

Ltac keeps_commands :=
  keeps_all;
  first [ apply keeps_writeCmdReadR1 | apply keeps_writeCmdReadR3
        | apply keeps_writeAcmdReadR1 | apply keeps_waitWhileBusy
        | apply keeps_readDataBlock | apply keeps_writeDataBlock ].

Lemma keeps_executeCmd9 : keeps P (executeCmd9 env).
Proof. unfold executeCmd9. keeps_commands. Qed.

Lemma keeps_executeCmd12 (duration : Z) : keeps P (executeCmd12 env duration).
Proof. unfold executeCmd12. keeps_commands. Qed.

Lemma keeps_executeCmd38 (duration : Z) : keeps P (executeCmd38 env duration).
Proof. unfold executeCmd38. keeps_commands. Qed.

Lemma keeps_erase_selected (card : SpiSdMmcCard) (address size firstBlock blocks : Z) :
  keeps P (erase_selected env card address size firstBlock blocks).
Proof.
  unfold erase_selected, executeCmd32, executeCmd33. keeps_all;
    first [apply keeps_writeCmdReadR1 | apply keeps_executeCmd38].
Qed.

Lemma keeps_program_blocks (card : SpiSdMmcCard) (buffer : list Z) (blocks : Z)
    (n : nat) :
  forall block bytesWritten,
    keeps P (program_blocks env card buffer blocks n block bytesWritten).
Proof.
  induction n as [|n IH]; intros block bytesWritten; cbn [program_blocks];
    keeps_all; first [apply keeps_writeDataBlock | apply IH].
Qed.

Lemma keeps_program_selected (card : SpiSdMmcCard) (address : Z) (buffer : list Z)
    (firstBlock blocks : Z) :
  keeps P (program_selected env card address buffer firstBlock blocks).
Proof.
  unfold program_selected, executeCmd24, executeCmd25. keeps_all;
    first [ apply keeps_writeCmdReadR1 | apply keeps_program_blocks
          | apply keeps_waitWhileBusy ].
Qed.

Lemma keeps_read_blocks (card : SpiSdMmcCard) (n : nat) :
  forall block buffer bytesRead,
    keeps P (read_blocks env card n block buffer bytesRead).
Proof.
  induction n as [|n IH]; intros block buffer bytesRead; cbn [read_blocks];
    keeps_all; first [apply keeps_readDataBlock | apply IH].
Qed.

Lemma keeps_read_selected (card : SpiSdMmcCard) (address : Z) (buffer : list Z)
    (firstBlock blocks : Z) :
  keeps P (read_selected env card address buffer firstBlock blocks).
Proof.
  unfold read_selected, executeCmd17, executeCmd18. keeps_all;
    first [ apply keeps_writeCmdReadR1 | apply keeps_read_blocks
          | apply keeps_executeCmd12 ].
Qed.

Lemma keeps_initialize_acmd41 (type : CardType) (deadline : Z) (n : nat) :
  keeps P (initialize_acmd41 env type deadline n).
Proof.
  induction n as [|n IH]; cbn [initialize_acmd41]; unfold executeAcmd41;
    keeps_all; apply keeps_writeAcmdReadR1.
Qed.

Lemma keeps_initialize_cmd1 (deadline : Z) (n : nat) :
  keeps P (initialize_cmd1 env deadline n).
Proof.
  induction n as [|n IH]; cbn [initialize_cmd1]; unfold executeCmd1;
    keeps_all; apply keeps_writeCmdReadR1.
Qed.

Lemma keeps_initialize_csd (card : SpiSdMmcCard) :
  keeps P (initialize_csd env card).
Proof. unfold initialize_csd. keeps_all. apply keeps_executeCmd9. Qed.

Lemma keeps_initialize_configured (card : SpiSdMmcCard) :
  keeps P (initialize_configured env card).
Proof.
  unfold initialize_configured, executeCmd58, executeCmd16. keeps_all;
    first [ apply keeps_writeCmdReadR3 | apply keeps_writeCmdReadR1
          | apply keeps_initialize_csd ].
Qed.

Lemma keeps_initialize_selected (card : SpiSdMmcCard) :
  keeps P (initialize_selected env card).
Proof.
  unfold initialize_selected, executeCmd0, executeCmd8. keeps_all;
    first [ apply keeps_writeCmdReadR1 | apply keeps_writeCmdReadR3
          | apply keeps_initialize_acmd41 | apply keeps_initialize_cmd1
          | apply keeps_initialize_configured ].
Qed.

Lemma keeps_erase (card : SpiSdMmcCard) (address size : Z) :
  keeps P (erase env card address size).
Proof. unfold erase. keeps_all. apply keeps_erase_selected. Qed.

Lemma keeps_program (card : SpiSdMmcCard) (address : Z) (buffer : option (list Z))
    (size : Z) :
  keeps P (program env card address buffer size).
Proof. unfold program. keeps_all. apply keeps_program_selected. Qed.

Lemma keeps_read (card : SpiSdMmcCard) (address : Z) (buffer : option (list Z))
    (size : Z) :
  keeps P (read env card address buffer size).
Proof. unfold read. keeps_all. apply keeps_read_selected. Qed.

Lemma keeps_initialize (card : SpiSdMmcCard) : keeps P (initialize env card).
Proof. unfold initialize. keeps_all. apply keeps_initialize_selected. Qed.

End Frames.

(** ** The course of an operation on the bus *)

Section Courses.

Context {Device : Type}.
Variable env : Env Device.
Hypothesis Hclock : clockAdvances env.

Lemma returns_keeps {A : Type} (m : Driver Device A) (w : World Device)
    (Q : A -> World Device -> Prop) (P : World Device -> World Device -> Prop) :
  returns m w Q -> keeps P m -> returns m w (fun a w' => Q a w' /\ P w w').
Proof.
  intros (fuel0 & a & w' & Hrun & HQ) Hkeeps.
  exists fuel0, a, w'. split; [exact Hrun|]. split; [exact HQ|].
  apply (Hkeeps fuel0 w a w'). apply Hrun. lia.
Qed.

Lemma added_refl (allowed : BusEvent -> bool) (w : World Device) :
  added allowed w w.
Proof. exists []. split; [reflexivity | constructor]. Qed.

Lemma added_trans (allowed : BusEvent -> bool) (w1 w2 w3 : World Device) :
  added allowed w1 w2 -> added allowed w2 w3 -> added allowed w1 w3.
Proof.
  intros (events1 & Hlog1 & Hall1) (events2 & Hlog2 & Hall2).
  exists (events2 ++ events1). split.
  - rewrite Hlog2, Hlog1. apply app_assoc.
  - apply Forall_app. split; assumption.
Qed.

Lemma added_tick (allowed : BusEvent -> bool) (w : World Device) :
  added allowed w (mkWorld (S (ticksRead w)) (busEvents w) (spiDevice_ w)).
Proof. exists []. split; [reflexivity | constructor]. Qed.

Lemma added_event (allowed : BusEvent -> bool) (e : BusEvent) (w : World Device) :
  allowed e = true -> added allowed w (logEvent e w).
Proof.
  intros He. exists [e]. split; [reflexivity | repeat constructor; exact He].
Qed.

(** The guarded parts make transactions only. *)
Lemma erase_selected_transacts (card : SpiSdMmcCard)
    (address size firstBlock blocks : Z) (w : World Device) :
  returns (erase_selected env card address size firstBlock blocks) w
    (fun _ w' => added isTransaction w w').
Proof.
  eapply returns_weaken.
  - apply returns_keeps; [apply (erase_selected_reported env Hclock)|].
    apply (keeps_erase_selected env (added isTransaction)
             (added_refl _) (added_trans _) (added_tick _)).
    intros. apply added_event. reflexivity.
  - cbv beta. tauto.
Qed.

Lemma program_selected_transacts (card : SpiSdMmcCard) (address : Z)
    (buffer : list Z) (firstBlock blocks : Z) (w : World Device) :
  returns (program_selected env card address buffer firstBlock blocks) w
    (fun _ w' => added isTransaction w w').
Proof.
  eapply returns_weaken.
  - apply returns_keeps; [apply (program_selected_reported env Hclock)|].
    apply (keeps_program_selected env (added isTransaction)
             (added_refl _) (added_trans _) (added_tick _)).
    intros. apply added_event. reflexivity.
  - cbv beta. tauto.
Qed.

Lemma read_selected_transacts (card : SpiSdMmcCard) (address : Z)
    (buffer : list Z) (firstBlock blocks : Z) (w : World Device) :
  returns (read_selected env card address buffer firstBlock blocks) w
    (fun _ w' => added isTransaction w w').
Proof.
  eapply returns_weaken.
  - apply returns_keeps; [apply (read_selected_reported env Hclock)|].
    apply (keeps_read_selected env (added isTransaction)
             (added_refl _) (added_trans _) (added_tick _)).
    intros. apply added_event. reflexivity.
  - cbv beta. tauto.
Qed.

Lemma initialize_selected_calls (card : SpiSdMmcCard) (w : World Device) :
  returns (initialize_selected env card) w (fun _ w' => added isCall w w').
Proof.
  eapply returns_weaken.
  - apply returns_keeps; [apply (initialize_selected_reported env Hclock)|].
    apply (keeps_initialize_selected env (added isCall)
             (added_refl _) (added_trans _) (added_tick _)).
    + intros. apply added_event. reflexivity.
    + intros. apply added_event. reflexivity.
  - cbv beta. tauto.
Qed.

Ltac refused_request :=
  repeat lazymatch goal with
    | |- returns (if ?b then _ else _) _ _ => destruct b
    | |- returns (match ?b with Some _ => _ | None => _ end) _ _ => destruct b
    end;
  try (apply returns_ret; left; reflexivity).

Ltac configured_request :=
  eapply returns_bind; [apply configure_logs|];
  cbv beta; intros ? ? [_ ?];
  lazymatch goal with
  | Hlog : busEvents ?w1 = EvConfigure _ _ _ _ _ ?code :: _
    |- returns (if negb (?code =? 0) then _ else _) ?w1 _ =>
      destruct (Z.eqb_spec code 0) as [->|?]; cbn [negb];
      [|apply returns_ret; right; left; cbn [fst]; split; assumption]
  end;
  eapply returns_bind; [apply selectDevice_logs|]; cbv beta; intros.

Ltac guarded_request :=
  lazymatch goal with
  | Hlog1 : busEvents ?w1 = _ :: busEvents ?w,
    Hlog2 : busEvents ?w2 = EvSelect :: busEvents ?w1,
    Hbody : added isTransaction ?w2 ?w3 |- returns _ ?w3 _ =>
      destruct Hbody as (transactions & Hlog3 & Hall);
      eapply returns_bind; [apply deselectDevice_logs|];
      cbv beta; intros ? ? Hlog4;
      apply returns_ret; right; right; exists transactions;
      split; [rewrite Hlog4, Hlog3, Hlog2, Hlog1; reflexivity | exact Hall]
  end.

Lemma erase_course (card : SpiSdMmcCard) (address size : Z) (w : World Device) :
  returns (erase env card address size) w
    (fun code w' => guardedCourse (clockFrequency_ card) code w w').
Proof.
  unfold erase, guardedCourse. refused_request. configured_request.
  eapply returns_bind; [apply erase_selected_transacts|].
  cbv beta. intros code w3 Hbody. guarded_request.
Qed.

Lemma program_course (card : SpiSdMmcCard) (address : Z)
    (buffer : option (list Z)) (size : Z) (w : World Device) :
  returns (program env card address buffer size) w
    (fun r w' => guardedCourse (clockFrequency_ card) (fst r) w w').
Proof.
  unfold program, guardedCourse. refused_request. configured_request.
  eapply returns_bind; [apply program_selected_transacts|].
  cbv beta. intros r w3 Hbody. guarded_request.
Qed.

Lemma read_course (card : SpiSdMmcCard) (address : Z)
    (buffer : option (list Z)) (size : Z) (w : World Device) :
  returns (read env card address buffer size) w
    (fun r w' => guardedCourse (clockFrequency_ card) (fst (fst r)) w w').
Proof.
  unfold read, guardedCourse. refused_request. configured_request.
  eapply returns_bind; [apply read_selected_transacts|].
  cbv beta. intros [[code bytesRead] data] w3 Hbody. guarded_request.
Qed.

End Courses.

(** X4.  read, program and erase use the bus in one guarded course.  Each
    of them returns (given a clock that advances) after one of three
    courses: it made no call at all (a request refused for its arguments
    or for the state of the card, or an empty one); or the configuration of
    the bus to the clock frequency of the card was refused and its error
    code is returned; or the bus was configured once, the device selected,
    transactions made and nothing else, and the device deselected, whether
    the operation succeeded or failed on the way.  So every command reaches
    the card while it is selected, and the card is never left selected. *)
Theorem operations_take_one_guarded_course {Device : Type} (env : Env Device)
    (card : SpiSdMmcCard) (address size : Z) (buffer : option (list Z))
    (w : World Device) :
  clockAdvances env ->
  returns (read env card address buffer size) w
    (fun r w' => guardedCourse (clockFrequency_ card) (fst (fst r)) w w')
  /\ returns (program env card address buffer size) w
       (fun r w' => guardedCourse (clockFrequency_ card) (fst r) w w')
  /\ returns (erase env card address size) w
       (fun code w' => guardedCourse (clockFrequency_ card) code w w').
Proof.
  intros Hclock. split; [|split].
  - apply read_course, Hclock.
  - apply program_course, Hclock.
  - apply erase_course, Hclock.
Qed.

Lemma operations_take_one_guarded_course_witness :
  returns (erase busyBus openedCard 0 512) world0
    (fun code w' => guardedCourse 25000000 code world0 w').
Proof.
  apply (operations_take_one_guarded_course busyBus openedCard 0 512 None world0).
  apply scriptedBus_clockAdvances.
Defined.

(** X5.  The framing of the initialization.  [initialize] (given a clock
    that advances) returns after one of three courses on the bus:
    - the configuration to 400 kHz, mode 0, 8-bit words is refused, and
      its error code is returned with nothing else done;
    - the transaction that clocks 10 dummy bytes (at least 74 clock
      cycles), made while the device is not yet selected, fails, and its
      error code is returned;
    - the device is selected after these two calls succeeded; the
      negotiation with the card consists of calls of the SPI master only,
      and whatever it gives, the function ends by clocking one byte more
      ([~SelectGuard]) and deselecting the device. *)
Theorem initialize_frames_the_negotiation {Device : Type} (env : Env Device)
    (card : SpiSdMmcCard) (w : World Device) :
  clockAdvances env ->
  let configured code := EvConfigure SpiMode_0 400000 8 false UINT32_MAX code in
  let clocked size code results :=
    EvTransaction [mkTransfer None false size] code results in
  returns (initialize env card) w
    (fun r w' =>
       (fst r <> 0 /\ snd r = card
        /\ busEvents w' = configured (fst r) :: busEvents w)
       \/ (fst r <> 0 /\ snd r = card
           /\ exists results,
                busEvents w'
                = clocked 10 (fst r) results :: configured 0 :: busEvents w)
       \/ (exists results negotiation code' results',
             busEvents w'
             = EvDeselect :: clocked 1 code' results'
               :: negotiation
               ++ EvSelect :: clocked 10 0 results :: configured 0 :: busEvents w
             /\ Forall (fun e => isCall e = true) negotiation)).
Proof.
  intros Hclock configured clocked. unfold initialize.
  change ((74 + CHAR_BIT - 1) / CHAR_BIT) with 10.
  eapply returns_bind; [apply configure_logs|].
  cbv beta. intros code w1 [_ Hlog1].
  destruct (Z.eqb_spec code 0) as [->|Hcode]; cbn [negb].
  2:{ apply returns_ret. left. cbn [fst snd]. repeat split; assumption. }
  eapply returns_bind; [apply executeTransaction_logs|].
  cbv beta. intros [code results] w2 [_ Hlog2]. cbn [fst snd] in Hlog2.
  destruct (Z.eqb_spec code 0) as [->|Hcode]; cbn [negb].
  2:{ apply returns_ret. right. left. cbn [fst snd]. repeat split; try assumption.
      exists results. rewrite Hlog2, Hlog1. reflexivity. }
  eapply returns_bind; [apply selectDevice_logs|].
  cbv beta. intros _ w3 Hlog3.
  eapply returns_bind; [apply (initialize_selected_calls env Hclock)|].
  cbv beta. intros result w4 (negotiation & Hlog4 & Hcalls).
  eapply returns_bind; [apply executeTransaction_logs|].
  cbv beta. intros [code' results'] w5 [_ Hlog5]. cbn [fst snd] in Hlog5.
  eapply returns_bind; [apply deselectDevice_logs|].
  cbv beta. intros _ w6 Hlog6.
  apply returns_ret. right. right.
  exists results, negotiation, code', results'. split; [|exact Hcalls].
  rewrite Hlog6, Hlog5, Hlog4, Hlog3, Hlog2, Hlog1. reflexivity.
Qed.

Lemma initialize_frames_the_negotiation_witness :
  let configured code := EvConfigure SpiMode_0 400000 8 false UINT32_MAX code in
  let clocked size code results :=
    EvTransaction [mkTransfer None false size] code results in
  returns (initialize sdhcBus closedCard) world0
    (fun r w' =>
       (fst r <> 0 /\ snd r = closedCard
        /\ busEvents w' = configured (fst r) :: busEvents world0)
       \/ (fst r <> 0 /\ snd r = closedCard
           /\ exists results,
                busEvents w'
                = clocked 10 (fst r) results :: configured 0 :: busEvents world0)
       \/ (exists results negotiation code' results',
             busEvents w'
             = EvDeselect :: clocked 1 code' results'
               :: negotiation
               ++ EvSelect :: clocked 10 0 results :: configured 0
                  :: busEvents world0
             /\ Forall (fun e => isCall e = true) negotiation)).
Proof.
  apply (initialize_frames_the_negotiation sdhcBus closedCard world0).
  apply scriptedBus_clockAdvances.
Defined.

Section FailedOpen.

Context {Device : Type}.
Variable env : Env Device.
Hypothesis Hclock : clockAdvances env.

Lemma initialize_keeps_device (card : SpiSdMmcCard) (w : World Device) :
  returns (initialize env card) w (fun _ w' => spiDevice_ w' = spiDevice_ w).
Proof.
  eapply returns_weaken.
  - apply returns_keeps; [apply (initialize_classified env Hclock)|].
    apply (keeps_initialize env sameDevice); unfold sameDevice; intros;
      try reflexivity; try (split; reflexivity).
    etransitivity; eassumption.
  - cbv beta. unfold sameDevice. tauto.
Qed.

Lemma close_runs (card : SpiSdMmcCard) (w : World Device) :
  let closed := deviceClose env (spiDevice_ w) in
  returns (close env card) w
    (fun r w' =>
       r = (fst closed,
            if deviceIsOpened env (snd closed) then card else deinitialize card)
       /\ w' = setDevice (snd closed) w).
Proof.
  intros closed. exists 0%nat. unfold run, close, bind, spiDeviceClose, isOpened, ret.
  subst closed. destruct (deviceClose env (spiDevice_ w)) as [code device].
  cbn [fst snd spiDevice_ setDevice].
  destruct (deviceIsOpened env device); cbn [negb]; eexists _, _;
    (split; [reflexivity|]); split; reflexivity.
Qed.

Lemma isOpened_returns (w : World Device) :
  returns (isOpened env) w
    (fun opened w' => opened = deviceIsOpened env (spiDevice_ w) /\ w' = w).
Proof. exists 0%nat. eexists _, _. split; [reflexivity | split; reflexivity]. Qed.

Lemma spiDeviceOpen_returns (w : World Device) :
  returns (spiDeviceOpen env) w
    (fun code w' =>
       code = fst (deviceOpen env (spiDevice_ w))
       /\ w' = setDevice (snd (deviceOpen env (spiDevice_ w))) w).
Proof.
  exists 0%nat. unfold run, spiDeviceOpen.
  destruct (deviceOpen env (spiDevice_ w)) as [code device].
  eexists _, _. split; [reflexivity | split; reflexivity].
Qed.

End FailedOpen.

(** X8.  A failed initialization undoes the open.  When the device was not
    opened and [SpiDevice::open()] succeeds, [open] initializes the card;
    it returns (given a clock that advances), and
    - with 0 the device is left as [SpiDevice::open()] left it: opened;
    - with an error code [SpiDevice::close()] has been called on the device
      just opened (the scope guard), and if the device is then not opened
      the card object is deinitialized: its type is unknown again. *)
Theorem failed_initialization_closes_the_device {Device : Type} (env : Env Device)
    (card : SpiSdMmcCard) (w : World Device) :
  clockAdvances env ->
  deviceIsOpened env (spiDevice_ w) = false ->
  fst (deviceOpen env (spiDevice_ w)) = 0 ->
  let opened := snd (deviceOpen env (spiDevice_ w)) in
  returns (open env card) w
    (fun r w' =>
       (fst r = 0 -> spiDevice_ w' = opened)
       /\ (fst r <> 0 ->
             spiDevice_ w' = snd (deviceClose env opened)
             /\ (deviceIsOpened env (spiDevice_ w') = false ->
                   type_ (snd r) = unknown /\ blocksCount_ (snd r) = 0))).
Proof.
  intros Hclock Hclosed Hopen opened. unfold open.
  eapply returns_bind; [apply isOpened_returns|].
  cbv beta. intros b w0 [-> ->]. rewrite Hclosed.
  eapply returns_bind; [apply spiDeviceOpen_returns|].
  cbv beta. intros code w1 [-> ->]. rewrite Hopen. cbn [Z.eqb negb].
  eapply returns_bind; [apply (initialize_keeps_device env Hclock)|].
  cbv beta. intros [code card1] w2 Hdevice. cbn [spiDevice_ setDevice] in Hdevice.
  fold opened in Hdevice.
  destruct (Z.eqb_spec code 0) as [->|Hcode]; cbn [negb].
  - apply returns_ret. cbn [fst snd]. split; [intros _; exact Hdevice|].
    intros Hne. contradiction.
  - eapply returns_bind; [apply close_runs|].
    cbv beta. intros [code' card2] w3 [[= -> ->] ->].
    apply returns_ret. cbn [fst snd spiDevice_ setDevice]. rewrite Hdevice.
    split; [intros Hzero; contradiction|]. intros _. split; [reflexivity|].
    intros Hnow. rewrite Hnow. split; reflexivity.
Qed.

Lemma failed_initialization_closes_the_device_witness :
  returns (open busyBus closedCard) (mkWorld 0 [] 0%nat)
    (fun r w' =>
       (fst r = 0 -> spiDevice_ w' = 1%nat)
       /\ (fst r <> 0 ->
             spiDevice_ w' = 0%nat
             /\ (deviceIsOpened busyBus (spiDevice_ w') = false ->
                   type_ (snd r) = unknown /\ blocksCount_ (snd r) = 0))).
Proof.
  apply (failed_initialization_closes_the_device busyBus closedCard
           (mkWorld 0 [] 0%nat)).
  - apply scriptedBus_clockAdvances.
  - reflexivity.
  - reflexivity.
Defined.

(** ** Responses of the card *)

Section Responses.

Context {Device : Type}.
Variable env : Env Device.

Lemma run_poll (fuel : nat) (w : World Device) :
  run (executeTransaction env poll) fuel w
  = Some (transactionAnswer env (busEvents w) poll, polled env w).
Proof.
  unfold run, executeTransaction, polled.
  destruct (transactionAnswer env (busEvents w) poll); reflexivity.
Qed.

(** The loop of [readResponse] on the one-byte buffer of [readR1], after
    [bytesRead] bytes that were all 0xff. *)
Lemma readR1_loop_skips (b : Z) (k : nat) :
  forall (n fuel : nat) (x bytesRead : Z) (w : World Device),
    0 <= bytesRead -> bytesRead + Z.of_nat k < 9 -> (k < n)%nat ->
    (forall i, (i < k)%nat -> delivers (answerAt env i w) 0xff) ->
    delivers (answerAt env k w) b -> b <> 0xff ->
    run (readResponse_loop env n [x] bytesRead 0) fuel w
    = Some ((0, [b]), afterPolls env (S k) w).
Proof.
  induction k as [|k IH]; intros n fuel x bytesRead w Hread Hleft Hn Hidle Hbyte Hvalid;
    (destruct n as [|n]; [lia|]); cbn [readResponse_loop length].
  - change (size_t (Z.of_nat 1 + 8)) with 9.
    replace (bytesRead <? 9) with true by zcompare. cbn [negb].
    change (size_t (Z.of_nat 1 - 0)) with 1.
    change [mkTransfer None true 1] with poll.
    rewrite (run_bind _ _ fuel w (polled env w) _ (run_poll fuel w)).
    destruct Hbyte as [Hcode Hdelivered]. unfold answerAt in Hcode, Hdelivered.
    cbn [afterPolls] in Hcode, Hdelivered.
    destruct (transactionAnswer env (busEvents w) poll) as [code results] eqn:Hanswer.
    cbn [fst snd] in Hcode, Hdelivered. subst code. cbn [Z.eqb negb].
    rewrite Hdelivered. cbn [Z.to_nat store firstn skipn length app Nat.sub].
    cbn [invalidBytesOf].
    replace (b =? 255) with false by zcompare. cbn [negb].
    cbn [Z.of_nat Z.sub Z.eqb Pos.eqb negb andb].
    reflexivity.
  - change (size_t (Z.of_nat 1 + 8)) with 9.
    replace (bytesRead <? 9) with true by zcompare. cbn [negb].
    change (size_t (Z.of_nat 1 - 0)) with 1.
    change [mkTransfer None true 1] with poll.
    rewrite (run_bind _ _ fuel w (polled env w) _ (run_poll fuel w)).
    destruct (Hidle 0%nat ltac:(lia)) as [Hcode Hdelivered].
    unfold answerAt in Hcode, Hdelivered. cbn [afterPolls] in Hcode, Hdelivered.
    destruct (transactionAnswer env (busEvents w) poll) as [code results] eqn:Hanswer.
    cbn [fst snd] in Hcode, Hdelivered. subst code. cbn [Z.eqb negb].
    rewrite Hdelivered. cbn [Z.to_nat store firstn skipn length app Nat.sub].
    cbn [invalidBytesOf Z.eqb Pos.eqb negb].
    cbn [Z.of_nat Z.add Z.sub Z.eqb Pos.eqb negb andb Z.pos_sub Pos.of_succ_nat
         Pos.succ].
    rewrite size_t_small by lia.
    apply (IH n fuel 255 (bytesRead + 1) (polled env w)); try lia; try assumption.
    intros i Hi. apply (Hidle (S i)). lia.
Qed.

Lemma readR1_loop_gives_up (k : nat) :
  forall (n fuel : nat) (x bytesRead : Z) (w : World Device),
    0 <= bytesRead -> bytesRead + Z.of_nat k = 9 -> (k <= n)%nat ->
    (forall i, (i < k)%nat -> delivers (answerAt env i w) 0xff) ->
    option_map (fun r => (fst (fst r), snd r))
      (run (readResponse_loop env n [x] bytesRead 0) fuel w)
    = Some (ETIMEDOUT, afterPolls env k w).
Proof.
  induction k as [|k IH]; intros n fuel x bytesRead w Hread Hleft Hn Hidle.
  - assert (bytesRead = 9) by lia. subst bytesRead.
    destruct n; cbn [readResponse_loop length]; reflexivity.
  - destruct n as [|n]; [lia|]. cbn [readResponse_loop length].
    change (size_t (Z.of_nat 1 + 8)) with 9.
    replace (bytesRead <? 9) with true by zcompare. cbn [negb].
    change (size_t (Z.of_nat 1 - 0)) with 1.
    change [mkTransfer None true 1] with poll.
    rewrite (run_bind _ _ fuel w (polled env w) _ (run_poll fuel w)).
    destruct (Hidle 0%nat ltac:(lia)) as [Hcode Hdelivered].
    unfold answerAt in Hcode, Hdelivered. cbn [afterPolls] in Hcode, Hdelivered.
    destruct (transactionAnswer env (busEvents w) poll) as [code results] eqn:Hanswer.
    cbn [fst snd] in Hcode, Hdelivered. subst code. cbn [Z.eqb negb].
    rewrite Hdelivered. cbn [Z.to_nat store firstn skipn length app Nat.sub].
    cbn [invalidBytesOf Z.eqb Pos.eqb negb].
    cbn [Z.of_nat Z.add Z.sub Z.eqb Pos.eqb negb andb Z.pos_sub Pos.of_succ_nat
         Pos.succ].
    rewrite size_t_small by lia.
    apply (IH n fuel 255 (bytesRead + 1) (polled env w)); try lia.
    intros i Hi. apply (Hidle (S i)). lia.
Qed.

End Responses.

(** X9.  The R1 response is the first byte other than 0xff among at most 9
    bytes.  [readR1] reads the bus one byte at a time.  When the card
    answers 0xff [k] times ([k <= 8]) and then a byte [b] other than 0xff,
    [readR1] returns 0 and [b] after exactly [k + 1] transactions; when the
    card answers 0xff nine times, [readR1] gives up with [ETIMEDOUT] after
    exactly 9 transactions. *)
Theorem readR1_takes_first_valid_byte {Device : Type} (env : Env Device)
    (w : World Device) :
  (forall (k : nat) (b : Z),
      (k <= 8)%nat ->
      (forall i, (i < k)%nat -> delivers (answerAt env i w) 0xff) ->
      delivers (answerAt env k w) b -> b <> 0xff ->
      forall fuel,
        run (readR1 env) fuel w = Some ((0, b), afterPolls env (S k) w))
  /\ ((forall i, (i < 9)%nat -> delivers (answerAt env i w) 0xff) ->
      forall fuel,
        option_map (fun r => (fst (fst r), snd r)) (run (readR1 env) fuel w)
        = Some (ETIMEDOUT, afterPolls env 9 w)).
Proof.
  split.
  - intros k b Hk Hidle Hbyte Hvalid fuel.
    unfold readR1, readResponse. cbn [length Nat.add].
    rewrite (run_bind _ _ fuel w (afterPolls env (S k) w) (0, [b])
               (readR1_loop_skips env b k 9 fuel 0 0 w ltac:(lia) ltac:(lia)
                  ltac:(lia) Hidle Hbyte Hvalid)).
    reflexivity.
  - intros Hidle fuel.
    pose proof (readR1_loop_gives_up env 9 9 fuel 0 0 w ltac:(lia) ltac:(lia)
                  ltac:(lia) Hidle) as Hloop.
    unfold readR1, readResponse. cbn [length Nat.add].
    unfold run, bind in *.
    destruct (readResponse_loop env 9 [0] 0 0 fuel w) as [[[code response] w']|];
      [|discriminate].
    cbn in Hloop |- *. exact Hloop.
Qed.

Lemma readR1_takes_first_valid_byte_witness :
  run (readR1 (fillBus [0xff; 0xff; 0x01] 0xff)) 0 world0
  = Some ((0, 0x01), afterPolls (fillBus [0xff; 0xff; 0x01] 0xff) 3 world0).
Proof.
  apply (proj1 (readR1_takes_first_valid_byte
                  (fillBus [0xff; 0xff; 0x01] 0xff) world0) 2%nat 0x01).
  - lia.
  - intros [|[|i]] Hi; [split; reflexivity | split; reflexivity | lia].
  - split; reflexivity.
  - discriminate.
Defined.

(** ** The frame of a command *)

Section CommandFrame.

Lemma argument_byte_bit (argument shift k : Z) :
  0 <= shift -> 0 <= k ->
  Z.testbit (Z.shiftl (uint8 (Z.shiftr argument shift)) shift) k
  = (shift <=? k) && (k <? shift + 8) && Z.testbit argument k.
Proof.
  intros Hshift Hk. unfold uint8.
  destruct (Z.leb_spec shift k) as [Hlow|Hlow]; cbn [andb].
  - rewrite Z.shiftl_spec by lia.
    destruct (Z.ltb_spec k (shift + 8)) as [Hhigh|Hhigh]; cbn [andb].
    + rewrite Z.mod_pow2_bits_low by lia.
      rewrite Z.shiftr_spec by lia. f_equal. lia.
    + apply Z.mod_pow2_bits_high. lia.
  - apply Z.shiftl_spec_low. lia.
Qed.

Lemma argument_bytes_assemble (argument : Z) :
  0 <= argument < 2 ^ 32 ->
  uint32
    (Z.lor
       (Z.lor
          (Z.lor (Z.shiftl (uint8 (Z.shiftr argument 24)) 24)
                 (Z.shiftl (uint8 (Z.shiftr argument 16)) 16))
          (Z.shiftl (uint8 (Z.shiftr argument 8)) 8))
       (uint8 argument))
  = argument.
Proof.
  intros Hargument.
  assert (Hassembled :
            Z.lor
              (Z.lor
                 (Z.lor (Z.shiftl (uint8 (Z.shiftr argument 24)) 24)
                        (Z.shiftl (uint8 (Z.shiftr argument 16)) 16))
                 (Z.shiftl (uint8 (Z.shiftr argument 8)) 8))
              (uint8 argument)
            = argument).
  { apply Z.bits_inj'. intros k Hk.
    rewrite !Z.lor_spec, !argument_byte_bit by lia.
    replace (uint8 argument) with (Z.shiftl (uint8 (Z.shiftr argument 0)) 0)
      by (rewrite Z.shiftl_0_r, Z.shiftr_0_r; reflexivity).
    rewrite argument_byte_bit by lia.
    destruct (Z.lt_ge_cases k 32) as [Hin|Hout].
    - destruct (Z.testbit argument k); [|rewrite !andb_false_r; reflexivity].
      rewrite !andb_true_r. zcompare.
    - replace (Z.testbit argument k) with false; [rewrite !andb_false_r; reflexivity|].
      symmetry. rewrite <- (Z.mod_small argument (2 ^ 32)) by lia.
      apply Z.mod_pow2_bits_high. lia. }
  rewrite Hassembled. unfold uint32. apply Z.mod_small. exact Hargument.
Qed.

End CommandFrame.

(** X10.  The argument of a command comes back from its R3 response.
    [writeCmd] sends the 32-bit argument as four bytes, most significant
    first, in one write transfer of 6 bytes; [readR3] assembles the 32-bit
    value of the response from the four bytes after R1 in the same order.
    So on a card that answers the command with a byte R1 other than 0xff
    followed by the four argument bytes it was sent, [writeCmdReadR3]
    returns 0, R1 and the argument itself, after exactly two
    transactions. *)
Theorem command_argument_round_trip {Device : Type} (env : Env Device)
    (command argument crc7 r1 : Z) (fuel : nat) (w : World Device) :
  let frame :=
    [uint8 (Z.lor 0x40 command);
     uint8 (Z.shiftr argument 24); uint8 (Z.shiftr argument 16);
     uint8 (Z.shiftr argument 8); uint8 argument;
     uint8 (Z.lor (Z.shiftl crc7 1) 1)] in
  let sent := [mkTransfer (Some frame) false 6] in
  let response := [mkTransfer None true 5] in
  let written := snd (transactionAnswer env (busEvents w) sent) in
  let w1 := logEvent (EvTransaction sent 0 written) w in
  let answered := snd (transactionAnswer env (busEvents w1) response) in
  0 <= argument < 2 ^ 32 ->
  r1 <> 0xff ->
  fst (transactionAnswer env (busEvents w) sent) = 0 ->
  fst (transactionAnswer env (busEvents w1) response) = 0 ->
  delivered answered 0 5 = r1 :: firstn 4 (skipn 1 frame) ->
  run (writeCmdReadR3 env command argument crc7 false) fuel w
  = Some ((0, r1, argument), logEvent (EvTransaction response 0 answered) w1).
Proof.
  intros frame sent response written w1 answered Hargument Hr1 Hsent Hanswered Hecho.
  unfold run, writeCmdReadR3, writeCmd, bind, ret, executeTransaction.
  cbn [negb Z.sub Z.add Z.opp Z.pos_sub Pos.pred_double Z.to_nat Pos.to_nat
       Pos.iter_op Nat.add firstn].
  change (firstn _ _) with frame.
  change [mkTransfer (Some frame) false 6] with sent.
  subst written answered w1.
  destruct (transactionAnswer env (busEvents w) sent) as [code results] eqn:Hfirst.
  cbn [fst snd] in *. subst code. cbn [Z.eqb negb].
  unfold readR3, readResponse, bind, ret. cbn [length Nat.add].
  cbn [readResponse_loop length].
  change (size_t (Z.of_nat 5 + 8)) with 13. cbn [Z.ltb Z.compare negb].
  change (size_t (Z.of_nat 5 - 0)) with 5.
  unfold bind, ret, executeTransaction. fold response.
  destruct (transactionAnswer env
              (busEvents (logEvent (EvTransaction sent 0 results) w)) response)
    as [code answered] eqn:Hsecond.
  cbn [fst snd] in *. subst code. cbn [Z.eqb negb].
  rewrite Hecho. subst frame. cbn [firstn skipn].
  cbn [Z.to_nat store firstn skipn length app Nat.sub Nat.add].
  cbn [invalidBytesOf].
  replace (r1 =? 255) with false by zcompare. cbn [negb].
  change (Z.of_nat 5 - 0) with 5. change (Z.of_nat 5) with 5.
  cbn [Z.eqb Pos.eqb negb andb nth].
  rewrite (argument_bytes_assemble argument Hargument). reflexivity.
Qed.

Lemma command_argument_round_trip_witness :
  run (writeCmdReadR3
         (scriptedBus [wrote 6; reads [0x01; 0x00; 0x00; 0x01; 0xaa]] 0xff)
         8 0x1aa 0x43 false) 0 world0
  = Some ((0, 0x01, 0x1aa),
          logEvent
            (EvTransaction [mkTransfer None true 5] 0
               [mkTransferResult 5 [0x01; 0x00; 0x00; 0x01; 0xaa]])
            (logEvent
               (EvTransaction
                  [mkTransfer (Some [0x48; 0x00; 0x00; 0x01; 0xaa; 0x87]) false 6]
                  0 [mkTransferResult 6 []])
               world0)).
Proof.
  apply (command_argument_round_trip
           (scriptedBus [wrote 6; reads [0x01; 0x00; 0x00; 0x01; 0xaa]] 0xff)
           8 0x1aa 0x43 0x01 0 world0).
  - lia.
  - discriminate.
  - reflexivity.
  - reflexivity.
  - reflexivity.
Defined.

(** ** What initialization leaves in the card *)

Section Ensures.

Context {Device : Type}.
Variable env : Env Device.

Lemma ensures_ret {A : Type} (a : A) (Q : A -> Prop) :
  Q a -> ensures (Device := Device) (ret a) Q.
Proof. intros HQ fuel w a' w' [= <- _]. exact HQ. Qed.

Lemma ensures_bind {A B : Type} (m : Driver Device A) (k : A -> Driver Device B)
    (R : A -> Prop) (Q : B -> Prop) :
  ensures m R -> (forall a, R a -> ensures (k a) Q) -> ensures (bind m k) Q.
Proof.
  intros Hm Hk fuel w b w' Hrun. unfold run, bind in Hrun.
  destruct (m fuel w) as [[a w1]|] eqn:Hfirst; [|discriminate].
  exact (Hk a (Hm fuel w a w1 Hfirst) fuel w1 b w' Hrun).
Qed.

Lemma ensures_any {A : Type} (m : Driver Device A) : ensures m (fun _ => True).
Proof. intros fuel w a w' _. exact I. Qed.


Lemma ensures_outOfFuel {A : Type} (Q : A -> Prop) :
  ensures (Device := Device) outOfFuel Q.
Proof. intros fuel w a w' [=]. Qed.

Ltac ensures_step :=
  match goal with
  | |- ensures (ret _) _ => apply ensures_ret
  | |- ensures outOfFuel _ => apply ensures_outOfFuel
  | |- ensures (bind _ _) _ =>
      eapply ensures_bind; [apply ensures_any | intros ? _]
  | |- ensures (if ?b then _ else _) _ => destruct b eqn:?
  | |- ensures (match ?x with _ => _ end) _ => destruct x eqn:?
  end.















End Ensures.



(** ** How many bytes a successful transfer reports *)

Section Transfers.

Context {Device : Type}.
Variable env : Env Device.
Hypothesis Hcomplete : transfersComplete env.

Lemma executeTransaction_complete (operations : list SpiMasterTransfer) :
  ensures (executeTransaction env operations)
    (fun r => fst r = 0 ->
              map bytesTransfered (snd r) = map transferSize operations).
Proof.
  intros fuel w r w' Hrun. unfold run, executeTransaction in Hrun.
  pose proof (Hcomplete (busEvents w) operations) as Hanswer.
  destruct (transactionAnswer env (busEvents w) operations) as [code results].
  injection Hrun as <- _. exact Hanswer.
Qed.

Lemma readDataBlock_complete (buffer : list Z) (duration : Z) :
  ensures (readDataBlock env buffer blockSize duration)
    (fun r => fst (fst r) = 0 -> snd (fst r) = blockSize).
Proof.
  unfold readDataBlock.
  eapply ensures_bind; [apply ensures_any | intros r _].
  destruct (negb (fst r =? 0)) eqn:Hcode.
  { apply ensures_ret. cbn [fst]. intros Hzero. rewrite Hzero in Hcode. discriminate. }
  destruct (negb (snd r =? startBlockToken));
    [apply ensures_ret; cbn [fst]; discriminate|].
  eapply ensures_bind; [apply executeTransaction_complete|].
  intros [code results] Hresults. apply ensures_ret. cbn [fst snd] in *.
  intros Hzero. specialize (Hresults Hzero).
  destruct results as [|first rest]; [discriminate|].
  injection Hresults as Hfirst _. unfold transfered. cbn [nth].
  rewrite Hfirst. reflexivity.
Qed.

Lemma writeDataBlock_complete (token : Z) (buffer : list Z) (duration : Z) :
  ensures (writeDataBlock env token buffer blockSize duration)
    (fun r => fst r = 0 -> snd r = blockSize).
Proof.
  unfold writeDataBlock.
  eapply ensures_bind; [apply executeTransaction_complete|].
  intros [code results] Hresults. cbn [fst snd] in Hresults.
  destruct (negb (code =? 0)) eqn:Hcode.
  { apply ensures_ret. cbn [fst]. intros ->. discriminate. }
  assert (Hwritten : transfered results 1 = blockSize).
  { destruct (Z.eqb_spec code 0) as [Hzero|]; [|discriminate].
    specialize (Hresults Hzero).
    destruct results as [|first [|second rest]]; try discriminate.
    injection Hresults as _ Hsecond _. unfold transfered. cbn [nth].
    rewrite Hsecond. reflexivity. }
  rewrite Hwritten.
  eapply ensures_bind; [apply ensures_any | intros code' _].
  destruct (negb (code' =? 0)) eqn:Hcode'.
  { apply ensures_ret. cbn [fst]. intros ->. discriminate. }
  match goal with |- ensures (if ?b then _ else _) _ => destruct b end;
    apply ensures_ret; cbn [fst snd]; [discriminate | reflexivity].
Qed.

Lemma size_t_step (bytes blocks : Z) :
  size_t (size_t (bytes + blockSize) + blockSize * blocks)
  = size_t (bytes + blockSize * (blocks + 1)).
Proof.
  unfold size_t. rewrite Zplus_mod_idemp_l. f_equal. lia.
Qed.

Lemma read_blocks_complete (card : SpiSdMmcCard) (n : nat) :
  forall (block : Z) (buffer : list Z) (bytesRead : Z),
    ensures (read_blocks env card n block buffer bytesRead)
      (fun r => fst (fst r) = 0 ->
                snd (fst r)
                = match n with
                  | O => bytesRead
                  | S _ => size_t (bytesRead + blockSize * Z.of_nat n)
                  end).
Proof.
  induction n as [|n IH]; intros block buffer bytesRead; cbn [read_blocks].
  { apply ensures_ret. reflexivity. }
  eapply ensures_bind; [apply readDataBlock_complete|].
  intros [[code count] destination] Hcount. cbn [fst snd] in Hcount.
  destruct (negb (code =? 0)) eqn:Hcode.
  { apply ensures_ret. cbn [fst]. intros ->. discriminate. }
  destruct (Z.eqb_spec code 0) as [Hzero|]; [|discriminate].
  rewrite (Hcount Hzero).
  intros fuel w r w' Hrun Hsuccess.
  rewrite (IH _ _ _ fuel w r w' Hrun Hsuccess).
  destruct n as [|n].
  - f_equal; lia.
  - rewrite size_t_step. f_equal; lia.
Qed.

Lemma program_blocks_complete (card : SpiSdMmcCard) (buffer : list Z) (blocks : Z)
    (n : nat) :
  forall (block bytesWritten : Z),
    ensures (program_blocks env card buffer blocks n block bytesWritten)
      (fun r => fst r = 0 ->
                snd r
                = match n with
                  | O => bytesWritten
                  | S _ => size_t (bytesWritten + blockSize * Z.of_nat n)
                  end).
Proof.
  induction n as [|n IH]; intros block bytesWritten; cbn [program_blocks].
  { apply ensures_ret. reflexivity. }
  eapply ensures_bind; [apply writeDataBlock_complete|].
  intros [code written] Hwritten. cbn [fst snd] in Hwritten.
  destruct (negb (code =? 0)) eqn:Hcode.
  { apply ensures_ret. cbn [fst]. intros ->. discriminate. }
  destruct (Z.eqb_spec code 0) as [Hzero|]; [|discriminate].
  rewrite (Hwritten Hzero).
  intros fuel w r w' Hrun Hsuccess.
  rewrite (IH _ _ fuel w r w' Hrun Hsuccess).
  destruct n as [|n].
  - f_equal; lia.
  - rewrite size_t_step. f_equal; lia.
Qed.

Lemma whole_blocks (size : Z) :
  0 < size < 2 ^ 32 -> size mod blockSize = 0 ->
  match Z.to_nat (size / blockSize) with
  | O => 0
  | S _ => size_t (0 + blockSize * Z.of_nat (Z.to_nat (size / blockSize)))
  end = size.
Proof.
  intros Hsize Haligned. unfold blockSize in *.
  pose proof (Z.div_mod size 512 ltac:(lia)) as Hdiv.
  assert (Hblocks : 0 < size / 512) by lia.
  destruct (Z.to_nat (size / 512)) eqn:Hn; [lia|].
  rewrite <- Hn, Z2Nat.id by lia.
  replace (0 + 512 * (size / 512)) with size by lia.
  unfold size_t. apply Z.mod_small.
  change (2 ^ SIZE_WIDTH) with (2 ^ 32). lia.
Qed.

Lemma read_selected_complete (card : SpiSdMmcCard) (address : Z) (buffer : list Z)
    (size : Z) :
  0 < size < 2 ^ 32 -> size mod blockSize = 0 ->
  ensures
    (read_selected env card address buffer (address / blockSize) (size / blockSize))
    (fun r => fst (fst r) = 0 -> snd (fst r) = size).
Proof.
  intros Hsize Haligned. unfold read_selected.
  eapply ensures_bind; [apply ensures_any | intros [code r1] _].
  destruct (negb (code =? 0)) eqn:Hcode.
  { apply ensures_ret. cbn [fst]. intros ->. discriminate. }
  destruct (negb (r1 =? 0)); [apply ensures_ret; cbn [fst]; discriminate|].
  eapply ensures_bind; [apply read_blocks_complete|].
  intros [[code' bytesRead] buffer'] Hread. cbn [fst snd] in Hread.
  rewrite (whole_blocks size Hsize Haligned) in Hread.
  destruct (negb (code' =? 0)) eqn:Hcode'.
  { apply ensures_ret. cbn [fst]. intros ->. discriminate. }
  destruct (Z.eqb_spec code' 0) as [Hzero|]; [|discriminate].
  destruct (negb (size / blockSize =? 1)).
  - eapply ensures_bind; [apply ensures_any | intros [code12 r12] _].
    destruct (negb (code12 =? 0)) eqn:Hcode12.
    { apply ensures_ret. cbn [fst]. intros ->. discriminate. }
    destruct (negb (r12 =? 0)); apply ensures_ret; cbn [fst snd];
      [discriminate | intros _; exact (Hread Hzero)].
  - apply ensures_ret. cbn [fst snd]. intros _. exact (Hread Hzero).
Qed.

Lemma program_selected_complete (card : SpiSdMmcCard) (address : Z)
    (buffer : list Z) (size : Z) :
  0 < size < 2 ^ 32 -> size mod blockSize = 0 ->
  ensures
    (program_selected env card address buffer (address / blockSize)
       (size / blockSize))
    (fun r => fst r = 0 -> snd r = size).
Proof.
  intros Hsize Haligned. unfold program_selected.
  eapply ensures_bind; [apply ensures_any | intros [code r1] _].
  destruct (negb (code =? 0)) eqn:Hcode.
  { apply ensures_ret. cbn [fst]. intros ->. discriminate. }
  destruct (negb (r1 =? 0)); [apply ensures_ret; cbn [fst]; discriminate|].
  eapply ensures_bind; [apply program_blocks_complete|].
  intros [code' bytesWritten] Hwritten. cbn [fst snd] in Hwritten.
  rewrite (whole_blocks size Hsize Haligned) in Hwritten.
  destruct (negb (code' =? 0)) eqn:Hcode'.
  { apply ensures_ret. cbn [fst]. intros ->. discriminate. }
  destruct (Z.eqb_spec code' 0) as [Hzero|]; [|discriminate].
  destruct (negb (size / blockSize =? 1)).
  - eapply ensures_bind; [apply ensures_any | intros [codeStop results] _].
    destruct (negb (codeStop =? 0)) eqn:HcodeStop.
    { apply ensures_ret. cbn [fst]. intros ->. discriminate. }
    eapply ensures_bind; [apply ensures_any | intros codeBusy _].
    destruct (negb (codeBusy =? 0)) eqn:HcodeBusy; apply ensures_ret; cbn [fst snd].
    + intros ->. discriminate.
    + intros _. exact (Hwritten Hzero).
  - apply ensures_ret. cbn [fst snd]. intros _. exact (Hwritten Hzero).
Qed.

Lemma aligned_size (size : Z) :
  negb (size mod blockSize =? 0) = false -> size mod blockSize = 0.
Proof. intros H. destruct (Z.eqb_spec (size mod blockSize) 0); [assumption | discriminate]. Qed.

Lemma read_complete (card : SpiSdMmcCard) (address : Z) (buffer : option (list Z))
    (size : Z) :
  0 <= size < 2 ^ 32 ->
  ensures (read env card address buffer size)
    (fun r => fst (fst r) = 0 -> snd (fst r) = size).
Proof.
  intros Hsize. unfold read.
  destruct (isUnknown card); [apply ensures_ret; cbn [fst]; discriminate|].
  destruct (Z.eqb_spec size 0) as [Hzero|Hpositive];
    [apply ensures_ret; cbn [fst snd]; intros _; symmetry; exact Hzero|].
  destruct buffer as [data|]; [|apply ensures_ret; cbn [fst]; discriminate].
  destruct (negb (address mod blockSize =? 0)); cbn [orb];
    [apply ensures_ret; cbn [fst]; discriminate|].
  destruct (negb (size mod blockSize =? 0)) eqn:Haligned;
    [apply ensures_ret; cbn [fst]; discriminate|].
  apply aligned_size in Haligned.
  match goal with |- ensures (if ?b then _ else _) _ => destruct b end;
    [apply ensures_ret; cbn [fst]; discriminate|].
  eapply ensures_bind; [apply ensures_any | intros code _].
  destruct (negb (code =? 0)) eqn:Hcode.
  { apply ensures_ret. cbn [fst]. intros ->. discriminate. }
  eapply ensures_bind; [apply ensures_any | intros ? _].
  eapply ensures_bind;
    [apply (read_selected_complete card address data size); [lia | exact Haligned]|].
  intros [[code' bytesRead] data'] Hread.
  eapply ensures_bind; [apply ensures_any | intros ? _].
  apply ensures_ret. exact Hread.
Qed.

Lemma program_complete (card : SpiSdMmcCard) (address : Z)
    (buffer : option (list Z)) (size : Z) :
  0 <= size < 2 ^ 32 ->
  ensures (program env card address buffer size)
    (fun r => fst r = 0 -> snd r = size).
Proof.
  intros Hsize. unfold program.
  destruct (isUnknown card); [apply ensures_ret; cbn [fst]; discriminate|].
  destruct (Z.eqb_spec size 0) as [Hzero|Hpositive];
    [apply ensures_ret; cbn [fst snd]; intros _; symmetry; exact Hzero|].
  destruct buffer as [data|]; [|apply ensures_ret; cbn [fst]; discriminate].
  destruct (negb (address mod blockSize =? 0)); cbn [orb];
    [apply ensures_ret; cbn [fst]; discriminate|].
  destruct (negb (size mod blockSize =? 0)) eqn:Haligned;
    [apply ensures_ret; cbn [fst]; discriminate|].
  apply aligned_size in Haligned.
  match goal with |- ensures (if ?b then _ else _) _ => destruct b end;
    [apply ensures_ret; cbn [fst]; discriminate|].
  eapply ensures_bind; [apply ensures_any | intros code _].
  destruct (negb (code =? 0)) eqn:Hcode.
  { apply ensures_ret. cbn [fst]. intros ->. discriminate. }
  eapply ensures_bind; [apply ensures_any | intros ? _].
  eapply ensures_bind;
    [apply (program_selected_complete card address data size);
     [lia | exact Haligned]|].
  intros result Hwritten.
  eapply ensures_bind; [apply ensures_any | intros ? _].
  apply ensures_ret. exact Hwritten.
Qed.

End Transfers.

Lemma fillBus_transfersComplete (fills : list Z) (filler : Z) :
  transfersComplete (fillBus fills filler).
Proof.
  intros history operations _. cbn [fillBus transactionAnswer snd].
  generalize (nth (length (filter isTransaction history)) fills filler).
  intros byte. unfold completeWith. rewrite map_map. reflexivity.
Qed.

(** X12.  A successful read or program reports the whole request.  On a
    bus whose successful transactions transfer all the bytes of each
    transfer, whenever [read] or [program] returns 0 for a request of
    [size] bytes (a [size_t]), the number of bytes it reports is [size]:
    a short count comes only with an error code. *)
Theorem successful_transfer_reports_whole_size {Device : Type} (env : Env Device)
    (card : SpiSdMmcCard) (address : Z) (buffer : option (list Z)) (size : Z) :
  transfersComplete env ->
  0 <= size < 2 ^ 32 ->
  ensures (read env card address buffer size)
    (fun r => fst (fst r) = 0 -> snd (fst r) = size)
  /\ ensures (program env card address buffer size)
       (fun r => fst r = 0 -> snd r = size).
Proof.
  intros Hcomplete Hsize. split.
  - apply read_complete; assumption.
  - apply program_complete; assumption.
Qed.

Lemma successful_transfer_reports_whole_size_witness :
  (exists data w',
      run (read (fillBus [0x00; 0x00; 0xfe] 0x5a) openedCard 0
             (Some (repeat 0 512)) 512) 20 world0
      = Some ((0, 512, Some data), w'))
  /\ ensures (read (fillBus [0x00; 0x00; 0xfe] 0x5a) openedCard 0
                (Some (repeat 0 512)) 512)
       (fun r => fst (fst r) = 0 -> snd (fst r) = 512)
  /\ ensures (program (fillBus [0x00; 0x00; 0xfe] 0x5a) openedCard 0
                (Some (repeat 0 512)) 512)
       (fun r => fst r = 0 -> snd r = 512).
Proof.
  split.
  - eexists. eexists. vm_compute. reflexivity.
  - apply (successful_transfer_reports_whole_size
             (fillBus [0x00; 0x00; 0xfe] 0x5a) openedCard 0
             (Some (repeat 0 512)) 512).
    + apply fillBus_transfersComplete.
    + lia.
Defined.

(** ** A wait whose time is up *)

(** X13.  A wait of no duration does not touch the bus.  With a duration
    of 0 or less, [waitWhile] (and [waitWhileBusy] with it) reads the
    clock twice and, as long as the clock did not run backwards between
    the two readings, returns [ETIMEDOUT] without a single transaction,
    whatever the predicate is. *)
Theorem expired_wait_never_polls {Device : Type} (env : Env Device)
    (duration : Z) (functor : Z -> bool) (fuel : nat) (w : World Device) :
  duration <= 0 ->
  tickAt env (ticksRead w) <= tickAt env (S (ticksRead w)) ->
  (0 < fuel)%nat ->
  let w' := mkWorld (S (S (ticksRead w))) (busEvents w) (spiDevice_ w) in
  run (waitWhile env duration functor) fuel w = Some ((ETIMEDOUT, 0), w')
  /\ run (waitWhileBusy env duration) fuel w = Some (ETIMEDOUT, w').
Proof.
  intros Hduration Hclock Hfuel w'.
  assert (Hwait : forall f,
             run (waitWhile env duration f) fuel w = Some ((ETIMEDOUT, 0), w')).
  { intros f. destruct fuel as [|fuel]; [lia|].
    unfold run, waitWhile, bind, now, withFuel. cbn [waitWhile_loop].
    unfold bind, now, ret. cbn [ticksRead busEvents spiDevice_].
    replace (tickAt env (S (ticksRead w)) <? tickAt env (ticksRead w) + duration)
      with false by (symmetry; apply Z.ltb_ge; lia).
    reflexivity. }
  split; [apply Hwait|].
  unfold run, waitWhileBusy, bind.
  pose proof (Hwait (fun byte => negb (byte =? 0xff))) as Hbusy.
  unfold run in Hbusy. rewrite Hbusy. reflexivity.
Qed.

Lemma expired_wait_never_polls_witness :
  run (waitWhile busyBus 0 (fun _ => true)) 1 world0
  = Some ((ETIMEDOUT, 0), mkWorld 2 [] 1%nat)
  /\ run (waitWhileBusy busyBus 0) 1 world0
     = Some (ETIMEDOUT, mkWorld 2 [] 1%nat).
Proof.
  apply (expired_wait_never_polls busyBus 0 (fun _ => true) 1 world0).
  - lia.
  - cbn. lia.
  - lia.
Defined.
